(** * Signal listener of cqueues (src/signal.c)

    A shallow embedding of the kqueue signal listener: the [struct signalfd]
    record, the [sfd_*] routines that keep it in step with the kernel queue
    and the Lua entry points [lsl_listen], [lsl__gc], [lsl_wait] and
    [lsl_timeout].

    The C code mutates a [struct signalfd] in place and talks to the kernel
    through [kqueue], [kevent] and [close].  Here every routine takes the
    record and the kernel state and returns the new ones.  What the kernel
    answers is not decided by the program: the kernel state carries an
    oracle that gives the answer of the n-th system call. *)

From Stdlib Require Import String ZArith List Bool Lia Sorted.
Import ListNotations.
Local Open Scope Z_scope.

(** ** Constants of the system headers *)

(** [<sys/event.h>] and [<errno.h>] on the BSD family. *)
Definition EVFILT_SIGNAL : Z := -6.
Definition EV_ADD : Z := 1.
Definition EV_DELETE : Z := 2.
Definition EINTR : Z := 4.

(** Conversion to a C [int] (32 bits, two's complement). *)
Definition to_int (z : Z) : Z := (z + 2 ^ 31) mod 2 ^ 32 - 2 ^ 31.

(** C's logical negation on an [int]. *)
Definition lnot (x : Z) : Z := if x =? 0 then 1 else 0.

(** ** Lua values and outcomes of a Lua C function *)

Inductive lua_value : Type :=
| Lnil
| Lboolean (b : bool)
| Lnumber (n : Z).

(** [luaL_checkint]: the argument as an [int], or an argument error. *)
Definition luaL_checkint (v : lua_value) : option Z :=
  match v with
  | Lnumber n => Some (to_int n)
  | _ => None
  end.

(** What [luaL_error] and [luaL_checkint] raise. *)
Inductive lua_error : Type :=
| BadArgument (index : nat)
| ErrorMessage (who : string) (errno : Z).

(** A Lua C function either returns its results or raises. *)
Inductive lua_ret (A : Type) : Type :=
| Returned (results : A)
| Raised (e : lua_error).
Arguments Returned {A} results.
Arguments Raised {A} e.

(** ** The kernel *)

(** What a system call hands back: its return value, the error number it
    leaves in [errno] when it fails (error numbers are positive, no call
    sets [errno] to 0), and for a [kevent] that reports an event the
    [filter] and [ident] it stored. *)
Record sysreply : Type := mk_sysreply {
  r_ret : Z;
  r_errno : positive;
  r_filter : Z;
  r_ident : Z
}.

(** [errno] as the program reads it after a failed call. *)
Definition errno (r : sysreply) : Z := Z.pos (r_errno r).

(** The system calls of signal.c. *)
Inductive syscall : Type :=
| SysKqueue
| SysClose (d : Z)
| SysKeventChange (d : Z) (ident : Z) (filter : Z) (flags : Z)
| SysKeventPoll (d : Z).

(** Kernel state.  [k_reply n] is the answer to the n-th system call,
    [k_log] the calls made so far, [k_open] the open descriptors,
    [k_knotes] the signal filters registered, as (queue, signal) pairs.
    [k_honest] records that the kernel has kept its contract so far: a
    signal event is only reported for a filter registered on that queue. *)
Record kernel : Type := mk_kernel {
  k_reply : nat -> sysreply;
  k_log : list syscall;
  k_open : list Z;
  k_knotes : list (Z * Z);
  k_honest : bool
}.

Definition knote_eqb (x y : Z * Z) : bool :=
  (fst x =? fst y) && (snd x =? snd y).

Definition knote_mem (x : Z * Z) (l : list (Z * Z)) : bool :=
  existsb (knote_eqb x) l.

Definition knote_del (x : Z * Z) (l : list (Z * Z)) : list (Z * Z) :=
  filter (fun y => negb (knote_eqb x y)) l.

Definition knote_drop_queue (d : Z) (l : list (Z * Z)) : list (Z * Z) :=
  filter (fun y => negb (fst y =? d)) l.

Definition fd_close (d : Z) (l : list Z) : list Z :=
  filter (fun y => negb (y =? d)) l.

(** The kernel's contract on one answer. *)
Definition reply_ok (K : kernel) (c : syscall) (r : sysreply) : bool :=
  match c with
  | SysKeventPoll d =>
      if (r_ret r =? 1) && (r_filter r =? EVFILT_SIGNAL)
      then knote_mem (d, r_ident r) (k_knotes K)
      else true
  | _ => true
  end.

(** Descriptors open after a call. *)
Definition open_after (K : kernel) (c : syscall) (r : sysreply) : list Z :=
  match c with
  | SysKqueue => if r_ret r =? -1 then k_open K else r_ret r :: k_open K
  | SysClose d => fd_close d (k_open K)
  | _ => k_open K
  end.

(** Filters registered after a call: a new queue starts empty, closing a
    queue drops its filters, a successful EV_ADD or EV_DELETE of a signal
    filter registers or removes it. *)
Definition knotes_after (K : kernel) (c : syscall) (r : sysreply)
  : list (Z * Z) :=
  match c with
  | SysKqueue =>
      if r_ret r =? -1 then k_knotes K
      else knote_drop_queue (r_ret r) (k_knotes K)
  | SysClose d => knote_drop_queue d (k_knotes K)
  | SysKeventChange d ident filter flags =>
      if (r_ret r =? 0) && (filter =? EVFILT_SIGNAL) then
        if flags =? EV_ADD then (d, ident) :: k_knotes K
        else if flags =? EV_DELETE then knote_del (d, ident) (k_knotes K)
        else k_knotes K
      else k_knotes K
  | SysKeventPoll _ => k_knotes K
  end.

(** The answer the next system call will get. *)
Definition next_reply (K : kernel) : sysreply :=
  k_reply K (length (k_log K)).

(** One system call: the oracle's answer and the kernel afterwards. *)
Definition sys (K : kernel) (c : syscall) : sysreply * kernel :=
  let r := next_reply K in
  (r, {| k_reply := k_reply K;
         k_log := k_log K ++ [c];
         k_open := open_after K c r;
         k_knotes := knotes_after K c r;
         k_honest := k_honest K && reply_ok K c r |}).

(** An oracle from a finite script; calls past its end get [dflt]. *)
Definition script (l : list sysreply) (dflt : sysreply) : nat -> sysreply :=
  fun n => nth n l dflt.

(** Some answers. *)
Definition reply_ret (n : Z) : sysreply := mk_sysreply n 1 0 0.
Definition reply_fail (e : positive) : sysreply := mk_sysreply (-1) e 0 0.
Definition reply_signal (signo : Z) : sysreply :=
  mk_sysreply 1 1 EVFILT_SIGNAL signo.

(** A kernel with nothing open that follows script [l], then answers 0. *)
Definition boot (l : list sysreply) : kernel :=
  {| k_reply := script l (reply_ret 0);
     k_log := [];
     k_open := [];
     k_knotes := [];
     k_honest := true |}.

(** From now on no call fails and no poll reports an event. *)
Definition quiet (K : kernel) : Prop :=
  forall n, (length (k_log K) <= n)%nat -> r_ret (k_reply K n) = 0.

(** The next answer is an interrupted wait. *)
Definition interrupted (r : sysreply) : bool :=
  (r_ret r =? -1) && (errno r =? EINTR).

(** The next answer reports signal [signo]. *)
Definition delivers (r : sysreply) (signo : Z) : Prop :=
  r_ret r = 1 /\ r_filter r = EVFILT_SIGNAL /\ to_int (r_ident r) = signo.

Section Platform.

(** Modelled from the platform: [sigset_t] and its operations belong to the
    C library, not to this repository.  A signal set is a bit mask, bit
    [signo - 1] for signal [signo]; [nsig] is the largest signal number the
    type can hold (32 on macOS and OpenBSD, 128 on FreeBSD).  Out of that
    range [sigaddset] and [sigdelset] fail and leave the set alone, and
    [sigismember] returns -1. *)
Variable nsig : Z.

Definition sigset_t : Type := Z.

Definition sigemptyset : sigset_t := 0.

Definition sig_valid (signo : Z) : bool := (1 <=? signo) && (signo <=? nsig).

Definition sigaddset (s : sigset_t) (signo : Z) : sigset_t :=
  if sig_valid signo then Z.setbit s (signo - 1) else s.

Definition sigdelset (s : sigset_t) (signo : Z) : sigset_t :=
  if sig_valid signo then Z.clearbit s (signo - 1) else s.

Definition sigismember (s : sigset_t) (signo : Z) : Z :=
  if sig_valid signo then Z.b2z (Z.testbit s (signo - 1)) else -1.

(** ** struct signalfd *)

Record signalfd : Type := mk_signalfd {
  fd : Z;
  desired : sigset_t;
  polling : sigset_t;
  pending : sigset_t
}.

Definition sfd_preinit (S : signalfd) : signalfd :=
  {| fd := -1;
     desired := sigemptyset;
     polling := sigemptyset;
     pending := sigemptyset |}.

Definition sfd_init (S : signalfd) (K : kernel) : Z * signalfd * kernel :=
  let (r, K1) := sys K SysKqueue in
  let S1 := {| fd := r_ret r; desired := desired S;
               polling := polling S; pending := pending S |} in
  if r_ret r =? -1 then (errno r, S1, K1) else (0, S1, K1).

Definition sfd_destroy (S : signalfd) (K : kernel) : signalfd * kernel :=
  let (_, K1) := sys K (SysClose (fd S)) in
  (sfd_preinit S, K1).

(** The test of the scan: [!!sigismember(a, signo) ^ !!sigismember(b, signo)]. *)
Definition differs (a b : sigset_t) (signo : Z) : bool :=
  negb (Z.lxor (lnot (lnot (sigismember a signo)))
               (lnot (lnot (sigismember b signo))) =? 0).

(** The [for] loop of [sfd_diff], [n] iterations left, at [signo]. *)
Fixpoint sfd_diff_from (n : nat) (signo : Z) (a b : sigset_t) : Z :=
  match n with
  | O => 0
  | S n' =>
      if differs a b signo then signo
      else sfd_diff_from n' (signo + 1) a b
  end.

Definition sfd_diff (a b : sigset_t) : Z := sfd_diff_from 31 1 a b.

(** The [while] loop of [sfd_update]; [None] when [fuel] iterations were
    not enough. *)
Fixpoint sfd_update_loop (fuel : nat) (S : signalfd) (K : kernel)
  : option (Z * signalfd * kernel) :=
  match fuel with
  | O => None
  | Datatypes.S fuel' =>
      let signo := sfd_diff (desired S) (polling S) in
      if signo =? 0 then Some (0, S, K)
      else if negb (sigismember (desired S) signo =? 0) then
        let (r, K1) := sys K (SysKeventChange (fd S) signo EVFILT_SIGNAL EV_ADD) in
        if negb (r_ret r =? 0) then Some (errno r, S, K1)
        else sfd_update_loop fuel'
               {| fd := fd S; desired := desired S;
                  polling := sigaddset (polling S) signo;
                  pending := pending S |} K1
      else
        let (r, K1) := sys K (SysKeventChange (fd S) signo EVFILT_SIGNAL EV_DELETE) in
        if negb (r_ret r =? 0) then Some (errno r, S, K1)
        else sfd_update_loop fuel'
               {| fd := fd S; desired := desired S;
                  polling := sigdelset (polling S) signo;
                  pending := pending S |} K1
  end.

(** Every iteration settles one of the 31 scanned signals, so 32 rounds
    always reach the exit ([sfd_update_total] below). *)
Definition sfd_update (S : signalfd) (K : kernel)
  : option (Z * signalfd * kernel) :=
  sfd_update_loop 32 S K.

(** [sfd_query]; [fuel] bounds the number of [goto retry]. *)
Fixpoint sfd_query (fuel : nat) (S : signalfd) (K : kernel)
  : option (Z * signalfd * kernel) :=
  match fuel with
  | O => None
  | Datatypes.S fuel' =>
      let (r, K1) := sys K (SysKeventPoll (fd S)) in
      if r_ret r =? 1 then
        if r_filter r =? EVFILT_SIGNAL then
          sfd_update
            {| fd := fd S; desired := desired S;
               polling := sigdelset (polling S) (to_int (r_ident r));
               pending := sigaddset (pending S) (to_int (r_ident r)) |} K1
        else sfd_update S K1
      else if r_ret r =? -1 then
        if errno r =? EINTR then sfd_query fuel' S K1
        else Some (errno r, S, K1)
      else sfd_update S K1
  end.

(** ** The Lua entry points *)

(** The userdata of a listener: the record and whether the metatable of
    [LSL_CLASS], which carries [__gc], has been attached. *)
Record userdata : Type := mk_userdata {
  ud_S : signalfd;
  ud_class : bool
}.

(** The argument loop of [lsl_listen], at argument [index]. *)
Fixpoint listen_args (args : list lua_value) (index : nat) (S : signalfd)
  : signalfd + nat * signalfd :=
  match args with
  | [] => inl S
  | v :: rest =>
      match luaL_checkint v with
      | Some signo =>
          listen_args rest (Datatypes.S index)
            {| fd := fd S; desired := sigaddset (desired S) signo;
               polling := polling S; pending := pending S |}
      | None => inr (index, S)
      end
  end.

(** [lsl_listen]: the outcome, the userdata it allocated and the kernel. *)
Definition lsl_listen (args : list lua_value) (K : kernel)
  : option (lua_ret unit * userdata * kernel) :=
  let S0 := sfd_preinit (mk_signalfd 0 0 0 0) in
  match listen_args args 1 S0 with
  | inr (index, S1) =>
      Some (Raised (BadArgument index), mk_userdata S1 false, K)
  | inl S1 =>
      match sfd_init S1 K with
      | (error, S2, K2) =>
          if negb (error =? 0) then
            Some (Raised (ErrorMessage "signal.listen" error),
                  mk_userdata S2 true, K2)
          else
            match sfd_update S2 K2 with
            | None => None
            | Some (error, S3, K3) =>
                if negb (error =? 0) then
                  Some (Raised (ErrorMessage "signal.listen" error),
                        mk_userdata S3 true, K3)
                else Some (Returned tt, mk_userdata S3 true, K3)
            end
      end
  end.

(** [lsl__gc], the finaliser Lua runs on a collected listener. *)
Definition lsl__gc (u : userdata) (K : kernel) : userdata * kernel :=
  let (S1, K1) := sfd_destroy (ud_S u) K in
  (mk_userdata S1 (ud_class u), K1).

(** [lsl_wait]: a signal number, or no result. *)
Definition lsl_wait (fuel : nat) (S : signalfd) (K : kernel)
  : option (lua_ret (option Z) * signalfd * kernel) :=
  match sfd_query fuel S K with
  | None => None
  | Some (error, S1, K1) =>
      if negb (error =? 0) then
        Some (Raised (ErrorMessage "signal:get" error), S1, K1)
      else
        let signo := sfd_diff (pending S1) sigemptyset in
        if negb (signo =? 0) then
          Some (Returned (Some signo),
                {| fd := fd S1; desired := desired S1; polling := polling S1;
                   pending := sigdelset (pending S1) signo |}, K1)
        else Some (Returned None, S1, K1)
  end.

(** [lsl_timeout]: the number 0.0 or nil. *)
Definition lsl_timeout (S : signalfd) : lua_value :=
  if negb (sfd_diff (pending S) sigemptyset =? 0) then Lnumber 0 else Lnil.

(** [n] successive calls of [lsl_wait] and what each gave. *)
Fixpoint lsl_wait_seq (n fuel : nat) (S : signalfd) (K : kernel)
  : option (list (lua_ret (option Z)) * signalfd * kernel) :=
  match n with
  | O => Some ([], S, K)
  | Datatypes.S n' =>
      match lsl_wait fuel S K with
      | None => None
      | Some (r, S1, K1) =>
          match lsl_wait_seq n' fuel S1 K1 with
          | None => None
          | Some (rs, S2, K2) => Some (r :: rs, S2, K2)
          end
      end
  end.

(** The kernel after [n] polls of queue [d]. *)
Fixpoint polls (n : nat) (d : Z) (K : kernel) : kernel :=
  match n with
  | O => K
  | Datatypes.S n' => polls n' d (snd (sys K (SysKeventPoll d)))
  end.

(** ** Sets of signals, as the program observes them *)

(** [a] is a subset of [b]. *)
Definition sig_subset (a b : sigset_t) : Prop :=
  forall signo, sigismember a signo = 1 -> sigismember b signo = 1.

(** Every member of [s] is one of the signals 1..31. *)
Definition sig_upto31 (s : sigset_t) : Prop :=
  forall signo, sigismember s signo = 1 -> signo <= 31.

(** [a] and [b] have the same members among the signals 1..31. *)
Definition sig_agree31 (a b : sigset_t) : Prop :=
  forall signo, 1 <= signo <= 31 -> sigismember a signo = sigismember b signo.

(** The members of [s] met by a scan of [n] signals from [signo] up. *)
Fixpoint sig_elements_from (n : nat) (signo : Z) (s : sigset_t) : list Z :=
  match n with
  | O => []
  | Datatypes.S n' =>
      (if sigismember s signo =? 1 then [signo] else []) ++
      sig_elements_from n' (signo + 1) s
  end.

(** The members of [s] among the signals 1..31, in increasing order. *)
Definition sig_elements (s : sigset_t) : list Z := sig_elements_from 31 1 s.

(** The mask only has bits of signals the type can hold. *)
Definition sig_wf (s : sigset_t) : Prop :=
  forall i, Z.testbit s i = true -> 0 <= i < nsig.

(** The mask only has bits of signals that [sfd_diff] scans. *)
Definition sig_scanned (s : sigset_t) : Prop :=
  forall i, Z.testbit s i = true -> 0 <= i < 31 /\ i < nsig.

(** ** Reachable listeners *)

(** The states a caller can hold: what a successful [lsl_listen] returned,
    and what any [lsl_wait] on such a listener left behind, with a kernel
    that kept its contract. *)
Inductive reachable : signalfd -> kernel -> Prop :=
| reach_listen (args : list lua_value) (K0 : kernel) (u : userdata) (K : kernel) :
    lsl_listen args K0 = Some (Returned tt, u, K) ->
    k_honest K = true ->
    reachable (ud_S u) K
| reach_wait (fuel : nat) (S : signalfd) (K : kernel)
    (r : lua_ret (option Z)) (S1 : signalfd) (K1 : kernel) :
    reachable S K ->
    lsl_wait fuel S K = Some (r, S1, K1) ->
    k_honest K1 = true ->
    reachable S1 K1.

(** What holds of every reachable listener (see [reachable_inv]). *)
Record listener_inv (S : signalfd) (K : kernel) : Prop := mk_listener_inv {
  inv_desired : sig_wf (desired S);
  inv_polling : forall i, Z.testbit (polling S) i = true ->
                          Z.testbit (desired S) i = true /\ 0 <= i < 31;
  inv_pending : sig_scanned (pending S);
  inv_knotes : forall ident, In (fd S, ident) (k_knotes K) -> 1 <= ident <= 31
}.

(** What [sfd_update] may do to the listener: only [polling] changes, and
    each bit of it is either kept or, for a scanned signal, made equal to
    the bit of [desired]. *)
Definition upd_rel (S S1 : signalfd) : Prop :=
  fd S1 = fd S /\ desired S1 = desired S /\ pending S1 = pending S /\
  forall i, Z.testbit (polling S1) i = Z.testbit (polling S) i \/
            (0 <= i < 31 /\ Z.testbit (polling S1) i = Z.testbit (desired S) i).

(** A call that arms or disarms one of the signals 1..31 on queue [d]. *)
Definition is_change (d : Z) (c : syscall) : Prop :=
  exists signo flags,
    c = SysKeventChange d signo EVFILT_SIGNAL flags /\ 1 <= signo <= 31.

(** What [sfd_update] may do to the kernel: it only arms and disarms
    signals 1..31 on its own queue. *)
Definition kernel_ext (d : Z) (K K1 : kernel) : Prop :=
  k_reply K1 = k_reply K /\ k_open K1 = k_open K /\
  k_honest K1 = k_honest K /\
  (exists l, k_log K1 = k_log K ++ l /\ Forall (is_change d) l) /\
  (forall x, In x (k_knotes K1) ->
             In x (k_knotes K) \/ (fst x = d /\ 1 <= snd x <= 31)).

(** The listener once [sfd_query] has taken in the answer [r] of its poll. *)
Definition observe (S : signalfd) (r : sysreply) : signalfd :=
  if (r_ret r =? 1) && (r_filter r =? EVFILT_SIGNAL) then
    {| fd := fd S; desired := desired S;
       polling := sigdelset (polling S) (to_int (r_ident r));
       pending := sigaddset (pending S) (to_int (r_ident r)) |}
  else S.

(** What [lsl_wait] does once [sfd_query] has returned. *)
Definition consume (S1 : signalfd) : lua_ret (option Z) * signalfd :=
  let signo := sfd_diff (pending S1) sigemptyset in
  if negb (signo =? 0) then
    (Returned (Some signo),
     {| fd := fd S1; desired := desired S1; polling := polling S1;
        pending := sigdelset (pending S1) signo |})
  else (Returned None, S1).

(** ** The rest of the listener *)

(** [lsl_pollfd]: the descriptor of the queue, as a Lua integer. *)
Definition lsl_pollfd (S : signalfd) : lua_value := Lnumber (fd S).

(** The signals at which a scan of [n] signals from [signo] up finds [a]
    and [b] to differ. *)
Fixpoint sig_diffs_from (n : nat) (signo : Z) (a b : sigset_t) : list Z :=
  match n with
  | O => []
  | Datatypes.S n' =>
      (if differs a b signo then [signo] else []) ++
      sig_diffs_from n' (signo + 1) a b
  end.

(** The signals of 1..31 at which [a] and [b] differ, in increasing order. *)
Definition sig_diffs (a b : sigset_t) : list Z := sig_diffs_from 31 1 a b.

(** The [kevent] call [sfd_update] makes for signal [signo]. *)
Definition change_call (S : signalfd) (signo : Z) : syscall :=
  SysKeventChange (fd S) signo EVFILT_SIGNAL
    (if sigismember (desired S) signo =? 0 then EV_DELETE else EV_ADD).

(** What a run of the loop of [sfd_update] has called: one [kevent] for
    each difference it got to, in increasing order; it stops at the first
    call that fails, with that difference and the later ones still there. *)
Definition update_trace (S : signalfd) (K : kernel) (e : Z) (S1 : signalfd)
    (K1 : kernel) (done : list Z) : Prop :=
  sig_diffs (desired S) (polling S) =
    done ++ sig_diffs (desired S1) (polling S1) /\
  (forall i, (i < length done)%nat ->
             r_ret (k_reply K (length (k_log K) + i)%nat) = 0) /\
  ((e = 0 /\ sig_diffs (desired S1) (polling S1) = [] /\
    k_log K1 = k_log K ++ map (change_call S) done) \/
   (e <> 0 /\
    exists m rest,
      sig_diffs (desired S1) (polling S1) = m :: rest /\
      k_log K1 = k_log K ++ map (change_call S) (done ++ [m]) /\
      r_ret (k_reply K (length (k_log K) + length done)%nat) <> 0 /\
      e = errno (k_reply K (length (k_log K) + length done)%nat))).


(** ** Signal disposition routines *)

(** [<signal.h>] on the BSD family. *)
Definition SIG_BLOCK : Z := 1.
Definition SIG_UNBLOCK : Z := 2.

Inductive sighandler : Type :=
| SIG_DFL
| SIG_IGN.

(** The system calls of the disposition routines: [sigaction] with the
    fields of the [struct sigaction] it is given and no old action asked
    for, and [sigprocmask] or [pthread_sigmask] with no old mask asked
    for. *)
Inductive sigcall : Type :=
| SysSigaction (signo : Z) (sa_handler : sighandler) (sa_mask : sigset_t)
    (sa_flags : Z)
| SysSigmask (how : Z) (set : sigset_t).

(** The process as these routines see it: the answers the calls will get
    and the calls made so far. *)
Record process : Type := mk_process {
  p_reply : nat -> sysreply;
  p_log : list sigcall
}.

Definition sigsys (P : process) (c : sigcall) : sysreply * process :=
  (p_reply P (length (p_log P)),
   {| p_reply := p_reply P; p_log := p_log P ++ [c] |}).

(** Whether the file is compiled with [_REENTRANT] or [_THREAD_SAFE]. *)
Variable threaded : bool.

(** [xsigmask]: [pthread_sigmask] returns the error number itself,
    [sigprocmask] returns -1 and sets [errno]. *)
Definition xsigmask (how : Z) (set : sigset_t) (P : process) : Z * process :=
  let (r, P1) := sigsys P (SysSigmask how set) in
  if threaded then (r_ret r, P1)
  else (if r_ret r =? 0 then 0 else errno r, P1).

(** The loop of [ls_ignore] and of [ls_default], which differ in the
    handler they install and in the name they report, at argument
    [index]. *)
Fixpoint ls_sigaction (who : string) (handler : sighandler)
    (args : list lua_value) (index : nat) (P : process)
  : lua_ret unit * process :=
  match args with
  | [] => (Returned tt, P)
  | v :: rest =>
      match luaL_checkint v with
      | None => (Raised (BadArgument index), P)
      | Some signo =>
          let (r, P1) := sigsys P (SysSigaction signo handler sigemptyset 0) in
          if negb (r_ret r =? 0) then (Raised (ErrorMessage who (errno r)), P1)
          else ls_sigaction who handler rest (Datatypes.S index) P1
      end
  end.

Definition ls_ignore (args : list lua_value) (P : process)
  : lua_ret unit * process :=
  ls_sigaction "signal.ignore" SIG_IGN args 1 P.

Definition ls_default (args : list lua_value) (P : process)
  : lua_ret unit * process :=
  ls_sigaction "signal.default" SIG_DFL args 1 P.

(** The argument loop of [ls_block] and of [ls_unblock], at argument
    [index]. *)
Fixpoint sigset_args (args : list lua_value) (index : nat) (set : sigset_t)
  : sigset_t + nat :=
  match args with
  | [] => inl set
  | v :: rest =>
      match luaL_checkint v with
      | Some signo => sigset_args rest (Datatypes.S index) (sigaddset set signo)
      | None => inr index
      end
  end.

Definition ls_block (args : list lua_value) (P : process)
  : lua_ret unit * process :=
  match sigset_args args 1 sigemptyset with
  | inr index => (Raised (BadArgument index), P)
  | inl set =>
      let (error, P1) := xsigmask SIG_BLOCK set P in
      if negb (error =? 0) then (Raised (ErrorMessage "signal.block" error), P1)
      else (Returned tt, P1)
  end.

Definition ls_unblock (args : list lua_value) (P : process)
  : lua_ret unit * process :=
  match sigset_args args 1 sigemptyset with
  | inr index => (Raised (BadArgument index), P)
  | inl set =>
      let (error, P1) := xsigmask SIG_UNBLOCK set P in
      if negb (error =? 0) then (Raised (ErrorMessage "signal.unblock" error), P1)
      else (Returned tt, P1)
  end.

(** The signal numbers that [luaL_checkint] makes of a list of numbers. *)
Definition int_args (args : list lua_value) : list Z :=
  flat_map (fun v => match luaL_checkint v with
                     | Some n => [n]
                     | None => []
                     end) args.

(** The [sigaction] calls that install [handler] for the signals [l]. *)
Definition sigaction_calls (handler : sighandler) (l : list Z) : list sigcall :=
  map (fun signo => SysSigaction signo handler sigemptyset 0) l.

(** The process after the calls [l]. *)
Definition after_calls (P : process) (l : list sigcall) : process :=
  {| p_reply := p_reply P; p_log := p_log P ++ l |}.

(** A process whose calls follow script [l], then answer 0. *)
Definition proc (l : list sysreply) : process :=
  {| p_reply := script l (reply_ret 0); p_log := [] |}.

(** ** The Lua state of the module table and of the method table *)

(** Modelled from the Lua 5.2 C API: values, tables held in a heap and
    named by reference, the registry, and the stack with its top last.
    A call that raises a Lua error, or is given an index that is not
    acceptable, gives [None]. *)
Inductive lobj : Type :=
| ONil
| ONumber (n : Z)
| OString (s : string)
| OFunction (f : string)
| OTable (t : nat).

Definition lobj_eqb (a b : lobj) : bool :=
  match a, b with
  | ONil, ONil => true
  | ONumber x, ONumber y => x =? y
  | OString x, OString y => String.eqb x y
  | OFunction x, OFunction y => String.eqb x y
  | OTable x, OTable y => Nat.eqb x y
  | _, _ => false
  end.

(** A table: its entries; a key with value nil is absent. *)
Definition ltable : Type := list (lobj * lobj).

Definition tget (k : lobj) (t : ltable) : lobj :=
  match find (fun e => lobj_eqb k (fst e)) t with
  | Some e => snd e
  | None => ONil
  end.

Definition tdel (k : lobj) (t : ltable) : ltable :=
  filter (fun e => negb (lobj_eqb k (fst e))) t.

Definition tset (k v : lobj) (t : ltable) : ltable :=
  match v with
  | ONil => tdel k t
  | _ => (k, v) :: tdel k t
  end.

Record lstate : Type := mk_lstate {
  l_stack : list lobj;
  l_heap : list ltable;
  l_registry : ltable
}.

Notation "x <- c ;; k" :=
  (match c with Some x => k | None => None end)
  (at level 61, c at next level, right associativity).

Fixpoint list_set {A : Type} (n : nat) (x : A) (l : list A) : list A :=
  match l, n with
  | [], _ => []
  | _ :: l', O => x :: l'
  | y :: l', Datatypes.S n' => y :: list_set n' x l'
  end.

(** The value at an acceptable index: positive from the bottom, negative
    from the top. *)
Definition index2value (L : lstate) (idx : Z) : option lobj :=
  let n := Z.of_nat (length (l_stack L)) in
  if (0 <? idx) && (idx <=? n) then nth_error (l_stack L) (Z.to_nat (idx - 1))
  else if (idx <? 0) && (- n <=? idx) then nth_error (l_stack L) (Z.to_nat (n + idx))
  else None.

Definition push (v : lobj) (L : lstate) : lstate :=
  {| l_stack := l_stack L ++ [v]; l_heap := l_heap L;
     l_registry := l_registry L |}.

Definition pop (L : lstate) : option (lobj * lstate) :=
  match rev (l_stack L) with
  | [] => None
  | v :: r => Some (v, {| l_stack := rev r; l_heap := l_heap L;
                          l_registry := l_registry L |})
  end.

(** [t[k] = v] on the table that [tv] names. *)
Definition heap_set (tv k v : lobj) (L : lstate) : option lstate :=
  match tv with
  | OTable t =>
      tb <- nth_error (l_heap L) t ;;
      Some {| l_stack := l_stack L;
              l_heap := list_set t (tset k v tb) (l_heap L);
              l_registry := l_registry L |}
  | _ => None
  end.

Definition heap_get (tv k : lobj) (L : lstate) : option lobj :=
  match tv with
  | OTable t => tb <- nth_error (l_heap L) t ;; Some (tget k tb)
  | _ => None
  end.

Definition lua_pushvalue (L : lstate) (idx : Z) : option lstate :=
  v <- index2value L idx ;; Some (push v L).

Definition lua_pushstring (L : lstate) (s : string) : option lstate :=
  Some (push (OString s) L).

Definition lua_pushinteger (L : lstate) (n : Z) : option lstate :=
  Some (push (ONumber n) L).

Definition lua_gettable (L : lstate) (idx : Z) : option lstate :=
  tv <- index2value L idx ;;
  p <- pop L ;;
  v <- heap_get tv (fst p) (snd p) ;;
  Some (push v (snd p)).

Definition lua_settable (L : lstate) (idx : Z) : option lstate :=
  tv <- index2value L idx ;;
  pv <- pop L ;;
  pk <- pop (snd pv) ;;
  match fst pk with
  | ONil => None
  | k => heap_set tv k (fst pv) (snd pk)
  end.

Definition lua_getfield (L : lstate) (idx : Z) (k : string) : option lstate :=
  tv <- index2value L idx ;;
  v <- heap_get tv (OString k) L ;;
  Some (push v L).

Definition lua_setfield (L : lstate) (idx : Z) (k : string) : option lstate :=
  tv <- index2value L idx ;;
  pv <- pop L ;;
  heap_set tv (OString k) (fst pv) (snd pv).

Definition luaL_getmetatable (L : lstate) (tname : string) : option lstate :=
  Some (push (tget (OString tname) (l_registry L)) L).

(** [luaL_newmetatable]: whether the metatable was created, and the state
    with the metatable pushed. *)
Definition luaL_newmetatable (L : lstate) (tname : string) : bool * lstate :=
  match tget (OString tname) (l_registry L) with
  | ONil =>
      (true,
       {| l_stack := l_stack L ++ [OTable (length (l_heap L))];
          l_heap := l_heap L ++ [[]];
          l_registry := tset (OString tname) (OTable (length (l_heap L)))
                          (l_registry L) |})
  | v => (false, push v L)
  end.

(** A [luaL_Reg] array up to its sentinel: names and C functions. *)
Definition luaL_Reg : Type := list (string * string).

(** [luaL_setfuncs] with no upvalue: the functions go into the table on
    top of the stack. *)
Fixpoint luaL_setfuncs (L : lstate) (l : luaL_Reg) : option lstate :=
  match l with
  | [] => Some L
  | (name, f) :: rest =>
      tv <- index2value L (-1) ;;
      L1 <- heap_set tv (OString name) (OFunction f) L ;;
      luaL_setfuncs L1 rest
  end.

(** [luaL_newlib]: a new table with the functions, pushed. *)
Definition luaL_newlib (L : lstate) (l : luaL_Reg) : option lstate :=
  luaL_setfuncs
    {| l_stack := l_stack L ++ [OTable (length (l_heap L))];
       l_heap := l_heap L ++ [[]];
       l_registry := l_registry L |} l.

Definition LSL_CLASS : string := "Signal Listener".

Definition lsl_methods : luaL_Reg :=
  [("wait", "lsl_wait"); ("pollfd", "lsl_pollfd");
   ("events", "lsl_events"); ("timeout", "lsl_timeout")]%string.

Definition lsl_metatable : luaL_Reg := [("__gc", "lsl__gc")]%string.

Definition ls_globals : luaL_Reg :=
  [("listen", "lsl_listen"); ("interpose", "lsl_interpose");
   ("ignore", "ls_ignore"); ("default", "ls_default");
   ("block", "ls_block"); ("unblock", "ls_unblock");
   ("raise", "ls_raise"); ("strsignal", "ls_strsignal")]%string.

(** [lsl_interpose]: the state it leaves and the one value it returns,
    the top of the stack. *)
Definition lsl_interpose (L : lstate) : option (lobj * lstate) :=
  L1 <- luaL_getmetatable L LSL_CLASS ;;
  L2 <- lua_getfield L1 (-1) "__index" ;;
  L3 <- lua_pushvalue L2 (-4) ;;
  L4 <- lua_gettable L3 (-2) ;;
  L5 <- lua_pushvalue L4 (-5) ;;
  L6 <- lua_pushvalue L5 (-5) ;;
  L7 <- lua_settable L6 (-4) ;;
  r <- index2value L7 (-1) ;;
  Some (r, L7).

(** The numbers of the signals that the module names, from [<signal.h>]. *)
Variables SIGALRM SIGCHLD SIGHUP SIGINT SIGPIPE SIGQUIT SIGTERM : Z.

Definition siglist : list (string * Z) :=
  [("SIGALRM", SIGALRM); ("SIGCHLD", SIGCHLD); ("SIGHUP", SIGHUP);
   ("SIGINT", SIGINT); ("SIGPIPE", SIGPIPE); ("SIGQUIT", SIGQUIT);
   ("SIGTERM", SIGTERM)]%string.

(** One round of the loop over [siglist]. *)
Definition open_signal (L : lstate) (e : string * Z) : option lstate :=
  L1 <- lua_pushstring L (fst e) ;;
  L2 <- lua_pushinteger L1 (snd e) ;;
  L3 <- lua_settable L2 (-3) ;;
  L4 <- lua_pushinteger L3 (snd e) ;;
  L5 <- lua_pushstring L4 (fst e) ;;
  lua_settable L5 (-3).

Fixpoint open_signals (L : lstate) (l : list (string * Z)) : option lstate :=
  match l with
  | [] => Some L
  | e :: rest => L1 <- open_signal L e ;; open_signals L1 rest
  end.

(** [luaopen__cqueues_signal]: the state it leaves and the one value it
    returns, the top of the stack. *)
Definition luaopen__cqueues_signal (L : lstate) : option (lobj * lstate) :=
  let (created, L1) := luaL_newmetatable L LSL_CLASS in
  L2 <- (if created then
           La <- luaL_setfuncs L1 lsl_metatable ;;
           Lb <- luaL_newlib La lsl_methods ;;
           lua_setfield Lb (-2) "__index"
         else Some L1) ;;
  L3 <- luaL_newlib L2 ls_globals ;;
  L4 <- open_signals L3 siglist ;;
  r <- index2value L4 (-1) ;;
  Some (r, L4).

(** A Lua state in which the listener class is registered: metatable 0,
    whose [__index] is table 1 with the method [wait]. *)
Definition opened_heap : list ltable :=
  [[(OString "__index", OTable 1)]; [(OString "wait", OFunction "lsl_wait")]].

Definition opened_registry : ltable := [(OString LSL_CLASS, OTable 0%nat)].

(** The table [tb] after [luaL_setfuncs] of [l]. *)
Definition reg_entries (l : luaL_Reg) (tb : ltable) : ltable :=
  fold_left (fun t e => tset (OString (fst e)) (OFunction (snd e)) t) l tb.

(** The table [tb] after the loop over the signals [l]. *)
Definition sig_entries (l : list (string * Z)) (tb : ltable) : ltable :=
  fold_left (fun t e => tset (ONumber (snd e)) (OString (fst e))
                          (tset (OString (fst e)) (ONumber (snd e)) t)) l tb.

(** * Properties *)

(** ** Signal sets *)

Lemma sig_valid_iff (signo : Z) :
  sig_valid signo = true <-> 1 <= signo <= nsig.
Proof. unfold sig_valid. rewrite andb_true_iff, !Z.leb_le. tauto. Qed.

Lemma testbit_sigaddset (s : sigset_t) (signo i : Z) :
  Z.testbit (sigaddset s signo) i =
  (sig_valid signo && (i =? signo - 1)) || Z.testbit s i.
Proof.
  unfold sigaddset. destruct (sig_valid signo) eqn:Hv; [|reflexivity].
  apply sig_valid_iff in Hv. rewrite Z.setbit_eqb by lia.
  rewrite (Z.eqb_sym i). reflexivity.
Qed.

Lemma testbit_sigdelset (s : sigset_t) (signo i : Z) :
  Z.testbit (sigdelset s signo) i =
  Z.testbit s i && negb (sig_valid signo && (i =? signo - 1)).
Proof.
  unfold sigdelset. destruct (sig_valid signo) eqn:Hv.
  - rewrite Z.clearbit_eqb, (Z.eqb_sym i). reflexivity.
  - rewrite andb_true_r. reflexivity.
Qed.

Lemma sigismember_1 (s : sigset_t) (signo : Z) :
  sigismember s signo = 1 <->
  sig_valid signo = true /\ Z.testbit s (signo - 1) = true.
Proof.
  unfold sigismember.
  destruct (sig_valid signo); destruct (Z.testbit s (signo - 1)); simpl;
    intuition congruence.
Qed.

Lemma differs_iff (a b : sigset_t) (signo : Z) :
  differs a b signo = true <->
  sig_valid signo = true /\
  Z.testbit a (signo - 1) <> Z.testbit b (signo - 1).
Proof.
  unfold differs, sigismember.
  destruct (sig_valid signo); destruct (Z.testbit a (signo - 1));
    destruct (Z.testbit b (signo - 1)); simpl; intuition congruence.
Qed.

Lemma differs_false_iff (a b : sigset_t) (signo : Z) :
  differs a b signo = false <-> sigismember a signo = sigismember b signo.
Proof.
  unfold differs, sigismember.
  destruct (sig_valid signo); destruct (Z.testbit a (signo - 1));
    destruct (Z.testbit b (signo - 1)); simpl; intuition congruence.
Qed.

(** ** The difference scan *)

Lemma sfd_diff_from_spec (n : nat) (lo : Z) (a b : sigset_t) :
  1 <= lo ->
  (sfd_diff_from n lo a b = 0 /\
   forall t, lo <= t < lo + Z.of_nat n -> differs a b t = false) \/
  (lo <= sfd_diff_from n lo a b < lo + Z.of_nat n /\
   differs a b (sfd_diff_from n lo a b) = true /\
   forall t, lo <= t < sfd_diff_from n lo a b -> differs a b t = false).
Proof.
  revert lo. induction n as [|n IH]; intros lo Hlo.
  - left. split; [reflexivity|]. intros t Ht. lia.
  - cbn [sfd_diff_from]. destruct (differs a b lo) eqn:Hd.
    + right. split; [lia|]. split; [exact Hd|]. intros t Ht. lia.
    + destruct (IH (lo + 1) ltac:(lia)) as [[H0 Hall]|[Hr [Hdr Hall]]].
      * left. split; [exact H0|]. intros t Ht.
        destruct (Z.eq_dec t lo) as [->|Hne]; [exact Hd|]. apply Hall. lia.
      * right. split; [lia|]. split; [exact Hdr|]. intros t Ht.
        destruct (Z.eq_dec t lo) as [->|Hne]; [exact Hd|]. apply Hall. lia.
Qed.

Lemma sfd_diff_cases (a b : sigset_t) :
  (sfd_diff a b = 0 /\ forall t, 1 <= t <= 31 -> differs a b t = false) \/
  (1 <= sfd_diff a b <= 31 /\ differs a b (sfd_diff a b) = true /\
   forall t, 1 <= t < sfd_diff a b -> differs a b t = false).
Proof.
  unfold sfd_diff.
  destruct (sfd_diff_from_spec 31 1 a b ltac:(lia)) as [[H0 Hall]|[Hr [Hd Hall]]].
  - left. split; [exact H0|]. intros t Ht. apply Hall. lia.
  - right. split; [lia|]. split; [exact Hd|exact Hall].
Qed.

Lemma sfd_diff_zero_iff (a b : sigset_t) :
  sfd_diff a b = 0 <-> sig_agree31 a b.
Proof.
  unfold sig_agree31. split.
  - intros H0 signo Hs. apply differs_false_iff.
    destruct (sfd_diff_cases a b) as [[_ Hall]|[Hr _]]; [|lia].
    apply Hall. exact Hs.
  - intros Hall.
    destruct (sfd_diff_cases a b) as [[H0 _]|[Hr [Hd _]]]; [exact H0|].
    rewrite (proj2 (differs_false_iff a b _) (Hall _ Hr)) in Hd. discriminate.
Qed.

(** ** Reconciliation *)

Lemma upd_rel_refl (S : signalfd) : upd_rel S S.
Proof. unfold upd_rel. intuition. Qed.

Lemma upd_rel_trans (S S1 S2 : signalfd) :
  upd_rel S S1 -> upd_rel S1 S2 -> upd_rel S S2.
Proof.
  intros (Hf & Hd & Hp & Hb) (Hf1 & Hd1 & Hp1 & Hb1).
  unfold upd_rel. repeat split; try congruence.
  intros i. destruct (Hb1 i) as [E1|[R1 E1]]; destruct (Hb i) as [E|[R E]].
  - left. congruence.
  - right. split; [exact R|congruence].
  - right. split; [exact R1|congruence].
  - right. split; [exact R|congruence].
Qed.

Lemma kernel_ext_refl (d : Z) (K : kernel) : kernel_ext d K K.
Proof.
  unfold kernel_ext. repeat split; auto.
  exists []. rewrite app_nil_r. split; [reflexivity|constructor].
Qed.

Lemma kernel_ext_trans (d : Z) (K K1 K2 : kernel) :
  kernel_ext d K K1 -> kernel_ext d K1 K2 -> kernel_ext d K K2.
Proof.
  intros (Hr & Ho & Hh & (l & Hl & Hfl) & Hk)
         (Hr1 & Ho1 & Hh1 & (l1 & Hl1 & Hfl1) & Hk1).
  unfold kernel_ext. repeat split; try congruence.
  - exists (l ++ l1). rewrite Hl1, Hl, app_assoc. split; [reflexivity|].
    apply Forall_app. split; assumption.
  - intros x Hx. destruct (Hk1 x Hx) as [Hx1|Hx1]; [|right; exact Hx1].
    apply Hk. exact Hx1.
Qed.

Lemma sys_change_ext (d signo flags : Z) (K : kernel) :
  1 <= signo <= 31 ->
  kernel_ext d K (snd (sys K (SysKeventChange d signo EVFILT_SIGNAL flags))).
Proof.
  intros Hs. unfold kernel_ext, sys. cbn [snd k_reply k_open k_log k_honest
    k_knotes open_after reply_ok knotes_after].
  repeat split.
  - apply andb_true_r.
  - exists [SysKeventChange d signo EVFILT_SIGNAL flags].
    split; [reflexivity|]. constructor; [|constructor].
    exists signo, flags. split; [reflexivity|exact Hs].
  - intros x Hx.
    destruct ((r_ret (next_reply K) =? 0) && (EVFILT_SIGNAL =? EVFILT_SIGNAL));
      [|left; exact Hx].
    destruct (flags =? EV_ADD).
    + destruct Hx as [<-|Hx]; [right; cbn; lia|left; exact Hx].
    + destruct (flags =? EV_DELETE); [|left; exact Hx].
      left. unfold knote_del in Hx. apply filter_In in Hx. tauto.
Qed.

(** Arming a missing signal, or disarming a surplus one, moves [polling]
    towards [desired]. *)
Lemma upd_rel_add (S : signalfd) (signo : Z) :
  1 <= signo <= 31 ->
  Z.testbit (desired S) (signo - 1) = true ->
  upd_rel S {| fd := fd S; desired := desired S;
               polling := sigaddset (polling S) signo;
               pending := pending S |}.
Proof.
  intros Hs Hd. unfold upd_rel. cbn [fd desired polling pending].
  repeat split. intros i. rewrite testbit_sigaddset.
  destruct (sig_valid signo && (i =? signo - 1)) eqn:E; [|left; reflexivity].
  apply andb_true_iff in E. destruct E as [_ E]. apply Z.eqb_eq in E. subst i.
  right. split; [lia|]. rewrite Hd. reflexivity.
Qed.

Lemma upd_rel_del (S : signalfd) (signo : Z) :
  1 <= signo <= 31 ->
  Z.testbit (desired S) (signo - 1) = false ->
  upd_rel S {| fd := fd S; desired := desired S;
               polling := sigdelset (polling S) signo;
               pending := pending S |}.
Proof.
  intros Hs Hd. unfold upd_rel. cbn [fd desired polling pending].
  repeat split. intros i. rewrite testbit_sigdelset.
  destruct (sig_valid signo && (i =? signo - 1)) eqn:E;
    [|left; apply andb_true_r].
  apply andb_true_iff in E. destruct E as [_ E]. apply Z.eqb_eq in E. subst i.
  right. split; [lia|]. rewrite Hd. apply andb_false_r.
Qed.

(** The signal the loop of [sfd_update] picks, and the branch it takes. *)
Lemma sfd_update_pick (S : signalfd) :
  sfd_diff (desired S) (polling S) <> 0 ->
  let signo := sfd_diff (desired S) (polling S) in
  1 <= signo <= 31 /\ sig_valid signo = true /\
  Z.testbit (desired S) (signo - 1) <> Z.testbit (polling S) (signo - 1) /\
  (sigismember (desired S) signo =? 0) =
  negb (Z.testbit (desired S) (signo - 1)) /\
  forall t, 1 <= t < signo -> differs (desired S) (polling S) t = false.
Proof.
  intros Hnz signo.
  destruct (sfd_diff_cases (desired S) (polling S)) as [[H0 _]|[Hr [Hd Hlow]]];
    [contradiction|].
  fold signo in Hr, Hd, Hlow. apply differs_iff in Hd. destruct Hd as [Hv Hd].
  repeat split; try lia; try assumption.
  unfold sigismember. rewrite Hv.
  destruct (Z.testbit (desired S) (signo - 1)); reflexivity.
Qed.

Lemma sfd_update_loop_sound (fuel : nat) :
  forall S K e S1 K1,
    sfd_update_loop fuel S K = Some (e, S1, K1) ->
    upd_rel S S1 /\ kernel_ext (fd S) K K1 /\
    (e = 0 -> sfd_diff (desired S1) (polling S1) = 0).
Proof.
  induction fuel as [|fuel IH]; intros S K e S1 K1 H; [discriminate|].
  cbn [sfd_update_loop] in H.
  destruct (sfd_diff (desired S) (polling S) =? 0) eqn:Hz.
  - injection H as <- <- <-. apply Z.eqb_eq in Hz.
    split; [apply upd_rel_refl|]. split; [apply kernel_ext_refl|]. auto.
  - apply Z.eqb_neq in Hz.
    destruct (sfd_update_pick S Hz) as (Hr & Hv & Hd & Hm & _).
    rewrite Hm, negb_involutive in H.
    destruct (Z.testbit (desired S) (sfd_diff (desired S) (polling S) - 1)) eqn:Hb.
    + pose proof (sys_change_ext (fd S) _ EV_ADD K Hr) as Hext.
      destruct (sys K _) as [r K2]. cbn [snd] in Hext.
      destruct (negb (r_ret r =? 0)).
      * injection H as <- <- <-.
        split; [apply upd_rel_refl|]. split; [exact Hext|].
        intros He. discriminate He.
      * apply IH in H. destruct H as (Hu & Hk & Hz1). cbn [fd] in Hk.
        split; [|split; [|exact Hz1]].
        -- eapply upd_rel_trans; [apply upd_rel_add; [exact Hr|exact Hb]|exact Hu].
        -- eapply kernel_ext_trans; eassumption.
    + pose proof (sys_change_ext (fd S) _ EV_DELETE K Hr) as Hext.
      destruct (sys K _) as [r K2]. cbn [snd] in Hext.
      destruct (negb (r_ret r =? 0)).
      * injection H as <- <- <-.
        split; [apply upd_rel_refl|]. split; [exact Hext|].
        intros He. discriminate He.
      * apply IH in H. destruct H as (Hu & Hk & Hz1). cbn [fd] in Hk.
        split; [|split; [|exact Hz1]].
        -- eapply upd_rel_trans; [apply upd_rel_del; [exact Hr|exact Hb]|exact Hu].
        -- eapply kernel_ext_trans; eassumption.
Qed.

Lemma differs_bits (a b : sigset_t) (t : Z) :
  differs a b t =
  sig_valid t && xorb (Z.testbit a (t - 1)) (Z.testbit b (t - 1)).
Proof.
  unfold differs, sigismember.
  destruct (sig_valid t); destruct (Z.testbit a (t - 1));
    destruct (Z.testbit b (t - 1)); reflexivity.
Qed.

(** After a round on [signo] the two sets agree up to [signo]. *)
Lemma agree_after_add (a b : sigset_t) (signo : Z) :
  Z.testbit a (signo - 1) = true ->
  (forall t, 1 <= t < signo -> differs a b t = false) ->
  forall t, 1 <= t < signo + 1 -> differs a (sigaddset b signo) t = false.
Proof.
  intros Ha Hlow t Ht. rewrite differs_bits, testbit_sigaddset.
  destruct (Z.eq_dec t signo) as [->|Hne].
  - rewrite Ha, Z.eqb_refl, andb_true_r.
    destruct (sig_valid signo); [reflexivity|reflexivity].
  - replace (t - 1 =? signo - 1) with false by (symmetry; apply Z.eqb_neq; lia).
    rewrite andb_false_r, orb_false_l, <- differs_bits. apply Hlow. lia.
Qed.

Lemma agree_after_del (a b : sigset_t) (signo : Z) :
  sig_valid signo = true ->
  Z.testbit a (signo - 1) = false ->
  (forall t, 1 <= t < signo -> differs a b t = false) ->
  forall t, 1 <= t < signo + 1 -> differs a (sigdelset b signo) t = false.
Proof.
  intros Hv Ha Hlow t Ht. rewrite differs_bits, testbit_sigdelset.
  destruct (Z.eq_dec t signo) as [->|Hne].
  - rewrite Ha, Hv, Z.eqb_refl. cbn. rewrite andb_false_r. reflexivity.
  - replace (t - 1 =? signo - 1) with false by (symmetry; apply Z.eqb_neq; lia).
    rewrite andb_false_r. cbn [negb]. rewrite andb_true_r, <- differs_bits.
    apply Hlow. lia.
Qed.

(** The loop of [sfd_update] leaves within [32 - lb] rounds once the sets
    agree below [lb]. *)
Lemma sfd_update_loop_total (fuel : nat) :
  forall S K lb,
    1 <= lb <= 32 ->
    (forall t, 1 <= t < lb -> differs (desired S) (polling S) t = false) ->
    32 - lb < Z.of_nat fuel ->
    sfd_update_loop fuel S K <> None.
Proof.
  induction fuel as [|fuel IH]; intros S K lb Hlb Hlow Hfuel; [lia|].
  cbn [sfd_update_loop].
  destruct (sfd_diff (desired S) (polling S) =? 0) eqn:Hz; [discriminate|].
  apply Z.eqb_neq in Hz.
  destruct (sfd_update_pick S Hz) as (Hr & Hv & Hd & Hm & Hbelow).
  assert (Hge : lb <= sfd_diff (desired S) (polling S)).
  { destruct (Z_lt_le_dec (sfd_diff (desired S) (polling S)) lb) as [Hlt|]; [|assumption].
    specialize (Hlow _ (conj (proj1 Hr) Hlt)).
    rewrite differs_bits, Hv in Hlow. cbn in Hlow.
    destruct (Z.testbit (desired S) _); destruct (Z.testbit (polling S) _);
      cbn in Hlow; congruence. }
  rewrite Hm, negb_involutive.
  destruct (Z.testbit (desired S) (sfd_diff (desired S) (polling S) - 1)) eqn:Hb.
  - destruct (sys K _) as [r K2]. destruct (negb (r_ret r =? 0)); [discriminate|].
    apply (IH _ _ (sfd_diff (desired S) (polling S) + 1)); cbn [desired polling].
    + lia.
    + apply agree_after_add; assumption.
    + lia.
  - destruct (sys K _) as [r K2]. destruct (negb (r_ret r =? 0)); [discriminate|].
    apply (IH _ _ (sfd_diff (desired S) (polling S) + 1)); cbn [desired polling].
    + lia.
    + apply agree_after_del; assumption.
    + lia.
Qed.

(** [sfd_update] always returns. *)
Lemma sfd_update_total (S : signalfd) (K : kernel) :
  exists e S1 K1, sfd_update S K = Some (e, S1, K1).
Proof.
  pose proof (sfd_update_loop_total 32 S K 1 ltac:(lia)) as H.
  unfold sfd_update. destruct (sfd_update_loop 32 S K) as [[[e S1] K1]|].
  - exists e, S1, K1. reflexivity.
  - exfalso. apply H; [intros t Ht; lia|lia|reflexivity].
Qed.

Lemma sfd_update_sound (S : signalfd) (K : kernel) e S1 K1 :
  sfd_update S K = Some (e, S1, K1) ->
  upd_rel S S1 /\ kernel_ext (fd S) K K1 /\
  (e = 0 -> sfd_diff (desired S1) (polling S1) = 0).
Proof. apply sfd_update_loop_sound. Qed.

(** With nothing to reconcile [sfd_update] returns at once. *)
Lemma sfd_update_loop_settled (fuel : nat) (S : signalfd) (K : kernel) :
  sfd_diff (desired S) (polling S) = 0 ->
  sfd_update_loop (Datatypes.S fuel) S K = Some (0, S, K).
Proof. intros H. cbn [sfd_update_loop]. rewrite H. reflexivity. Qed.

Lemma sfd_update_settled (S : signalfd) (K : kernel) :
  sfd_diff (desired S) (polling S) = 0 ->
  sfd_update S K = Some (0, S, K).
Proof. apply (sfd_update_loop_settled 31). Qed.

(** ** Draining *)

(** One round of [sfd_query], by the answer to its poll. *)
Lemma sfd_query_round (fuel : nat) (S : signalfd) (K : kernel) :
  sfd_query (Datatypes.S fuel) S K =
  let r := next_reply K in
  let K1 := snd (sys K (SysKeventPoll (fd S))) in
  if interrupted r then sfd_query fuel S K1
  else if r_ret r =? -1 then Some (errno r, S, K1)
  else sfd_update (observe S r) K1.
Proof.
  cbn [sfd_query]. unfold sys, interrupted, observe. cbn [snd].
  destruct (r_ret (next_reply K) =? 1) eqn:E1.
  - apply Z.eqb_eq in E1. rewrite E1. cbn [Z.eqb andb].
    destruct (r_filter (next_reply K) =? EVFILT_SIGNAL); reflexivity.
  - cbn [andb]. destruct (r_ret (next_reply K) =? -1); cbn [andb]; [|reflexivity].
    destruct (errno (next_reply K) =? EINTR); reflexivity.
Qed.

Lemma poll_honest (d : Z) (K : kernel) :
  k_honest (snd (sys K (SysKeventPoll d))) = true ->
  k_honest K = true /\
  (r_ret (next_reply K) = 1 -> r_filter (next_reply K) = EVFILT_SIGNAL ->
   In (d, r_ident (next_reply K)) (k_knotes K)).
Proof.
  unfold sys. cbn [snd k_honest reply_ok]. intros H.
  apply andb_true_iff in H. destruct H as [Hh Hok]. split; [exact Hh|].
  intros H1 H2. rewrite H1, H2 in Hok. cbn in Hok.
  unfold knote_mem in Hok. apply existsb_exists in Hok.
  destruct Hok as ([d1 i1] & Hin & Heq). unfold knote_eqb in Heq.
  cbn in Heq. apply andb_true_iff in Heq. destruct Heq as [Ed Ei].
  apply Z.eqb_eq in Ed, Ei. subst. exact Hin.
Qed.

Lemma to_int_small (z : Z) : - 2 ^ 31 <= z < 2 ^ 31 -> to_int z = z.
Proof. intros H. unfold to_int. rewrite Z.mod_small; lia. Qed.

(** ** The invariant of reachable listeners *)

Lemma inv_update (S S1 : signalfd) (K K1 : kernel) :
  listener_inv S K -> upd_rel S S1 -> kernel_ext (fd S) K K1 ->
  listener_inv S1 K1.
Proof.
  intros [Hd Hp Hq Hk] (Ef & Ed & Ep & Hb) (_ & _ & _ & _ & Hkn).
  constructor.
  - rewrite Ed. exact Hd.
  - intros i Hi. rewrite Ed. destruct (Hb i) as [E|[R E]].
    + apply Hp. congruence.
    + split; [congruence|exact R].
  - rewrite Ep. exact Hq.
  - intros ident Hin. rewrite Ef in Hin.
    destruct (Hkn _ Hin) as [Hold|[_ Hnew]]; [apply Hk; exact Hold|exact Hnew].
Qed.

Lemma inv_observe (S : signalfd) (K : kernel) :
  listener_inv S K ->
  k_honest (snd (sys K (SysKeventPoll (fd S)))) = true ->
  listener_inv (observe S (next_reply K)) (snd (sys K (SysKeventPoll (fd S)))).
Proof.
  intros [Hd Hp Hq Hk] Hh. apply poll_honest in Hh. destruct Hh as [_ Hreg].
  unfold observe.
  destruct ((r_ret (next_reply K) =? 1) &&
            (r_filter (next_reply K) =? EVFILT_SIGNAL)) eqn:E.
  - apply andb_true_iff in E. destruct E as [E1 E2].
    apply Z.eqb_eq in E1, E2. pose proof (Hk _ (Hreg E1 E2)) as Hid.
    rewrite to_int_small by lia. constructor; cbn [fd desired polling pending].
    + exact Hd.
    + intros i Hi. rewrite testbit_sigdelset in Hi.
      apply andb_true_iff in Hi. apply Hp. tauto.
    + intros i Hi. rewrite testbit_sigaddset in Hi.
      apply orb_true_iff in Hi. destruct Hi as [Hi|Hi]; [|apply Hq; exact Hi].
      apply andb_true_iff in Hi. destruct Hi as [Hv Hi].
      apply sig_valid_iff in Hv. apply Z.eqb_eq in Hi. lia.
    + exact Hk.
  - constructor; assumption.
Qed.

Lemma inv_poll (S : signalfd) (K : kernel) (d : Z) :
  listener_inv S K -> listener_inv S (snd (sys K (SysKeventPoll d))).
Proof. intros [Hd Hp Hq Hk]. constructor; assumption. Qed.

Lemma sfd_query_inv (fuel : nat) :
  forall S K e S1 K1,
    listener_inv S K ->
    sfd_query fuel S K = Some (e, S1, K1) ->
    k_honest K1 = true ->
    listener_inv S1 K1.
Proof.
  induction fuel as [|fuel IH]; intros S K e S1 K1 Hinv H Hh; [discriminate|].
  rewrite sfd_query_round in H. cbv zeta in H.
  assert (Hpoll : forall K2, kernel_ext (fd S) (snd (sys K (SysKeventPoll (fd S)))) K2 ->
                  k_honest K2 = true ->
                  k_honest (snd (sys K (SysKeventPoll (fd S)))) = true).
  { intros K2 (_ & _ & E & _) H2. congruence. }
  destruct (interrupted (next_reply K)).
  - eapply IH; [apply inv_poll; exact Hinv|exact H|exact Hh].
  - destruct (r_ret (next_reply K) =? -1).
    + injection H as <- <- <-. apply inv_poll. exact Hinv.
    + pose proof (sfd_update_sound _ _ _ _ _ H) as (Hu & Hk & _).
      assert (Ef : fd (observe S (next_reply K)) = fd S).
      { unfold observe. destruct (_ && _); reflexivity. }
      rewrite Ef in Hk.
      eapply inv_update; [apply inv_observe; [exact Hinv|]|exact Hu|rewrite Ef; exact Hk].
      eapply Hpoll; eassumption.
Qed.

Lemma sig_wf_empty : sig_wf sigemptyset.
Proof. intros i Hi. unfold sigemptyset in Hi. rewrite Z.bits_0 in Hi. discriminate. Qed.

Lemma sig_wf_add (s : sigset_t) (signo : Z) :
  sig_wf s -> sig_wf (sigaddset s signo).
Proof.
  intros Hs i Hi. rewrite testbit_sigaddset in Hi.
  apply orb_true_iff in Hi. destruct Hi as [Hi|Hi]; [|apply Hs; exact Hi].
  apply andb_true_iff in Hi. destruct Hi as [Hv Hi].
  apply sig_valid_iff in Hv. apply Z.eqb_eq in Hi. lia.
Qed.

Lemma listen_args_spec (args : list lua_value) :
  forall index S S1,
    listen_args args index S = inl S1 ->
    fd S1 = fd S /\ polling S1 = polling S /\ pending S1 = pending S /\
    (sig_wf (desired S) -> sig_wf (desired S1)).
Proof.
  induction args as [|v rest IH]; intros index S S1 H; cbn [listen_args] in H.
  - injection H as <-. auto.
  - destruct (luaL_checkint v) as [signo|]; [|discriminate].
    apply IH in H. cbn [fd desired polling pending] in H.
    destruct H as (Hf & Hp & Hq & Hw). refine (conj Hf (conj Hp (conj Hq _))).
    intros Hd. apply Hw. apply sig_wf_add. exact Hd.
Qed.

(** What a normal return of [lsl_listen] went through. *)
Lemma lsl_listen_returned (args : list lua_value) (K : kernel) u K1 :
  lsl_listen args K = Some (Returned tt, u, K1) ->
  exists S1,
    listen_args args 1 (sfd_preinit (mk_signalfd 0 0 0 0)) = inl S1 /\
    (r_ret (next_reply K) =? -1) = false /\
    sfd_update {| fd := r_ret (next_reply K); desired := desired S1;
                  polling := polling S1; pending := pending S1 |}
               (snd (sys K SysKqueue)) = Some (0, ud_S u, K1) /\
    ud_class u = true.
Proof.
  unfold lsl_listen, sfd_init, sys. cbn [snd].
  destruct (listen_args args 1 _) as [S1|[index S1]]; [|discriminate].
  destruct (r_ret (next_reply K) =? -1) eqn:Hret.
  - cbn [Z.eqb negb errno]. discriminate.
  - cbn [Z.eqb negb].
    destruct (sfd_update _ _) as [[[e S3] K3]|] eqn:Hu; [|discriminate].
    destruct (e =? 0) eqn:He; cbn [negb]; [|discriminate].
    intros H. injection H as <- <-. apply Z.eqb_eq in He. subst e.
    exists S1. repeat split. exact Hu.
Qed.

Lemma lsl_listen_inv (args : list lua_value) (K : kernel) u K1 :
  lsl_listen args K = Some (Returned tt, u, K1) ->
  listener_inv (ud_S u) K1.
Proof.
  intros H. apply lsl_listen_returned in H.
  destruct H as (S1 & Ha & Hret & Hu & _).
  apply listen_args_spec in Ha. cbn [sfd_preinit fd desired polling pending] in Ha.
  destruct Ha as (_ & Hp & Hq & Hw).
  apply sfd_update_sound in Hu. destruct Hu as (Hu & Hk & _).
  eapply inv_update; [|exact Hu|exact Hk].
  constructor; cbn [fd desired polling pending].
  - apply Hw, sig_wf_empty.
  - intros i Hi. rewrite Hp in Hi. unfold sigemptyset in Hi.
    rewrite Z.bits_0 in Hi. discriminate.
  - intros i Hi. rewrite Hq in Hi. unfold sigemptyset in Hi.
    rewrite Z.bits_0 in Hi. discriminate.
  - intros ident Hin. unfold sys in Hin. cbn [snd k_knotes knotes_after] in Hin.
    rewrite Hret in Hin. unfold knote_drop_queue in Hin.
    apply filter_In in Hin. destruct Hin as [_ Hin]. cbn [fst] in Hin.
    rewrite Z.eqb_refl in Hin. discriminate.
Qed.

Lemma lsl_wait_cases (fuel : nat) (S : signalfd) (K : kernel) r S2 K2 :
  lsl_wait fuel S K = Some (r, S2, K2) ->
  exists e S1,
    sfd_query fuel S K = Some (e, S1, K2) /\
    ((e <> 0 /\ r = Raised (ErrorMessage "signal:get" e) /\ S2 = S1) \/
     (e = 0 /\ (r, S2) = consume S1)).
Proof.
  unfold lsl_wait.
  destruct (sfd_query fuel S K) as [[[e S1] K1]|]; [|discriminate].
  intros H. exists e, S1.
  destruct (e =? 0) eqn:He; cbn [negb] in H.
  - apply Z.eqb_eq in He. unfold consume. cbv zeta.
    destruct (negb (sfd_diff (pending S1) sigemptyset =? 0));
      injection H as <- <- <-; auto.
  - apply Z.eqb_neq in He. injection H as <- <- <-. auto.
Qed.

Lemma lsl_wait_inv (fuel : nat) (S : signalfd) (K : kernel) r S2 K2 :
  listener_inv S K ->
  lsl_wait fuel S K = Some (r, S2, K2) ->
  k_honest K2 = true ->
  listener_inv S2 K2.
Proof.
  intros Hinv H Hh. apply lsl_wait_cases in H.
  destruct H as (e & S1 & Hq & Hcase).
  pose proof (sfd_query_inv _ _ _ _ _ _ Hinv Hq Hh) as [Hd Hp Hpe Hk].
  destruct Hcase as [(_ & _ & ->)|(_ & Hc)]; [constructor; assumption|].
  unfold consume in Hc. cbv zeta in Hc.
  destruct (negb (sfd_diff (pending S1) sigemptyset =? 0));
    injection Hc as _ ->; [|constructor; assumption].
  constructor; cbn [fd desired polling pending]; try assumption.
  intros i Hi. rewrite testbit_sigdelset in Hi.
  apply andb_true_iff in Hi. apply Hpe. tauto.
Qed.

Lemma reachable_inv (S : signalfd) (K : kernel) :
  reachable S K -> listener_inv S K /\ k_honest K = true.
Proof.
  induction 1 as [args K0 u K Hl Hh|fuel S K r S1 K1 _ [IH _] Hw Hh].
  - split; [eapply lsl_listen_inv; exact Hl|exact Hh].
  - split; [eapply lsl_wait_inv; eassumption|exact Hh].
Qed.

(** ** Equality of signal sets *)

Lemma inv_subset (S : signalfd) (K : kernel) :
  listener_inv S K -> sig_subset (polling S) (desired S).
Proof.
  intros [_ Hp _ _] signo Hm. apply sigismember_1 in Hm. apply sigismember_1.
  destruct Hm as [Hv Hb]. split; [exact Hv|]. apply Hp. exact Hb.
Qed.

(** Once the scan finds no difference, [polling] is [desired] cut down to
    the signals 1..31. *)
Lemma inv_settled_members (S : signalfd) (K : kernel) :
  listener_inv S K ->
  sfd_diff (desired S) (polling S) = 0 ->
  forall signo, sigismember (polling S) signo = 1 <->
                sigismember (desired S) signo = 1 /\ signo <= 31.
Proof.
  intros Hinv Hz signo. pose proof (inv_subset _ _ Hinv) as Hsub.
  destruct Hinv as [_ Hp _ _]. apply sfd_diff_zero_iff in Hz. split.
  - intros Hm. split; [apply Hsub; exact Hm|].
    apply sigismember_1 in Hm. destruct Hm as [_ Hb].
    apply Hp in Hb. lia.
  - intros [Hm Hle]. rewrite <- Hz; [exact Hm|].
    apply sigismember_1 in Hm. destruct Hm as [Hv _].
    apply sig_valid_iff in Hv. lia.
Qed.

Lemma inv_settled_eq (S : signalfd) (K : kernel) :
  listener_inv S K ->
  sfd_diff (desired S) (polling S) = 0 ->
  sig_upto31 (desired S) ->
  polling S = desired S.
Proof.
  intros Hinv Hz Hup. pose proof (inv_settled_members _ _ Hinv Hz) as Hmem.
  destruct Hinv as [Hd Hp _ _]. apply Z.bits_inj'. intros i Hi.
  destruct (Z.testbit (desired S) i) eqn:Eb.
  - assert (Hm : sigismember (desired S) (i + 1) = 1).
    { apply sigismember_1. split.
      - apply sig_valid_iff. specialize (Hd _ Eb). lia.
      - replace (i + 1 - 1) with i by lia. exact Eb. }
    pose proof (proj2 (Hmem (i + 1)) (conj Hm (Hup _ Hm))) as Hq.
    apply sigismember_1 in Hq. destruct Hq as [_ Hq].
    replace (i + 1 - 1) with i in Hq by lia. exact Hq.
  - destruct (Z.testbit (polling S) i) eqn:Ep; [|reflexivity].
    apply Hp in Ep. destruct Ep as [Ep _]. congruence.
Qed.

Lemma scanned_empty_iff (s : sigset_t) :
  sig_scanned s -> (sfd_diff s sigemptyset = 0 <-> s = sigemptyset).
Proof.
  intros Hs. split.
  - intros Hz. apply sfd_diff_zero_iff in Hz. apply Z.bits_inj'. intros i Hi.
    unfold sigemptyset. rewrite Z.bits_0.
    destruct (Z.testbit s i) eqn:Eb; [|reflexivity].
    destruct (Hs _ Eb) as [Hr Hn].
    assert (Hm : sigismember s (i + 1) = 1).
    { apply sigismember_1. split; [apply sig_valid_iff; lia|].
      replace (i + 1 - 1) with i by lia. exact Eb. }
    rewrite (Hz (i + 1)) in Hm by lia.
    apply sigismember_1 in Hm. destruct Hm as [_ Hm].
    unfold sigemptyset in Hm. rewrite Z.bits_0 in Hm. discriminate.
  - intros ->. apply sfd_diff_zero_iff. intros signo _. reflexivity.
Qed.

Lemma sigaddset_twice (s : sigset_t) (signo : Z) :
  sigaddset (sigaddset s signo) signo = sigaddset s signo.
Proof.
  apply Z.bits_inj'. intros i _. rewrite !testbit_sigaddset.
  destruct (sig_valid signo && (i =? signo - 1)); reflexivity.
Qed.

Lemma listen_args_members (args : list lua_value) :
  forall index S S1,
    listen_args args index S = inl S1 ->
    forall signo,
      sigismember (desired S1) signo = 1 <->
      sigismember (desired S) signo = 1 \/
      (sig_valid signo = true /\ In (Some signo) (map luaL_checkint args)).
Proof.
  induction args as [|v rest IH]; intros index S S1 H signo; cbn [listen_args] in H.
  - injection H as <-. cbn. tauto.
  - destruct (luaL_checkint v) as [n|] eqn:Ev; [|discriminate].
    rewrite (IH _ _ _ H signo). cbn [desired map In]. rewrite Ev.
    rewrite !sigismember_1, testbit_sigaddset, orb_true_iff, andb_true_iff, Z.eqb_eq.
    split.
    + intros [[Hv [[Hn E]|Hb]]|[Hv Hin]]; auto.
      right. split; [exact Hv|]. left. f_equal. lia.
    + intros [[Hv Hb]|[Hv [E|Hin]]]; auto.
      injection E as ->. left. split; [exact Hv|]. left. split; [exact Hv|reflexivity].
Qed.

Lemma observe_fields (S : signalfd) (r : sysreply) :
  fd (observe S r) = fd S /\ desired (observe S r) = desired S.
Proof. unfold observe. destruct (_ && _); split; reflexivity. Qed.

(** [sfd_query] keeps the descriptor and [desired], and returns 0 only
    with nothing left to reconcile. *)
Lemma sfd_query_sound (fuel : nat) :
  forall S K e S1 K1,
    sfd_query fuel S K = Some (e, S1, K1) ->
    fd S1 = fd S /\ desired S1 = desired S /\
    (e = 0 -> sfd_diff (desired S1) (polling S1) = 0).
Proof.
  induction fuel as [|fuel IH]; intros S K e S1 K1 H; [discriminate|].
  rewrite sfd_query_round in H. cbv zeta in H.
  destruct (interrupted (next_reply K)); [apply IH in H; exact H|].
  destruct (r_ret (next_reply K) =? -1).
  - injection H as <- <- <-. repeat split. intros He. discriminate He.
  - apply sfd_update_sound in H. destruct H as ((Hf & Hd & _) & _ & Hz).
    destruct (observe_fields S (next_reply K)) as [Ef Ed].
    repeat split; [congruence|congruence|exact Hz].
Qed.

(** A drain whose poll reports [signo] adds it to [pending]. *)
Lemma sfd_query_delivers (fuel : nat) (S : signalfd) (K : kernel) signo e S1 K1 :
  delivers (next_reply K) signo ->
  sfd_query fuel S K = Some (e, S1, K1) ->
  pending S1 = sigaddset (pending S) signo.
Proof.
  intros (Hret & Hfil & Hid) H. destruct fuel as [|fuel]; [discriminate|].
  rewrite sfd_query_round in H. cbv zeta in H.
  assert (Hi : interrupted (next_reply K) = false)
    by (unfold interrupted; rewrite Hret; reflexivity).
  assert (Hm : (r_ret (next_reply K) =? -1) = false)
    by (rewrite Hret; reflexivity).
  rewrite Hi, Hm in H.
  apply sfd_update_sound in H. destruct H as ((_ & _ & Hp & _) & _).
  rewrite Hp. unfold observe. rewrite Hret, Hfil, Hid. reflexivity.
Qed.

(** ** Interrupted polls *)

Lemma polls_reply (n : nat) (d : Z) :
  forall K, k_reply (polls n d K) = k_reply K.
Proof. induction n as [|n IH]; intros K; [reflexivity|]. cbn [polls]. rewrite IH. reflexivity. Qed.

Lemma polls_log (n : nat) (d : Z) :
  forall K, length (k_log (polls n d K)) = (length (k_log K) + n)%nat.
Proof.
  induction n as [|n IH]; intros K; cbn [polls]; [lia|].
  rewrite IH. unfold sys. cbn [snd k_log]. rewrite length_app. cbn. lia.
Qed.

Lemma polls_next (n : nat) (d : Z) (K : kernel) :
  next_reply (polls n d K) = k_reply K (length (k_log K) + n)%nat.
Proof. unfold next_reply. rewrite polls_reply, polls_log. reflexivity. Qed.

(** [n] interrupted polls cost [n] rounds and change nothing else. *)
Lemma sfd_query_retries (n : nat) :
  forall fuel S K,
    (forall i, (i < n)%nat ->
               interrupted (k_reply K (length (k_log K) + i)%nat) = true) ->
    sfd_query (n + fuel) S K = sfd_query fuel S (polls n (fd S) K).
Proof.
  induction n as [|n IH]; intros fuel S K Hint; [reflexivity|].
  change (Datatypes.S n + fuel)%nat with (Datatypes.S (n + fuel)).
  rewrite sfd_query_round. cbv zeta.
  assert (H0 : interrupted (next_reply K) = true).
  { unfold next_reply. rewrite <- (Nat.add_0_r (length (k_log K))).
    apply Hint. lia. }
  rewrite H0. cbn [polls]. apply IH. intros i Hi.
  unfold sys. cbn [snd k_reply k_log]. rewrite length_app. cbn [length].
  replace (length (k_log K) + 1 + i)%nat with (length (k_log K) + Datatypes.S i)%nat by lia.
  apply Hint. lia.
Qed.

(** ** Failure of the construction *)

Lemma lsl_listen_raised (args : list lua_value) (K : kernel) who e u K1 :
  lsl_listen args K = Some (Raised (ErrorMessage who e), u, K1) ->
  exists S1,
    listen_args args 1 (sfd_preinit (mk_signalfd 0 0 0 0)) = inl S1 /\
    ud_class u = true /\ e <> 0 /\
    ((r_ret (next_reply K) = -1 /\ e = errno (next_reply K) /\
      fd (ud_S u) = -1 /\ K1 = snd (sys K SysKqueue)) \/
     (r_ret (next_reply K) <> -1 /\
      sfd_update {| fd := r_ret (next_reply K); desired := desired S1;
                    polling := polling S1; pending := pending S1 |}
                 (snd (sys K SysKqueue)) = Some (e, ud_S u, K1))).
Proof.
  unfold lsl_listen, sfd_init, sys. cbn [snd].
  destruct (listen_args args 1 _) as [S1|[index S1]]; [|discriminate].
  destruct (r_ret (next_reply K) =? -1) eqn:Hret.
  - apply Z.eqb_eq in Hret. unfold errno at 1. cbn [Z.eqb negb].
    intros H. injection H as <- <- <- <-. exists S1.
    split; [reflexivity|]. split; [reflexivity|]. split; [discriminate|].
    left. cbn [ud_S fd]. auto.
  - apply Z.eqb_neq in Hret. cbn [Z.eqb negb].
    destruct (sfd_update _ _) as [[[e3 S3] K3]|] eqn:Hu; [|discriminate].
    destruct (e3 =? 0) eqn:He; cbn [negb]; [discriminate|].
    apply Z.eqb_neq in He.
    intros H. injection H as <- <- <- <-. exists S1.
    split; [reflexivity|]. split; [reflexivity|]. split; [exact He|].
    right. split; [exact Hret|exact Hu].
Qed.

(** ** Pending signals in order *)

Lemma differs_empty (s : sigset_t) (t : Z) :
  differs s sigemptyset t = (sigismember s t =? 1).
Proof.
  unfold differs, sigismember, sigemptyset. rewrite Z.bits_0.
  destruct (sig_valid t); destruct (Z.testbit s (t - 1)); reflexivity.
Qed.

Lemma sfd_diff_from_hd (s : sigset_t) (n : nat) :
  forall lo, 1 <= lo ->
    sfd_diff_from n lo s sigemptyset = hd 0 (sig_elements_from n lo s).
Proof.
  induction n as [|n IH]; intros lo Hlo; [reflexivity|].
  cbn [sfd_diff_from sig_elements_from]. rewrite differs_empty.
  destruct (sigismember s lo =? 1); [reflexivity|].
  rewrite IH by lia. reflexivity.
Qed.

Lemma sfd_diff_elements (s : sigset_t) :
  sfd_diff s sigemptyset = hd 0 (sig_elements s).
Proof. apply (sfd_diff_from_hd s 31 1). lia. Qed.

Lemma sig_elements_from_spec (s : sigset_t) (n : nat) :
  forall lo t,
    In t (sig_elements_from n lo s) <->
    lo <= t < lo + Z.of_nat n /\ sigismember s t = 1.
Proof.
  induction n as [|n IH]; intros lo t; cbn [sig_elements_from].
  - cbn [In]. lia.
  - rewrite in_app_iff, IH.
    destruct (sigismember s lo =? 1) eqn:Em; cbn [In].
    + apply Z.eqb_eq in Em. split.
      * intros [[<-|[]]|[Hr Hm]]; split; try assumption; lia.
      * intros [Hr Hm]. destruct (Z.eq_dec lo t) as [E|Hne]; [left; left; exact E|].
        right. split; [lia|exact Hm].
    + apply Z.eqb_neq in Em. split.
      * intros [[]|[Hr Hm]]. split; [lia|exact Hm].
      * intros [Hr Hm]. right. split; [|exact Hm].
        destruct (Z.eq_dec lo t) as [E|Hne]; [subst; contradiction|lia].
Qed.

Lemma sig_elements_spec (s : sigset_t) (signo : Z) :
  In signo (sig_elements s) <-> 1 <= signo <= 31 /\ sigismember s signo = 1.
Proof.
  unfold sig_elements. rewrite sig_elements_from_spec.
  change (Z.of_nat 31) with 31. intuition lia.
Qed.

Lemma sig_elements_from_sorted (s : sigset_t) (n : nat) :
  forall lo, StronglySorted Z.lt (sig_elements_from n lo s).
Proof.
  induction n as [|n IH]; intros lo; cbn [sig_elements_from]; [constructor|].
  destruct (sigismember s lo =? 1); cbn [app]; [|apply IH].
  constructor; [apply IH|]. apply Forall_forall. intros t Ht.
  apply sig_elements_from_spec in Ht. lia.
Qed.

Lemma sig_elements_sorted (s : sigset_t) :
  StronglySorted Z.lt (sig_elements s).
Proof. apply sig_elements_from_sorted. Qed.

Lemma sigismember_del (s : sigset_t) (m t : Z) :
  sig_valid m = true ->
  sigismember (sigdelset s m) t =
  if t =? m then 0 else sigismember s t.
Proof.
  intros Hv. unfold sigismember. rewrite testbit_sigdelset, Hv.
  destruct (Z.eq_dec t m) as [->|Hne].
  - rewrite !Z.eqb_refl, Hv. cbn [andb negb]. rewrite andb_false_r. reflexivity.
  - replace (t - 1 =? m - 1) with false by (symmetry; apply Z.eqb_neq; lia).
    replace (t =? m) with false by (symmetry; apply Z.eqb_neq; lia).
    cbn [andb negb]. rewrite andb_true_r. reflexivity.
Qed.

Lemma sig_elements_from_above (s : sigset_t) (m : Z) (n : nat) :
  sig_valid m = true ->
  forall lo, m < lo ->
    sig_elements_from n lo (sigdelset s m) = sig_elements_from n lo s.
Proof.
  intros Hv. induction n as [|n IH]; intros lo Hlo; [reflexivity|].
  cbn [sig_elements_from]. rewrite IH by lia. rewrite sigismember_del by exact Hv.
  replace (lo =? m) with false by (symmetry; apply Z.eqb_neq; lia). reflexivity.
Qed.

Lemma sig_elements_from_del (s : sigset_t) (m : Z) (rest : list Z) (n : nat) :
  sig_valid m = true ->
  forall lo,
    sig_elements_from n lo s = m :: rest ->
    sig_elements_from n lo (sigdelset s m) = rest.
Proof.
  intros Hv. induction n as [|n IH]; intros lo H; [discriminate|].
  cbn [sig_elements_from] in *. rewrite sigismember_del by exact Hv.
  destruct (sigismember s lo =? 1) eqn:Em; cbn [app] in H.
  - injection H as -> <-. rewrite Z.eqb_refl. cbn [Z.eqb app].
    apply sig_elements_from_above; [exact Hv|lia].
  - destruct (lo =? m); cbn [Z.eqb app]; [apply IH; exact H|].
    rewrite Em. cbn [app]. apply IH. exact H.
Qed.

(** Taking the first pending signal out leaves the others. *)
Lemma sig_elements_del (s : sigset_t) (m : Z) (rest : list Z) :
  sig_elements s = m :: rest -> sig_elements (sigdelset s m) = rest.
Proof.
  intros H. assert (Hm : In m (sig_elements s)) by (rewrite H; left; reflexivity).
  apply sig_elements_spec in Hm. destruct Hm as [_ Hm].
  apply sigismember_1 in Hm. destruct Hm as [Hv _].
  apply sig_elements_from_del; assumption.
Qed.

(** ** A kernel with nothing to report *)

Lemma quiet_next (K : kernel) : quiet K -> r_ret (next_reply K) = 0.
Proof. intros H. apply H. lia. Qed.

Lemma quiet_sys (K : kernel) (c : syscall) :
  quiet K -> quiet (snd (sys K c)).
Proof.
  intros H n Hn. unfold sys in *. cbn [snd k_reply k_log] in *.
  rewrite length_app in Hn. cbn [length] in Hn. apply H. lia.
Qed.

Lemma sfd_update_loop_quiet (fuel : nat) :
  forall S K e S1 K1,
    quiet K -> sfd_update_loop fuel S K = Some (e, S1, K1) ->
    e = 0 /\ quiet K1.
Proof.
  induction fuel as [|fuel IH]; intros S K e S1 K1 Hq H; [discriminate|].
  cbn [sfd_update_loop] in H.
  destruct (sfd_diff (desired S) (polling S) =? 0).
  - injection H as <- <- <-. auto.
  - destruct (negb (sigismember (desired S) _ =? 0)).
    + pose proof (quiet_sys K (SysKeventChange (fd S) (sfd_diff (desired S) (polling S))
                                 EVFILT_SIGNAL EV_ADD) Hq) as Hq1.
      destruct (sys K _) as [r K2] eqn:Es. cbn [snd] in Hq1.
      assert (Hr : r_ret r = 0).
      { unfold sys in Es. injection Es as <- _. apply quiet_next. exact Hq. }
      rewrite Hr in H. cbn [Z.eqb negb] in H. eapply IH; eassumption.
    + pose proof (quiet_sys K (SysKeventChange (fd S) (sfd_diff (desired S) (polling S))
                                 EVFILT_SIGNAL EV_DELETE) Hq) as Hq1.
      destruct (sys K _) as [r K2] eqn:Es. cbn [snd] in Hq1.
      assert (Hr : r_ret r = 0).
      { unfold sys in Es. injection Es as <- _. apply quiet_next. exact Hq. }
      rewrite Hr in H. cbn [Z.eqb negb] in H. eapply IH; eassumption.
Qed.

Lemma sfd_update_quiet (S : signalfd) (K : kernel) e S1 K1 :
  quiet K -> sfd_update S K = Some (e, S1, K1) -> e = 0 /\ quiet K1.
Proof. apply sfd_update_loop_quiet. Qed.

Lemma sfd_query_quiet (fuel : nat) (S : signalfd) (K : kernel) :
  quiet K ->
  exists S1 K1,
    sfd_query (Datatypes.S fuel) S K = Some (0, S1, K1) /\
    pending S1 = pending S /\ quiet K1 /\ k_honest K1 = k_honest K.
Proof.
  intros Hq. pose proof (quiet_next K Hq) as Hr.
  rewrite sfd_query_round. cbv zeta.
  assert (Hi : interrupted (next_reply K) = false)
    by (unfold interrupted; rewrite Hr; reflexivity).
  assert (Hm : (r_ret (next_reply K) =? -1) = false) by (rewrite Hr; reflexivity).
  assert (Ho : observe S (next_reply K) = S)
    by (unfold observe; rewrite Hr; reflexivity).
  rewrite Hi, Hm, Ho.
  destruct (sfd_update_total S (snd (sys K (SysKeventPoll (fd S)))))
    as (e & S1 & K1 & Hu).
  pose proof (sfd_update_quiet _ _ _ _ _
                (quiet_sys K (SysKeventPoll (fd S)) Hq) Hu) as [-> Hq1].
  pose proof (sfd_update_sound _ _ _ _ _ Hu) as ((_ & _ & Hp & _) & (_ & _ & Hh & _) & _).
  exists S1, K1. rewrite Hu. repeat split; try assumption.
  rewrite Hh. unfold sys. cbn [snd k_honest reply_ok]. rewrite Hr.
  cbn [Z.eqb andb]. apply andb_true_r.
Qed.

Lemma lsl_wait_of_query (fuel : nat) (S : signalfd) (K : kernel) S1 K1 :
  sfd_query fuel S K = Some (0, S1, K1) ->
  lsl_wait fuel S K = Some (fst (consume S1), snd (consume S1), K1).
Proof.
  intros H. unfold lsl_wait, consume. rewrite H. cbn [Z.eqb negb]. cbv zeta.
  destruct (negb (sfd_diff (pending S1) sigemptyset =? 0)); reflexivity.
Qed.

(** On a quiet kernel [lsl_wait] hands out the first pending signal. *)
Lemma lsl_wait_quiet (fuel : nat) (S : signalfd) (K : kernel) :
  reachable S K -> quiet K ->
  exists S1 K1,
    lsl_wait (Datatypes.S fuel) S K =
      Some (Returned (match sig_elements (pending S) with
                      | [] => None
                      | m :: _ => Some m
                      end), S1, K1) /\
    reachable S1 K1 /\ quiet K1 /\
    sig_elements (pending S1) = tl (sig_elements (pending S)).
Proof.
  intros Hr Hq.
  destruct (sfd_query_quiet fuel S K Hq) as (S1 & K1 & Hs & Hp & Hq1 & Hh).
  pose proof (lsl_wait_of_query _ _ _ _ _ Hs) as Hw.
  assert (Hh1 : k_honest K1 = true).
  { rewrite Hh. apply reachable_inv in Hr. tauto. }
  pose proof (reach_wait _ _ _ _ _ _ Hr Hw Hh1) as Hr1.
  exists (snd (consume S1)), K1. split; [|split; [exact Hr1|split; [exact Hq1|]]].
  - rewrite Hw. f_equal. f_equal. f_equal. unfold consume. cbv zeta.
    rewrite sfd_diff_elements, Hp.
    destruct (sig_elements (pending S)) as [|m rest] eqn:El; [reflexivity|].
    assert (Hm : In m (sig_elements (pending S))) by (rewrite El; left; reflexivity).
    apply sig_elements_spec in Hm. cbn [hd].
    replace (m =? 0) with false by (symmetry; apply Z.eqb_neq; lia). reflexivity.
  - unfold consume. cbv zeta. rewrite sfd_diff_elements, Hp.
    destruct (sig_elements (pending S)) as [|m rest] eqn:El.
    + cbn [hd Z.eqb negb snd tl]. rewrite Hp. exact El.
    + assert (Hm : In m (sig_elements (pending S))) by (rewrite El; left; reflexivity).
      apply sig_elements_spec in Hm. cbn [hd].
      replace (m =? 0) with false by (symmetry; apply Z.eqb_neq; lia).
      cbn [negb snd pending tl]. apply sig_elements_del. exact El.
Qed.

(** [lsl_wait], after the drain, takes the lowest pending signal out, or
    finds nothing pending. *)
Lemma consume_spec (S1 : signalfd) :
  sig_scanned (pending S1) ->
  match fst (consume S1) with
  | Returned None => snd (consume S1) = S1 /\ pending S1 = sigemptyset
  | Returned (Some m) =>
      sigismember (pending S1) m = 1 /\
      (forall t, sigismember (pending S1) t = 1 -> m <= t) /\
      pending (snd (consume S1)) = sigdelset (pending S1) m
  | Raised _ => False
  end.
Proof.
  intros Hs. unfold consume. cbv zeta.
  destruct (sfd_diff_cases (pending S1) sigemptyset) as [[H0 _]|[Hr [Hd Hlow]]].
  - rewrite H0. cbn [Z.eqb negb fst snd]. split; [reflexivity|].
    apply (scanned_empty_iff _ Hs). exact H0.
  - replace (sfd_diff (pending S1) sigemptyset =? 0) with false
      by (symmetry; apply Z.eqb_neq; lia).
    cbn [negb fst snd pending]. rewrite differs_empty in Hd.
    apply Z.eqb_eq in Hd. split; [exact Hd|]. split; [|reflexivity].
    intros t Ht.
    destruct (Z_lt_le_dec t (sfd_diff (pending S1) sigemptyset)) as [Hlt|Hle];
      [|exact Hle].
    assert (H1 : 1 <= t).
    { apply sigismember_1 in Ht. destruct Ht as [Hv _].
      apply sig_valid_iff in Hv. lia. }
    specialize (Hlow t (conj H1 Hlt)). rewrite differs_empty, Ht in Hlow.
    discriminate.
Qed.

Lemma lsl_wait_seq_quiet (fuel : nat) (l : list Z) :
  forall k S K,
    reachable S K -> quiet K -> sig_elements (pending S) = l ->
    exists S1 K1,
      lsl_wait_seq (length l + k) (Datatypes.S fuel) S K =
        Some (map (fun signo => Returned (Some signo)) l ++
              repeat (Returned None) k, S1, K1) /\
      reachable S1 K1 /\ sig_elements (pending S1) = [].
Proof.
  induction l as [|m rest IH].
  - induction k as [|k IHk]; intros S K Hr Hq El.
    + exists S, K. cbn. auto.
    + destruct (lsl_wait_quiet fuel S K Hr Hq) as (S1 & K1 & Hw & Hr1 & Hq1 & Et).
      rewrite El in Hw, Et. cbn [tl] in Et.
      destruct (IHk S1 K1 Hr1 Hq1 Et) as (S2 & K2 & Hs & Hr2 & E2).
      exists S2, K2. cbn [length Nat.add lsl_wait_seq] in *.
      rewrite Hw, Hs. auto.
  - intros k S K Hr Hq El.
    destruct (lsl_wait_quiet fuel S K Hr Hq) as (S1 & K1 & Hw & Hr1 & Hq1 & Et).
    rewrite El in Hw, Et. cbn [tl] in Et.
    destruct (IH k S1 K1 Hr1 Hq1 Et) as (S2 & K2 & Hs & Hr2 & E2).
    exists S2, K2. cbn [length Nat.add lsl_wait_seq map app].
    rewrite Hw, Hs. auto.
Qed.

(** ** Auxiliary facts for concrete runs *)

Lemma small_upto31 (s : sigset_t) : 0 <= s < 2 ^ 31 -> sig_upto31 s.
Proof.
  intros Hs signo Hm. apply sigismember_1 in Hm. destruct Hm as [_ Hb].
  destruct (Z_le_gt_dec signo 31) as [Hle|Hgt]; [exact Hle|].
  rewrite <- (Z.mod_small s (2 ^ 31)) in Hb by exact Hs.
  rewrite Z.mod_pow2_bits_high in Hb by lia. discriminate.
Qed.

(** [lsl_listen] always comes to an end. *)
Lemma lsl_listen_total (args : list lua_value) (K : kernel) :
  exists res, lsl_listen args K = Some res.
Proof.
  unfold lsl_listen.
  destruct (listen_args args 1 _) as [S1|[index S1]]; [|eexists; reflexivity].
  destruct (sfd_init S1 K) as [[e S2] K2].
  destruct (negb (e =? 0)); [eexists; reflexivity|].
  destruct (sfd_update_total S2 K2) as (e3 & S3 & K3 & Hu). rewrite Hu.
  destruct (negb (e3 =? 0)); eexists; reflexivity.
Qed.

(** ** Claims *)

(** C3 (amended): [sfd_diff a b] is 0 exactly when [a] and [b] have the
    same members among the signals 1..31; otherwise it is the
    lowest-numbered signal of 1..31 whose membership differs between [a]
    and [b].  Signals above 31 are not looked at. *)
Theorem sfd_diff_lowest_scanned (a b : sigset_t) :
  (sfd_diff a b = 0 <-> sig_agree31 a b) /\
  (sfd_diff a b = 0 \/
   (1 <= sfd_diff a b <= 31 /\
    sigismember a (sfd_diff a b) <> sigismember b (sfd_diff a b) /\
    forall t, 1 <= t < sfd_diff a b -> sigismember a t = sigismember b t)).
Proof.
  split; [apply sfd_diff_zero_iff|].
  destruct (sfd_diff_cases a b) as [[H0 _]|[Hr [Hd Hlow]]]; [left; exact H0|].
  right. split; [exact Hr|]. split.
  - intros Heq. apply differs_false_iff in Heq. congruence.
  - intros t Ht. apply differs_false_iff. apply Hlow. exact Ht.
Qed.

(** C7: after a successful [sfd_update] the scan of [desired] against
    [polling] finds nothing, so a second [sfd_update] returns 0 at once:
    listener and kernel, and with the kernel the log of system calls, are
    left as they were. *)
Theorem sfd_update_idempotent (S : signalfd) (K : kernel) S1 K1 :
  sfd_update S K = Some (0, S1, K1) ->
  sfd_diff (desired S1) (polling S1) = 0 /\
  sfd_update S1 K1 = Some (0, S1, K1) /\
  forall e S2 K2, sfd_update S1 K1 = Some (e, S2, K2) -> k_log K2 = k_log K1.
Proof.
  intros H. apply sfd_update_sound in H. destruct H as (_ & _ & Hz).
  specialize (Hz eq_refl). split; [exact Hz|].
  rewrite (sfd_update_settled _ K1 Hz). split; [reflexivity|].
  intros e S2 K2 Heq. injection Heq as _ _ <-. reflexivity.
Qed.

(** C1 (amended): when [lsl_listen] returns normally, [desired] holds the
    valid signal numbers among the arguments, and [polling] holds those of
    them that are at most 31; so [polling] equals [desired] whenever
    [desired] has no signal above 31. *)
Theorem lsl_listen_arms_desired (args : list lua_value) (K : kernel) u K1 :
  lsl_listen args K = Some (Returned tt, u, K1) ->
  (forall signo, sigismember (desired (ud_S u)) signo = 1 <->
                 sig_valid signo = true /\
                 In (Some signo) (map luaL_checkint args)) /\
  (forall signo, sigismember (polling (ud_S u)) signo = 1 <->
                 sigismember (desired (ud_S u)) signo = 1 /\ signo <= 31) /\
  (sig_upto31 (desired (ud_S u)) -> polling (ud_S u) = desired (ud_S u)).
Proof.
  intros H. pose proof (lsl_listen_inv _ _ _ _ H) as Hinv.
  apply lsl_listen_returned in H. destruct H as (S1 & Ha & _ & Hu & _).
  apply sfd_update_sound in Hu. destruct Hu as ((_ & Hd & _) & _ & Hz).
  specialize (Hz eq_refl). split; [|split].
  - intros signo. rewrite Hd. cbn [desired].
    rewrite (listen_args_members _ _ _ _ Ha signo). cbn [sfd_preinit desired].
    unfold sigismember, sigemptyset. rewrite Z.bits_0.
    destruct (sig_valid signo); cbn; intuition congruence.
  - apply (inv_settled_members _ _ Hinv Hz).
  - apply (inv_settled_eq _ _ Hinv Hz).
Qed.

(** C5: when two drains in a row each take in a delivery of the same
    signal, the first adds the signal to [pending] and the second leaves
    [pending] as it is: one pending occurrence, not two. *)
Theorem sfd_query_coalesces (fuel : nat) (S : signalfd) (K : kernel)
    signo e1 S1 K1 e2 S2 K2 :
  delivers (next_reply K) signo ->
  sfd_query fuel S K = Some (e1, S1, K1) ->
  delivers (next_reply K1) signo ->
  sfd_query fuel S1 K1 = Some (e2, S2, K2) ->
  pending S1 = sigaddset (pending S) signo /\ pending S2 = pending S1.
Proof.
  intros Hd1 H1 Hd2 H2.
  pose proof (sfd_query_delivers _ _ _ _ _ _ _ Hd1 H1) as E1.
  pose proof (sfd_query_delivers _ _ _ _ _ _ _ Hd2 H2) as E2.
  split; [exact E1|]. rewrite E2, E1. apply sigaddset_twice.
Qed.

(** C6 (amended): in every reachable listener [polling] is a subset of
    [desired]; and every [sfd_update] that returns 0 leaves [polling] and
    [desired] with the same members among the signals 1..31. *)
Theorem polling_subset_and_settled :
  (forall S K, reachable S K -> sig_subset (polling S) (desired S)) /\
  (forall S K S1 K1, sfd_update S K = Some (0, S1, K1) ->
                     sig_agree31 (polling S1) (desired S1)).
Proof.
  split.
  - intros S K Hr. apply reachable_inv in Hr. destruct Hr as [Hinv _].
    eapply inv_subset. exact Hinv.
  - intros S K S1 K1 H. apply sfd_update_sound in H.
    destruct H as (_ & _ & Hz). specialize (Hz eq_refl).
    apply sfd_diff_zero_iff in Hz. intros signo Hs. symmetry. apply Hz. exact Hs.
Qed.

(** C8: right after a drain of a reachable listener, [lsl_timeout] gives
    the number 0 exactly when [pending] is not empty and nil exactly when
    [pending] is empty. *)
Theorem lsl_timeout_after_drain (fuel : nat) (S : signalfd) (K : kernel)
    e S1 K1 :
  reachable S K ->
  sfd_query fuel S K = Some (e, S1, K1) ->
  k_honest K1 = true ->
  (lsl_timeout S1 = Lnumber 0 <-> pending S1 <> sigemptyset) /\
  (lsl_timeout S1 = Lnil <-> pending S1 = sigemptyset).
Proof.
  intros Hr Hq Hh. apply reachable_inv in Hr. destruct Hr as [Hinv _].
  pose proof (sfd_query_inv _ _ _ _ _ _ Hinv Hq Hh) as [_ _ Hpe _].
  pose proof (scanned_empty_iff _ Hpe) as Hiff. unfold lsl_timeout.
  destruct (sfd_diff (pending S1) sigemptyset =? 0) eqn:Ez; cbn [negb].
  - apply Z.eqb_eq in Ez. apply Hiff in Ez. split; split; intros H;
      try discriminate; try reflexivity; try assumption. contradiction.
  - apply Z.eqb_neq in Ez. split; split; intros H;
      try discriminate; try reflexivity; try tauto.
Qed.

(** C10 (amended): every drain that returns 0, whatever its poll reported,
    leaves [polling] and [desired] with the same members among the signals
    1..31; on a reachable listener whose [desired] has no signal above 31
    it leaves [polling] equal to [desired]. *)
Theorem sfd_query_settles (fuel : nat) (S : signalfd) (K : kernel) S1 K1 :
  sfd_query fuel S K = Some (0, S1, K1) ->
  sig_agree31 (polling S1) (desired S1) /\
  (reachable S K -> k_honest K1 = true -> sig_upto31 (desired S1) ->
   polling S1 = desired S1).
Proof.
  intros H. pose proof (sfd_query_sound _ _ _ _ _ _ H) as (_ & _ & Hz).
  specialize (Hz eq_refl). split.
  - apply sfd_diff_zero_iff in Hz. intros signo Hs. symmetry. apply Hz. exact Hs.
  - intros Hr Hh Hup. apply reachable_inv in Hr. destruct Hr as [Hinv _].
    pose proof (sfd_query_inv _ _ _ _ _ _ Hinv H Hh) as Hinv1.
    apply (inv_settled_eq _ _ Hinv1 Hz Hup).
Qed.

(** C9: when the first [n] polls of a drain are interrupted and the next
    one is not, the drain goes on as if that answer had come first, and it
    returns.  If that answer is a failure the drain returns its error
    number, which is not EINTR, with the listener untouched; otherwise it
    goes on to reconcile. *)
Theorem sfd_query_interrupted_retried (n fuel : nat) (S : signalfd) (K : kernel) :
  (forall i, (i < n)%nat ->
             interrupted (k_reply K (length (k_log K) + i)%nat) = true) ->
  interrupted (k_reply K (length (k_log K) + n)%nat) = false ->
  let K1 := polls n (fd S) K in
  let r := next_reply K1 in
  let K2 := snd (sys K1 (SysKeventPoll (fd S))) in
  sfd_query (n + Datatypes.S fuel) S K =
    (if r_ret r =? -1 then Some (errno r, S, K2)
     else sfd_update (observe S r) K2) /\
  (r_ret r = -1 -> errno r <> EINTR) /\
  sfd_query (n + Datatypes.S fuel) S K <> None.
Proof.
  intros Hint Hlast K1 r K2.
  assert (Hr : interrupted r = false).
  { unfold r, K1. rewrite polls_next. exact Hlast. }
  assert (Heq : sfd_query (n + Datatypes.S fuel) S K =
                (if r_ret r =? -1 then Some (errno r, S, K2)
                 else sfd_update (observe S r) K2)).
  { rewrite (sfd_query_retries n _ S K Hint). fold K1.
    rewrite sfd_query_round. cbv zeta. fold r. rewrite Hr. reflexivity. }
  split; [exact Heq|]. split.
  - intros Hret He. unfold interrupted in Hr. rewrite Hret, He in Hr. discriminate.
  - rewrite Heq. destruct (r_ret r =? -1); [discriminate|].
    destruct (sfd_update_total (observe S r) K2) as (e & S1 & K3 & Hu).
    rewrite Hu. discriminate.
Qed.

(** C2 (amended): when [lsl_listen] fails at [sfd_init] or [sfd_update] it
    raises without closing anything: up to the error it has only called
    [kqueue] and armed or disarmed signals.  The userdata it leaves behind
    carries the listener metatable, and the [__gc] finaliser, when Lua
    runs it, closes the descriptor and empties the three sets. *)
Theorem lsl_listen_failure_left_to_gc (args : list lua_value) (K : kernel)
    who e u K1 :
  lsl_listen args K = Some (Raised (ErrorMessage who e), u, K1) ->
  ud_class u = true /\
  (exists l, k_log K1 = k_log K ++ SysKqueue :: l /\
             Forall (is_change (fd (ud_S u))) l) /\
  (k_open K1 = k_open K \/ k_open K1 = fd (ud_S u) :: k_open K) /\
  ud_S (fst (lsl__gc u K1)) = sfd_preinit (ud_S u) /\
  k_log (snd (lsl__gc u K1)) = k_log K1 ++ [SysClose (fd (ud_S u))] /\
  ~ In (fd (ud_S u)) (k_open (snd (lsl__gc u K1))).
Proof.
  intros H. apply lsl_listen_raised in H.
  destruct H as (S1 & _ & Hc & _ & Hcase). split; [exact Hc|].
  split; [|split; [|split; [reflexivity|split; [reflexivity|]]]].
  - destruct Hcase as [(Hret & _ & _ & ->)|(Hret & Hu)].
    + exists []. split; [reflexivity|constructor].
    + apply sfd_update_sound in Hu.
      destruct Hu as ((Hf & _) & (_ & _ & _ & (l & Hl & Hfl) & _) & _).
      cbn [fd] in Hf, Hfl. exists l. rewrite Hl, Hf. unfold sys. cbn [snd k_log].
      rewrite <- app_assoc. split; [reflexivity|exact Hfl].
  - destruct Hcase as [(Hret & _ & _ & ->)|(Hret & Hu)].
    + left. unfold sys. cbn [snd k_open open_after]. rewrite Hret. reflexivity.
    + right. apply sfd_update_sound in Hu.
      destruct Hu as ((Hf & _) & (_ & Ho & _) & _). cbn [fd] in Hf.
      rewrite Ho, Hf. unfold sys. cbn [snd k_open open_after].
      apply Z.eqb_neq in Hret. rewrite Hret. reflexivity.
  - unfold lsl__gc, sfd_destroy, sys. cbn [snd k_open open_after].
    unfold fd_close. intros Hin. apply filter_In in Hin. destruct Hin as [_ Hin].
    rewrite Z.eqb_refl in Hin. discriminate.
Qed.

(** C4: a [lsl_wait] on a reachable listener that returns normally has,
    after its drain, taken the lowest-numbered pending signal out of
    [pending] and returned it, or found [pending] empty and returned
    nothing.  With no new delivery and no failing call, successive
    [lsl_wait] therefore return the pending signals one by one from the
    lowest number up and from then on nothing, with [pending] empty. *)
Theorem lsl_wait_drains_in_order (fuel k : nat) (S : signalfd) (K : kernel) :
  reachable S K ->
  (forall n r S2 K2,
     lsl_wait n S K = Some (Returned r, S2, K2) -> k_honest K2 = true ->
     exists S1,
       sfd_query n S K = Some (0, S1, K2) /\
       match r with
       | None => S2 = S1 /\ pending S1 = sigemptyset
       | Some m =>
           sigismember (pending S1) m = 1 /\
           (forall t, sigismember (pending S1) t = 1 -> m <= t) /\
           pending S2 = sigdelset (pending S1) m
       end) /\
  (quiet K ->
   StronglySorted Z.lt (sig_elements (pending S)) /\
   (forall signo, In signo (sig_elements (pending S)) <->
                  sigismember (pending S) signo = 1) /\
   exists S1 K1,
     lsl_wait_seq (length (sig_elements (pending S)) + k) (Datatypes.S fuel) S K =
       Some (map (fun signo => Returned (Some signo)) (sig_elements (pending S)) ++
             repeat (Returned None) k, S1, K1) /\
     pending S1 = sigemptyset).
Proof.
  intros Hr. split.
  - intros n r S2 K2 Hw Hh. apply lsl_wait_cases in Hw.
    destruct Hw as (e & S1 & Hq & [(_ & Hrs & _)|(-> & Hc)]); [discriminate|].
    exists S1. split; [exact Hq|].
    pose proof (proj1 (reachable_inv _ _ Hr)) as Hinv.
    pose proof (sfd_query_inv _ _ _ _ _ _ Hinv Hq Hh) as [_ _ Hpe _].
    pose proof (consume_spec S1 Hpe) as Hspec.
    destruct (consume S1) as [r1 S3]. injection Hc as <- <-.
    cbn [fst snd] in Hspec. destruct r as [m|]; [exact Hspec|].
    destruct Hspec as [-> Hp]. split; [reflexivity|exact Hp].
  - intros Hq. split; [apply sig_elements_sorted|]. split.
    + intros signo. rewrite sig_elements_spec. split; [tauto|].
      intros Hm. split; [|exact Hm].
      apply reachable_inv in Hr. destruct Hr as [[_ _ Hpe _] _].
      apply sigismember_1 in Hm. destruct Hm as [Hv Hb].
      apply sig_valid_iff in Hv. apply Hpe in Hb. lia.
    + destruct (lsl_wait_seq_quiet fuel _ k S K Hr Hq eq_refl)
        as (S1 & K1 & Hs & Hr1 & E1).
      exists S1, K1. split; [exact Hs|].
      apply reachable_inv in Hr1. destruct Hr1 as [[_ _ Hpe _] _].
      apply (scanned_empty_iff _ Hpe). rewrite sfd_diff_elements, E1. reflexivity.
Qed.

(** ** Further properties *)

(** *** The calls of a reconciliation *)

Lemma sfd_diff_from_diffs (a b : sigset_t) (n : nat) :
  forall lo, 1 <= lo ->
    sfd_diff_from n lo a b = hd 0 (sig_diffs_from n lo a b).
Proof.
  induction n as [|n IH]; intros lo Hlo; [reflexivity|].
  cbn [sfd_diff_from sig_diffs_from].
  destruct (differs a b lo); [reflexivity|]. rewrite IH by lia. reflexivity.
Qed.

Lemma sfd_diff_diffs (a b : sigset_t) :
  sfd_diff a b = hd 0 (sig_diffs a b).
Proof. apply (sfd_diff_from_diffs a b 31 1). lia. Qed.

Lemma sig_diffs_from_spec (a b : sigset_t) (n : nat) :
  forall lo t,
    In t (sig_diffs_from n lo a b) <->
    lo <= t < lo + Z.of_nat n /\ differs a b t = true.
Proof.
  induction n as [|n IH]; intros lo t; cbn [sig_diffs_from].
  - cbn [In]. lia.
  - rewrite in_app_iff, IH. destruct (differs a b lo) eqn:Ed; cbn [In].
    + split.
      * intros [[<-|[]]|[Hr Hm]]; split; try assumption; lia.
      * intros [Hr Hm]. destruct (Z.eq_dec lo t) as [E|Hne]; [left; left; exact E|].
        right. split; [lia|exact Hm].
    + split.
      * intros [[]|[Hr Hm]]. split; [lia|exact Hm].
      * intros [Hr Hm]. right. split; [|exact Hm].
        destruct (Z.eq_dec lo t) as [E|Hne]; [subst; congruence|lia].
Qed.

Lemma sig_diffs_spec (a b : sigset_t) (t : Z) :
  In t (sig_diffs a b) <-> 1 <= t <= 31 /\ differs a b t = true.
Proof.
  unfold sig_diffs. rewrite sig_diffs_from_spec.
  change (Z.of_nat 31) with 31. intuition lia.
Qed.

Lemma sig_diffs_from_sorted (a b : sigset_t) (n : nat) :
  forall lo, StronglySorted Z.lt (sig_diffs_from n lo a b).
Proof.
  induction n as [|n IH]; intros lo; cbn [sig_diffs_from]; [constructor|].
  destruct (differs a b lo); cbn [app]; [|apply IH].
  constructor; [apply IH|]. apply Forall_forall. intros t Ht.
  apply sig_diffs_from_spec in Ht. lia.
Qed.

Lemma sig_diffs_from_ext (a b b1 : sigset_t) (n : nat) :
  forall lo,
    (forall t, lo <= t -> differs a b1 t = differs a b t) ->
    sig_diffs_from n lo a b1 = sig_diffs_from n lo a b.
Proof.
  induction n as [|n IH]; intros lo Hext; [reflexivity|].
  cbn [sig_diffs_from]. rewrite Hext by lia. f_equal.
  apply IH. intros t Ht. apply Hext. lia.
Qed.

(** Settling the first difference leaves the others. *)
Lemma sig_diffs_from_settle (a b b1 : sigset_t) (m : Z) (rest : list Z)
    (n : nat) :
  (forall t, t <> m -> differs a b1 t = differs a b t) ->
  differs a b1 m = false ->
  forall lo,
    sig_diffs_from n lo a b = m :: rest ->
    sig_diffs_from n lo a b1 = rest.
Proof.
  intros Hext Hm. induction n as [|n IH]; intros lo H; [discriminate|].
  cbn [sig_diffs_from] in *. destruct (differs a b lo) eqn:Ed; cbn [app] in H.
  - injection H as -> <-. rewrite Hm. cbn [app].
    apply sig_diffs_from_ext. intros t Ht. apply Hext. lia.
  - assert (Hne : lo <> m).
    { intros ->. assert (Hin : In m (sig_diffs_from n (m + 1) a b))
        by (rewrite H; left; reflexivity).
      apply sig_diffs_from_spec in Hin. lia. }
    rewrite (Hext lo Hne), Ed. cbn [app]. apply IH. exact H.
Qed.

Lemma differs_after_add (a b : sigset_t) (m : Z) :
  Z.testbit a (m - 1) = true ->
  (forall t, t <> m -> differs a (sigaddset b m) t = differs a b t) /\
  differs a (sigaddset b m) m = false.
Proof.
  intros Ha. split.
  - intros t Hne. rewrite !differs_bits, testbit_sigaddset.
    replace (t - 1 =? m - 1) with false by (symmetry; apply Z.eqb_neq; lia).
    rewrite andb_false_r. reflexivity.
  - rewrite differs_bits, testbit_sigaddset, Ha, Z.eqb_refl, andb_true_r.
    destruct (sig_valid m); reflexivity.
Qed.

Lemma differs_after_del (a b : sigset_t) (m : Z) :
  sig_valid m = true ->
  Z.testbit a (m - 1) = false ->
  (forall t, t <> m -> differs a (sigdelset b m) t = differs a b t) /\
  differs a (sigdelset b m) m = false.
Proof.
  intros Hv Ha. split.
  - intros t Hne. rewrite !differs_bits, testbit_sigdelset.
    replace (t - 1 =? m - 1) with false by (symmetry; apply Z.eqb_neq; lia).
    rewrite andb_false_r. cbn [negb]. rewrite andb_true_r. reflexivity.
  - rewrite differs_bits, testbit_sigdelset, Ha, Hv, Z.eqb_refl.
    cbn [andb negb]. rewrite andb_false_r. reflexivity.
Qed.

Lemma sig_diffs_hd (a b : sigset_t) :
  (sfd_diff a b = 0 /\ sig_diffs a b = []) \/
  (exists rest, sfd_diff a b <> 0 /\ sig_diffs a b = sfd_diff a b :: rest).
Proof.
  rewrite sfd_diff_diffs. destruct (sig_diffs a b) as [|m rest] eqn:E.
  - left. split; reflexivity.
  - right. exists rest. split; [|reflexivity]. cbn [hd].
    assert (Hin : In m (sig_diffs a b)) by (rewrite E; left; reflexivity).
    apply sig_diffs_spec in Hin. lia.
Qed.

Lemma change_call_add (S : signalfd) (m : Z) :
  sig_valid m = true -> Z.testbit (desired S) (m - 1) = true ->
  change_call S m = SysKeventChange (fd S) m EVFILT_SIGNAL EV_ADD.
Proof.
  intros Hv Hb. unfold change_call, sigismember. rewrite Hv, Hb. reflexivity.
Qed.

Lemma change_call_del (S : signalfd) (m : Z) :
  sig_valid m = true -> Z.testbit (desired S) (m - 1) = false ->
  change_call S m = SysKeventChange (fd S) m EVFILT_SIGNAL EV_DELETE.
Proof.
  intros Hv Hb. unfold change_call, sigismember. rewrite Hv, Hb. reflexivity.
Qed.

Lemma update_trace_stop (S : signalfd) (K : kernel) (m : Z) (rest : list Z)
    (c : syscall) :
  sig_diffs (desired S) (polling S) = m :: rest ->
  c = change_call S m ->
  r_ret (next_reply K) <> 0 ->
  update_trace S K (errno (next_reply K)) S (snd (sys K c)) [].
Proof.
  intros Hd -> Hret. unfold update_trace. split; [reflexivity|].
  split; [intros i Hi; cbn in Hi; lia|]. right. split; [discriminate|].
  exists m, rest. cbn [length app map]. rewrite Nat.add_0_r.
  repeat split; assumption.
Qed.

Lemma update_trace_step (S S1 S2 : signalfd) (K K2 : kernel) (e m : Z)
    (rest done : list Z) (c : syscall) :
  sig_diffs (desired S) (polling S) = m :: rest ->
  c = change_call S m ->
  r_ret (next_reply K) = 0 ->
  fd S1 = fd S -> desired S1 = desired S ->
  sig_diffs (desired S1) (polling S1) = rest ->
  update_trace S1 (snd (sys K c)) e S2 K2 done ->
  update_trace S K e S2 K2 (m :: done).
Proof.
  intros Hd -> Hret Hf Hde Hrest (Hsplit & Hok & Hend).
  assert (Hcall : forall l, map (change_call S1) l = map (change_call S) l).
  { intros l. apply map_ext. intros t. unfold change_call. rewrite Hf, Hde.
    reflexivity. }
  assert (Hlen : forall n, (length (k_log (snd (sys K (change_call S m)))) + n
                            = length (k_log K) + Datatypes.S n)%nat).
  { intros n. unfold sys. cbn [snd k_log]. rewrite length_app. cbn [length]. lia. }
  unfold update_trace. split; [|split].
  - rewrite Hd, <- Hrest, Hsplit. reflexivity.
  - intros [|i] Hi.
    + rewrite Nat.add_0_r. exact Hret.
    + rewrite <- Hlen. apply Hok. cbn [length] in Hi. lia.
  - destruct Hend as [(He & Hnil & Hlog)|(He & m1 & rest1 & Hd1 & Hlog & Hr & Herr)].
    + left. split; [exact He|]. split; [exact Hnil|].
      rewrite Hlog, Hcall. unfold sys. cbn [snd k_log map].
      rewrite <- app_assoc. reflexivity.
    + right. split; [exact He|]. exists m1, rest1. split; [exact Hd1|].
      cbn [length]. rewrite <- Hlen. split; [|split; [exact Hr|exact Herr]].
      rewrite Hlog, Hcall. unfold sys. cbn [snd k_log map app].
      rewrite <- app_assoc. reflexivity.
Qed.

Lemma sfd_update_loop_trace (fuel : nat) :
  forall S K e S1 K1,
    sfd_update_loop fuel S K = Some (e, S1, K1) ->
    exists done, update_trace S K e S1 K1 done.
Proof.
  induction fuel as [|fuel IH]; intros S K e S1 K1 H; [discriminate|].
  cbn [sfd_update_loop] in H.
  destruct (sig_diffs_hd (desired S) (polling S)) as [[Hz Hnil]|(rest & Hnz & Hd)].
  - rewrite Hz in H. cbn [Z.eqb] in H. injection H as <- <- <-.
    exists []. unfold update_trace. rewrite Hnil, app_nil_r. cbn [app map].
    split; [reflexivity|]. split; [intros i Hi; cbn in Hi; lia|].
    left. rewrite app_nil_r. auto.
  - replace (sfd_diff (desired S) (polling S) =? 0) with false in H
      by (symmetry; apply Z.eqb_neq; exact Hnz).
    destruct (sfd_update_pick S Hnz) as (Hr & Hv & Hne & Hm & _).
    rewrite Hm, negb_involutive in H.
    destruct (Z.testbit (desired S) (sfd_diff (desired S) (polling S) - 1)) eqn:Hb.
    + rewrite <- (change_call_add S _ Hv Hb) in H.
      destruct (sys K _) as [r K2] eqn:Es.
      assert (Er : r = next_reply K) by (unfold sys in Es; congruence).
      assert (EK : K2 = snd (sys K (change_call S (sfd_diff (desired S) (polling S)))))
        by (rewrite Es; reflexivity).
      subst r K2. destruct (r_ret (next_reply K) =? 0) eqn:Eret; cbn [negb] in H.
      * apply Z.eqb_eq in Eret. apply IH in H. destruct H as (done & Ht).
        exists (sfd_diff (desired S) (polling S) :: done).
        eapply update_trace_step; try eassumption; try reflexivity.
        cbn [desired polling].
        destruct (differs_after_add (desired S) (polling S) _ Hb) as [Hext Hsame].
        apply (sig_diffs_from_settle _ _ _ _ _ 31 Hext Hsame 1 Hd).
      * apply Z.eqb_neq in Eret. injection H as <- <- <-. exists [].
        eapply update_trace_stop; [exact Hd|reflexivity|exact Eret].
    + rewrite <- (change_call_del S _ Hv Hb) in H.
      destruct (sys K _) as [r K2] eqn:Es.
      assert (Er : r = next_reply K) by (unfold sys in Es; congruence).
      assert (EK : K2 = snd (sys K (change_call S (sfd_diff (desired S) (polling S)))))
        by (rewrite Es; reflexivity).
      subst r K2. destruct (r_ret (next_reply K) =? 0) eqn:Eret; cbn [negb] in H.
      * apply Z.eqb_eq in Eret. apply IH in H. destruct H as (done & Ht).
        exists (sfd_diff (desired S) (polling S) :: done).
        eapply update_trace_step; try eassumption; try reflexivity.
        cbn [desired polling].
        destruct (differs_after_del (desired S) (polling S) _ Hv Hb) as [Hext Hsame].
        apply (sig_diffs_from_settle _ _ _ _ _ 31 Hext Hsame 1 Hd).
      * apply Z.eqb_neq in Eret. injection H as <- <- <-. exists [].
        eapply update_trace_stop; [exact Hd|reflexivity|exact Eret].
Qed.

Lemma sfd_update_trace (S : signalfd) (K : kernel) e S1 K1 :
  sfd_update S K = Some (e, S1, K1) ->
  exists done, update_trace S K e S1 K1 done.
Proof. apply sfd_update_loop_trace. Qed.

(** X1: a [sfd_update] that returns 0 has made exactly one [kevent] call
    for each signal of 1..31 whose membership differed between [desired]
    and [polling], in increasing order of signal number: EV_ADD for a
    signal in [desired], EV_DELETE for one that is not. *)
Theorem sfd_update_calls (S : signalfd) (K : kernel) S1 K1 :
  sfd_update S K = Some (0, S1, K1) ->
  k_log K1 = k_log K ++ map (change_call S) (sig_diffs (desired S) (polling S)) /\
  StronglySorted Z.lt (sig_diffs (desired S) (polling S)) /\
  (forall t, In t (sig_diffs (desired S) (polling S)) <->
             1 <= t <= 31 /\
             sigismember (desired S) t <> sigismember (polling S) t).
Proof.
  intros H. apply sfd_update_trace in H. destruct H as (done & Hsplit & _ & Hend).
  split; [|split].
  - destruct Hend as [(_ & Hnil & Hlog)|(He & _)]; [|contradiction].
    rewrite Hsplit, Hnil, app_nil_r. exact Hlog.
  - apply sig_diffs_from_sorted.
  - intros t. rewrite sig_diffs_spec. split; intros [Hr Hd]; (split; [exact Hr|]).
    + intros Heq. apply differs_false_iff in Heq. congruence.
    + destruct (differs (desired S) (polling S) t) eqn:E; [reflexivity|].
      apply differs_false_iff in E. contradiction.
Qed.

(** X2: a [sfd_update] that returns an error stopped at the first [kevent]
    call that failed and returns the error number of that call.  The
    differences before it were settled by calls that succeeded and stay
    settled; the signal of the failed call is still the first difference
    between [desired] and [polling], followed by the ones not tried. *)
Theorem sfd_update_stops_at_failure (S : signalfd) (K : kernel) e S1 K1 :
  sfd_update S K = Some (e, S1, K1) ->
  e <> 0 ->
  exists done m rest,
    sig_diffs (desired S) (polling S) = done ++ m :: rest /\
    sig_diffs (desired S1) (polling S1) = m :: rest /\
    sfd_diff (desired S1) (polling S1) = m /\
    k_log K1 = k_log K ++ map (change_call S) (done ++ [m]) /\
    (forall i, (i < length done)%nat ->
               r_ret (k_reply K (length (k_log K) + i)%nat) = 0) /\
    r_ret (k_reply K (length (k_log K) + length done)%nat) <> 0 /\
    e = errno (k_reply K (length (k_log K) + length done)%nat).
Proof.
  intros H He. apply sfd_update_trace in H.
  destruct H as (done & Hsplit & Hok & Hend).
  destruct Hend as [(He0 & _)|(_ & m & rest & Hd1 & Hlog & Hr & Herr)];
    [contradiction|].
  exists done, m, rest. rewrite Hsplit, Hd1.
  split; [reflexivity|]. split; [reflexivity|]. split.
  - rewrite sfd_diff_diffs, Hd1. reflexivity.
  - repeat split; assumption.
Qed.

(** *** The calls of a drain *)

Lemma polls_log_eq (n : nat) (d : Z) :
  forall K, k_log (polls n d K) = k_log K ++ repeat (SysKeventPoll d) n.
Proof.
  induction n as [|n IH]; intros K; cbn [polls repeat].
  - rewrite app_nil_r. reflexivity.
  - rewrite IH. unfold sys. cbn [snd k_log]. rewrite <- app_assoc. reflexivity.
Qed.

Lemma polls_open (n : nat) (d : Z) :
  forall K, k_open (polls n d K) = k_open K /\ k_knotes (polls n d K) = k_knotes K.
Proof.
  induction n as [|n IH]; intros K; cbn [polls]; [split; reflexivity|].
  destruct (IH (snd (sys K (SysKeventPoll d)))) as [Ho Hk].
  rewrite Ho, Hk. split; reflexivity.
Qed.

(** Every drain that returns has polled some [n] times in vain, then once
    more, and has either failed on that answer or gone on to reconcile. *)
Lemma sfd_query_shape (fuel : nat) :
  forall S K e S1 K1,
    sfd_query fuel S K = Some (e, S1, K1) ->
    exists n,
      (forall i, (i < n)%nat ->
                 interrupted (k_reply K (length (k_log K) + i)%nat) = true) /\
      interrupted (next_reply (polls n (fd S) K)) = false /\
      ((r_ret (next_reply (polls n (fd S) K)) = -1 /\
        e = errno (next_reply (polls n (fd S) K)) /\
        S1 = S /\ K1 = polls (Datatypes.S n) (fd S) K) \/
       (r_ret (next_reply (polls n (fd S) K)) <> -1 /\
        sfd_update (observe S (next_reply (polls n (fd S) K)))
                   (polls (Datatypes.S n) (fd S) K) = Some (e, S1, K1))).
Proof.
  induction fuel as [|fuel IH]; intros S K e S1 K1 H; [discriminate|].
  rewrite sfd_query_round in H. cbv zeta in H.
  destruct (interrupted (next_reply K)) eqn:Ei.
  - apply IH in H. destruct H as (n & Hint & Hlast & Hcase).
    exists (Datatypes.S n). split; [|split; [exact Hlast|exact Hcase]].
    intros [|i] Hi.
    + rewrite Nat.add_0_r. exact Ei.
    + specialize (Hint i ltac:(lia)). unfold sys in Hint.
      cbn [snd k_reply k_log] in Hint. rewrite length_app in Hint.
      cbn [length] in Hint.
      replace (length (k_log K) + Datatypes.S i)%nat
        with (length (k_log K) + 1 + i)%nat by lia. exact Hint.
  - exists 0%nat. split; [intros i Hi; lia|]. split; [exact Ei|].
    cbn [polls]. destruct (r_ret (next_reply K) =? -1) eqn:Er.
    + apply Z.eqb_eq in Er. injection H as <- <- <-. left. auto.
    + apply Z.eqb_neq in Er. right. auto.
Qed.


Lemma observe_polling_sub (S : signalfd) (r : sysreply) (i : Z) :
  Z.testbit (polling (observe S r)) i = true -> Z.testbit (polling S) i = true.
Proof.
  unfold observe. destruct (_ && _); cbn [polling]; [|auto].
  rewrite testbit_sigdelset. intros H. apply andb_true_iff in H. tauto.
Qed.

(** With [polling] inside [desired] every difference is a signal to arm. *)
Lemma diffs_to_arm (S : signalfd) (t : Z) :
  (forall i, Z.testbit (polling S) i = true -> Z.testbit (desired S) i = true) ->
  In t (sig_diffs (desired S) (polling S)) ->
  1 <= t <= 31 /\ sigismember (desired S) t = 1 /\
  change_call S t = SysKeventChange (fd S) t EVFILT_SIGNAL EV_ADD.
Proof.
  intros Hsub Hin. apply sig_diffs_spec in Hin. destruct Hin as [Hr Hd].
  apply differs_iff in Hd. destruct Hd as [Hv Hne].
  assert (Hb : Z.testbit (desired S) (t - 1) = true).
  { destruct (Z.testbit (desired S) (t - 1)) eqn:Eb; [reflexivity|].
    destruct (Z.testbit (polling S) (t - 1)) eqn:Ep; [|congruence].
    apply Hsub in Ep. congruence. }
  split; [exact Hr|]. split; [apply sigismember_1; auto|].
  apply change_call_add; assumption.
Qed.

(** X3: a [lsl_wait] on a reachable listener polls its queue at least once
    and then only arms signals of [desired]: it never disarms a signal,
    and it opens and closes nothing. *)
Theorem lsl_wait_only_polls_and_arms (n : nat) (S : signalfd) (K : kernel)
    r S2 K2 :
  reachable S K ->
  lsl_wait n S K = Some (r, S2, K2) ->
  exists m armed,
    k_log K2 = k_log K ++ repeat (SysKeventPoll (fd S)) (Datatypes.S m) ++
               map (fun t => SysKeventChange (fd S) t EVFILT_SIGNAL EV_ADD) armed /\
    (forall t, In t armed -> 1 <= t <= 31 /\ sigismember (desired S) t = 1) /\
    k_open K2 = k_open K.
Proof.
  intros Hr Hw. apply reachable_inv in Hr. destruct Hr as [[_ Hp _ _] _].
  apply lsl_wait_cases in Hw. destruct Hw as (e & S1 & Hq & _).
  apply sfd_query_shape in Hq. destruct Hq as (m & _ & _ & Hcase).
  exists m.
  destruct Hcase as [(_ & _ & _ & ->)|(_ & Hu)].
  - exists []. rewrite polls_log_eq, app_nil_r.
    split; [reflexivity|]. split; [intros t []|apply polls_open].
  - pose proof (sfd_update_sound _ _ _ _ _ Hu) as (_ & (_ & Ho & _) & _).
    apply sfd_update_trace in Hu. destruct Hu as (done & Hsplit & _ & Hend).
    remember (observe S (next_reply (polls m (fd S) K))) as S0 eqn:ES0.
    assert (Ef : fd S0 = fd S /\ desired S0 = desired S)
      by (subst S0; apply observe_fields).
    destruct Ef as [Ef Ed].
    assert (Harm : forall t,
               In t (sig_diffs (desired S0) (polling S0)) ->
               1 <= t <= 31 /\ sigismember (desired S) t = 1 /\
               change_call S0 t = SysKeventChange (fd S) t EVFILT_SIGNAL EV_ADD).
    { intros t Ht. rewrite <- Ef, <- Ed. apply diffs_to_arm; [|exact Ht].
      intros i Hi. rewrite Ed. apply Hp. subst S0.
      eapply observe_polling_sub. exact Hi. }
    assert (Hmap : forall l,
               (forall t, In t l -> In t (sig_diffs (desired S0) (polling S0))) ->
               map (change_call S0) l =
               map (fun t => SysKeventChange (fd S) t EVFILT_SIGNAL EV_ADD) l).
    { intros l Hl. apply map_ext_in. intros t Ht. apply Harm, Hl, Ht. }
    rewrite Ho.
    destruct Hend as [(_ & Hnil & Hlog)|(_ & m1 & rest & Hd1 & Hlog & _)].
    + assert (Hin : forall t, In t done ->
                              In t (sig_diffs (desired S0) (polling S0))).
      { intros t Ht. rewrite Hsplit. apply in_or_app. left. exact Ht. }
      exists done. split; [|split; [|apply polls_open]].
      * rewrite Hlog, polls_log_eq, <- app_assoc, (Hmap _ Hin). reflexivity.
      * intros t Ht. destruct (Harm t (Hin t Ht)) as (H1 & H2 & _). auto.
    + assert (Hin : forall t, In t (done ++ [m1]) ->
                              In t (sig_diffs (desired S0) (polling S0))).
      { intros t Ht. rewrite Hsplit, Hd1. apply in_app_iff in Ht.
        apply in_or_app. destruct Ht as [Ht|[<-|[]]]; [left; exact Ht|].
        right. left. reflexivity. }
      exists (done ++ [m1]). split; [|split; [|apply polls_open]].
      * rewrite Hlog, polls_log_eq, <- app_assoc, (Hmap _ Hin). reflexivity.
      * intros t Ht. destruct (Harm t (Hin t Ht)) as (H1 & H2 & _). auto.
Qed.

(** *** Re-arming after a delivery *)

Lemma sfd_update_loop_arm_one (fuel : nat) (S : signalfd) (K : kernel) (m : Z) :
  sfd_diff (desired S) (polling S) = m -> m <> 0 ->
  Z.testbit (desired S) (m - 1) = true ->
  r_ret (next_reply K) = 0 ->
  sfd_diff (desired S) (sigaddset (polling S) m) = 0 ->
  sfd_update_loop (Datatypes.S (Datatypes.S fuel)) S K =
  Some (0, {| fd := fd S; desired := desired S;
              polling := sigaddset (polling S) m; pending := pending S |},
        snd (sys K (SysKeventChange (fd S) m EVFILT_SIGNAL EV_ADD))).
Proof.
  intros Hm Hnz Hb Hret Hz.
  change (sfd_update_loop (Datatypes.S (Datatypes.S fuel)) S K) with
    (let signo := sfd_diff (desired S) (polling S) in
     if signo =? 0 then Some (0, S, K)
     else if negb (sigismember (desired S) signo =? 0) then
       let (r, K1) := sys K (SysKeventChange (fd S) signo EVFILT_SIGNAL EV_ADD) in
       if negb (r_ret r =? 0) then Some (errno r, S, K1)
       else sfd_update_loop (Datatypes.S fuel)
              {| fd := fd S; desired := desired S;
                 polling := sigaddset (polling S) signo;
                 pending := pending S |} K1
     else
       let (r, K1) := sys K (SysKeventChange (fd S) signo EVFILT_SIGNAL EV_DELETE) in
       if negb (r_ret r =? 0) then Some (errno r, S, K1)
       else sfd_update_loop (Datatypes.S fuel)
              {| fd := fd S; desired := desired S;
                 polling := sigdelset (polling S) signo;
                 pending := pending S |} K1).
  cbv zeta. rewrite Hm.
  assert (Hpick := sfd_update_pick S). rewrite Hm in Hpick.
  destruct (Hpick Hnz) as (_ & _ & _ & Hmem & _). cbv zeta in Hmem.
  replace (m =? 0) with false by (symmetry; apply Z.eqb_neq; exact Hnz).
  rewrite Hmem, Hb. cbn [negb]. unfold sys at 1. cbv zeta. rewrite Hret.
  cbn [Z.eqb negb]. apply sfd_update_loop_settled. exact Hz.
Qed.

Lemma sigaddset_restores (s : sigset_t) (m : Z) :
  Z.testbit s (m - 1) = true -> sigaddset (sigdelset s m) m = s.
Proof.
  intros Hb. apply Z.bits_inj'. intros i _.
  rewrite testbit_sigaddset, testbit_sigdelset.
  destruct (sig_valid m && (i =? m - 1)) eqn:E; cbn [negb orb].
  - apply andb_true_iff in E. destruct E as [_ E]. apply Z.eqb_eq in E.
    subst i. rewrite Hb. reflexivity.
  - rewrite andb_true_r. reflexivity.
Qed.

Lemma sfd_diff_after_delivery (a b : sigset_t) (m : Z) :
  sfd_diff a b = 0 -> 1 <= m <= 31 -> sigismember b m = 1 ->
  sfd_diff a (sigdelset b m) = m /\ Z.testbit a (m - 1) = true.
Proof.
  intros Hz Hr Hm. apply sigismember_1 in Hm. destruct Hm as [Hv Hb].
  assert (Hall : forall t, 1 <= t <= 31 -> differs a b t = false).
  { intros t Ht. apply differs_false_iff. apply sfd_diff_zero_iff in Hz.
    apply Hz. exact Ht. }
  assert (Ha : Z.testbit a (m - 1) = true).
  { specialize (Hall m Hr). rewrite differs_bits, Hv, Hb in Hall.
    destruct (Z.testbit a (m - 1)); [reflexivity|discriminate]. }
  split; [|exact Ha].
  assert (Hdm : differs a (sigdelset b m) m = true).
  { rewrite differs_bits, testbit_sigdelset, Hv, Ha, Hb, Z.eqb_refl. reflexivity. }
  destruct (sfd_diff_cases a (sigdelset b m)) as [[_ Hnone]|[Hrr [Hd Hlow]]].
  - rewrite (Hnone m Hr) in Hdm. discriminate.
  - destruct (Z.eq_dec (sfd_diff a (sigdelset b m)) m) as [E|Hne]; [exact E|].
    rewrite differs_bits, testbit_sigdelset in Hd.
    replace (sfd_diff a (sigdelset b m) - 1 =? m - 1) with false in Hd
      by (symmetry; apply Z.eqb_neq; lia).
    rewrite andb_false_r in Hd. cbn [negb] in Hd.
    rewrite andb_true_r, <- differs_bits, (Hall _ Hrr) in Hd. discriminate.
Qed.

(** X4: on a listener with nothing left to reconcile, a drain whose poll
    reports an armed signal of 1..31 adds it to [pending] and arms it
    again with a single EV_ADD; when that call succeeds the drain returns
    0 with [polling] as it was. *)
Theorem sfd_query_rearms_delivered (fuel : nat) (S : signalfd) (K : kernel)
    (signo : Z) :
  sfd_diff (desired S) (polling S) = 0 ->
  1 <= signo <= 31 ->
  sigismember (polling S) signo = 1 ->
  delivers (next_reply K) signo ->
  r_ret (k_reply K (length (k_log K) + 1)%nat) = 0 ->
  exists K1,
    sfd_query (Datatypes.S fuel) S K =
      Some (0, {| fd := fd S; desired := desired S; polling := polling S;
                  pending := sigaddset (pending S) signo |}, K1) /\
    k_log K1 = k_log K ++ [SysKeventPoll (fd S);
                           SysKeventChange (fd S) signo EVFILT_SIGNAL EV_ADD] /\
    k_open K1 = k_open K.
Proof.
  intros Hz Hr Hm (Hret & Hfil & Hid) Hnext.
  destruct (sfd_diff_after_delivery _ _ _ Hz Hr Hm) as [Hd Ha].
  assert (Hb : Z.testbit (polling S) (signo - 1) = true)
    by (apply sigismember_1 in Hm; tauto).
  rewrite sfd_query_round. cbv zeta.
  assert (Hi : interrupted (next_reply K) = false)
    by (unfold interrupted; rewrite Hret; reflexivity).
  assert (Hn : (r_ret (next_reply K) =? -1) = false) by (rewrite Hret; reflexivity).
  assert (Ho : observe S (next_reply K) =
               {| fd := fd S; desired := desired S;
                  polling := sigdelset (polling S) signo;
                  pending := sigaddset (pending S) signo |})
    by (unfold observe; rewrite Hret, Hfil, Hid; reflexivity).
  rewrite Hi, Hn, Ho.
  eexists. split; [|split].
  - unfold sfd_update.
    rewrite (sfd_update_loop_arm_one 30 _ _ signo); cbn [fd desired polling pending].
    + rewrite sigaddset_restores by exact Hb. reflexivity.
    + exact Hd.
    + lia.
    + exact Ha.
    + unfold next_reply, sys. cbn [snd k_reply k_log]. rewrite length_app.
      exact Hnext.
    + rewrite sigaddset_restores by exact Hb. exact Hz.
  - unfold sys. cbn [snd k_log]. rewrite <- app_assoc. reflexivity.
  - reflexivity.
Qed.

(** *** Pending signals are kept *)

Lemma observe_pending (S : signalfd) (r : sysreply) :
  pending (observe S r) = pending S \/
  (r_ret r = 1 /\ r_filter r = EVFILT_SIGNAL /\
   pending (observe S r) = sigaddset (pending S) (to_int (r_ident r))).
Proof.
  unfold observe. destruct ((r_ret r =? 1) && (r_filter r =? EVFILT_SIGNAL)) eqn:E.
  - apply andb_true_iff in E. destruct E as [E1 E2]. apply Z.eqb_eq in E1, E2.
    right. auto.
  - left. reflexivity.
Qed.

Lemma sigaddset_keeps (s : sigset_t) (signo t : Z) :
  sigismember s t = 1 -> sigismember (sigaddset s signo) t = 1.
Proof.
  rewrite !sigismember_1, testbit_sigaddset. intros [Hv Hb].
  rewrite Hb, orb_true_r. auto.
Qed.

(** X5: a drain takes in at most one signal: [pending] is left as it was,
    or gains the one signal that the last poll of the drain reported; a
    signal that was pending stays pending. *)
Theorem sfd_query_takes_in_one (fuel : nat) (S : signalfd) (K : kernel)
    e S1 K1 :
  sfd_query fuel S K = Some (e, S1, K1) ->
  (pending S1 = pending S \/
   exists n signo,
     delivers (next_reply (polls n (fd S) K)) signo /\
     pending S1 = sigaddset (pending S) signo) /\
  sig_subset (pending S) (pending S1).
Proof.
  intros H. apply sfd_query_shape in H. destruct H as (n & _ & _ & Hcase).
  assert (Hp : pending S1 = pending S \/
               exists signo,
                 delivers (next_reply (polls n (fd S) K)) signo /\
                 pending S1 = sigaddset (pending S) signo).
  { destruct Hcase as [(_ & _ & -> & _)|(_ & Hu)]; [left; reflexivity|].
    apply sfd_update_sound in Hu. destruct Hu as ((_ & _ & Hp & _) & _).
    rewrite Hp.
    destruct (observe_pending S (next_reply (polls n (fd S) K)))
      as [E|(E1 & E2 & E)]; [left; exact E|].
    right. eexists. split; [|exact E]. repeat split; assumption. }
  split.
  - destruct Hp as [E|(signo & Hd & E)]; [left; exact E|].
    right. exists n, signo. auto.
  - intros t Ht. destruct Hp as [->|(signo & _ & ->)]; [exact Ht|].
    apply sigaddset_keeps. exact Ht.
Qed.

(** X6: [lsl_wait] loses no pending signal: a signal that was pending
    before the call is the one the call returns, or is still pending
    after it.  In particular a call that raises consumes nothing. *)
Theorem lsl_wait_keeps_pending (n : nat) (S : signalfd) (K : kernel)
    r S2 K2 (t : Z) :
  lsl_wait n S K = Some (r, S2, K2) ->
  sigismember (pending S) t = 1 ->
  r = Returned (Some t) \/ sigismember (pending S2) t = 1.
Proof.
  intros Hw Ht. apply lsl_wait_cases in Hw.
  destruct Hw as (e & S1 & Hq & Hcase).
  assert (Ht1 : sigismember (pending S1) t = 1).
  { apply sfd_query_shape in Hq. destruct Hq as (m & _ & _ & Hc).
    destruct Hc as [(_ & _ & -> & _)|(_ & Hu)]; [exact Ht|].
    apply sfd_update_sound in Hu. destruct Hu as ((_ & _ & Hp & _) & _).
    rewrite Hp.
    destruct (observe_pending S (next_reply (polls m (fd S) K)))
      as [->|(_ & _ & ->)]; [exact Ht|].
    apply sigaddset_keeps. exact Ht. }
  destruct Hcase as [(_ & _ & ->)|(_ & Hc)]; [right; exact Ht1|].
  unfold consume in Hc. cbv zeta in Hc.
  destruct (negb (sfd_diff (pending S1) sigemptyset =? 0));
    injection Hc as -> ->; [|right; exact Ht1].
  destruct (Z.eq_dec (sfd_diff (pending S1) sigemptyset) t) as [->|Hne];
    [left; reflexivity|].
  right. cbn [pending]. apply sigismember_1 in Ht1. destruct Ht1 as [Hv Hb].
  apply sigismember_1. split; [exact Hv|].
  rewrite testbit_sigdelset, Hb.
  replace (t - 1 =? sfd_diff (pending S1) sigemptyset - 1) with false
    by (symmetry; apply Z.eqb_neq; lia).
  rewrite andb_false_r. reflexivity.
Qed.

(** *** Only listened signals are reported *)






Lemma consume_pending_sub (S1 : signalfd) :
  desired (snd (consume S1)) = desired S1 /\
  fd (snd (consume S1)) = fd S1 /\
  sig_subset (pending (snd (consume S1))) (pending S1).
Proof.
  unfold consume. cbv zeta.
  destruct (negb (sfd_diff (pending S1) sigemptyset =? 0)); cbn [snd fd desired pending].
  - repeat split. intros t Ht. apply sigismember_1 in Ht. apply sigismember_1.
    rewrite testbit_sigdelset in Ht. destruct Ht as [Hv Hb].
    apply andb_true_iff in Hb. tauto.
  - repeat split. intros t Ht. exact Ht.
Qed.



(** *** The descriptor *)

Lemma sfd_query_open (fuel : nat) (S : signalfd) (K : kernel) e S1 K1 :
  sfd_query fuel S K = Some (e, S1, K1) ->
  k_open K1 = k_open K /\ fd S1 = fd S.
Proof.
  intros H. pose proof (sfd_query_sound _ _ _ _ _ _ H) as (Hf & _).
  split; [|exact Hf]. apply sfd_query_shape in H.
  destruct H as (n & _ & _ & Hcase).
  destruct (polls_open (Datatypes.S n) (fd S) K) as [Ho _].
  destruct Hcase as [(_ & _ & _ & ->)|(_ & Hu)]; [exact Ho|].
  apply sfd_update_sound in Hu. destruct Hu as (_ & (_ & Ho1 & _) & _).
  congruence.
Qed.

Lemma lsl_wait_open (n : nat) (S : signalfd) (K : kernel) r S2 K2 :
  lsl_wait n S K = Some (r, S2, K2) ->
  k_open K2 = k_open K /\ fd S2 = fd S.
Proof.
  intros H. apply lsl_wait_cases in H. destruct H as (e & S1 & Hq & Hcase).
  apply sfd_query_open in Hq. destruct Hq as [Ho Hf]. split; [exact Ho|].
  destruct Hcase as [(_ & _ & ->)|(_ & Hc)]; [exact Hf|].
  destruct (consume_pending_sub S1) as (_ & Ef & _).
  destruct (consume S1) as [r0 S3]. injection Hc as _ ->. cbn [snd] in Ef.
  congruence.
Qed.

Lemma lsl_wait_seq_open (n fuel : nat) :
  forall S K rs S2 K2,
    lsl_wait_seq n fuel S K = Some (rs, S2, K2) ->
    k_open K2 = k_open K /\ fd S2 = fd S.
Proof.
  induction n as [|n IH]; intros S K rs S2 K2 H; cbn [lsl_wait_seq] in H.
  - injection H as _ <- <-. auto.
  - destruct (lsl_wait fuel S K) as [[[r S1] K1]|] eqn:Hw; [|discriminate].
    destruct (lsl_wait_seq n fuel S1 K1) as [[[rs1 S3] K3]|] eqn:Hs; [|discriminate].
    injection H as _ <- <-. apply lsl_wait_open in Hw. apply IH in Hs.
    destruct Hw, Hs. split; congruence.
Qed.

Lemma lsl_listen_open (args : list lua_value) (K : kernel) u K1 :
  lsl_listen args K = Some (Returned tt, u, K1) ->
  fd (ud_S u) <> -1 /\ k_open K1 = fd (ud_S u) :: k_open K.
Proof.
  intros H. apply lsl_listen_returned in H. destruct H as (S1 & _ & Hret & Hu & _).
  apply sfd_update_sound in Hu. destruct Hu as ((Hf & _) & (_ & Ho & _) & _).
  cbn [fd] in Hf. rewrite Hf, Ho. unfold sys. cbn [snd k_open open_after].
  rewrite Hret. apply Z.eqb_neq in Hret. auto.
Qed.

Lemma reachable_open (S : signalfd) (K : kernel) :
  reachable S K -> fd S <> -1 /\ In (fd S) (k_open K).
Proof.
  induction 1 as [args K0 u K Hl Hh|fuel S K r S1 K1 Hr IH Hw Hh].
  - apply lsl_listen_open in Hl. destruct Hl as [Hne Ho]. rewrite Ho.
    split; [exact Hne|left; reflexivity].
  - apply lsl_wait_open in Hw. destruct Hw as [Ho Hf]. rewrite Ho, Hf. exact IH.
Qed.

(** X8: on a reachable listener [lsl_pollfd] gives a descriptor that is
    open and is not -1, and no [lsl_wait] changes what it gives. *)
Theorem lsl_pollfd_open_and_stable (S : signalfd) (K : kernel) :
  reachable S K ->
  lsl_pollfd S <> Lnumber (-1) /\
  (forall d, lsl_pollfd S = Lnumber d -> In d (k_open K)) /\
  (forall n r S2 K2,
     lsl_wait n S K = Some (r, S2, K2) ->
     lsl_pollfd S2 = lsl_pollfd S /\ k_open K2 = k_open K).
Proof.
  intros Hr. apply reachable_open in Hr. destruct Hr as [Hne Hin].
  unfold lsl_pollfd. split; [|split].
  - intros H. injection H as H. contradiction.
  - intros d H. injection H as <-. exact Hin.
  - intros n r S2 K2 Hw. apply lsl_wait_open in Hw. destruct Hw as [Ho Hf].
    rewrite Hf. auto.
Qed.

Lemma fd_close_fresh (d : Z) (l : list Z) :
  ~ In d l -> fd_close d (d :: l) = l.
Proof.
  intros Hn. unfold fd_close. cbn [filter]. rewrite Z.eqb_refl. cbn [negb].
  induction l as [|y l IH]; [reflexivity|]. cbn [filter].
  replace (y =? d) with false
    by (symmetry; apply Z.eqb_neq; intros ->; apply Hn; left; reflexivity).
  cbn [negb]. f_equal. apply IH. intros Hin. apply Hn. right. exact Hin.
Qed.

(** X9: when the descriptor that [kqueue] gave to [lsl_listen] was not
    open before, then after any number of [lsl_wait] the finaliser
    [lsl__gc] closes that descriptor and leaves exactly the descriptors
    that were open before the listener was made; the listener is left
    with descriptor -1, its three sets empty, and no filter registered. *)
Theorem lsl__gc_releases (args : list lua_value) (K0 : kernel) u K1
    (n fuel : nat) rs S2 K2 :
  lsl_listen args K0 = Some (Returned tt, u, K1) ->
  ~ In (fd (ud_S u)) (k_open K0) ->
  lsl_wait_seq n fuel (ud_S u) K1 = Some (rs, S2, K2) ->
  k_log (snd (lsl__gc (mk_userdata S2 true) K2)) =
    k_log K2 ++ [SysClose (fd (ud_S u))] /\
  k_open (snd (lsl__gc (mk_userdata S2 true) K2)) = k_open K0 /\
  ud_S (fst (lsl__gc (mk_userdata S2 true) K2)) = mk_signalfd (-1) 0 0 0 /\
  (forall ident,
     ~ In (fd (ud_S u), ident) (k_knotes (snd (lsl__gc (mk_userdata S2 true) K2)))).
Proof.
  intros Hl Hfresh Hs. apply lsl_listen_open in Hl. destruct Hl as [_ Ho].
  apply lsl_wait_seq_open in Hs. destruct Hs as [Ho2 Hf].
  unfold lsl__gc, sfd_destroy, sys. cbn [fst snd ud_S k_log k_open k_knotes
    open_after knotes_after]. rewrite Hf, Ho2, Ho.
  split; [reflexivity|]. split; [apply fd_close_fresh; exact Hfresh|].
  split; [reflexivity|].
  intros ident Hin. unfold knote_drop_queue in Hin. apply filter_In in Hin.
  destruct Hin as [_ Hin]. cbn [fst] in Hin. rewrite Z.eqb_refl in Hin.
  discriminate.
Qed.

(** *** Timeout and wait *)

(** X10: with no new delivery and no failing call, [lsl_wait] returns
    normally, and it returns nothing exactly when [lsl_timeout] gave nil
    and a signal exactly when [lsl_timeout] gave 0. *)
Theorem lsl_timeout_tells_wait (fuel : nat) (S : signalfd) (K : kernel) :
  quiet K ->
  exists r S2 K2,
    lsl_wait (Datatypes.S fuel) S K = Some (Returned r, S2, K2) /\
    (lsl_timeout S = Lnil <-> r = None) /\
    (lsl_timeout S = Lnumber 0 <-> exists m, r = Some m).
Proof.
  intros Hq. destruct (sfd_query_quiet fuel S K Hq) as (S1 & K1 & Hs & Hp & _).
  rewrite (lsl_wait_of_query _ _ _ _ _ Hs).
  unfold consume, lsl_timeout. cbv zeta. rewrite Hp.
  destruct (negb (sfd_diff (pending S) sigemptyset =? 0)); cbn [fst snd].
  - eexists. eexists. eexists. split; [reflexivity|]. split; split; intros H;
      try discriminate; try reflexivity. eexists. reflexivity.
  - eexists. eexists. eexists. split; [reflexivity|]. split; split; intros H;
      try discriminate; try reflexivity. destruct H as [m H]. discriminate.
Qed.

(** *** The arguments of [lsl_listen] *)

Lemma listen_args_bad (pre : list lua_value) (v : lua_value)
    (post : list lua_value) :
  Forall (fun x => luaL_checkint x <> None) pre ->
  luaL_checkint v = None ->
  forall index S,
    exists S1,
      listen_args (pre ++ v :: post) index S = inr ((index + length pre)%nat, S1) /\
      fd S1 = fd S /\ polling S1 = polling S /\ pending S1 = pending S.
Proof.
  intros Hpre Hv. induction Hpre as [|x pre Hx _ IH]; intros index S;
    cbn [app listen_args length].
  - rewrite Hv, Nat.add_0_r. exists S. auto.
  - destruct (luaL_checkint x) as [signo|]; [|contradiction].
    destruct (IH (Datatypes.S index)
                {| fd := fd S; desired := sigaddset (desired S) signo;
                   polling := polling S; pending := pending S |})
      as (S1 & E & Hf & Hp & Hq).
    exists S1. rewrite E. cbn [fd polling pending] in *.
    replace (Datatypes.S index + length pre)%nat
      with (index + Datatypes.S (length pre))%nat by lia. auto.
Qed.

(** X11: when some argument of [lsl_listen] is not a number, the call
    raises an argument error for the first such argument, counted from 1.
    It has made no system call, the userdata carries no metatable (so no
    finaliser will run on it) and holds no descriptor. *)
Theorem lsl_listen_bad_argument (pre : list lua_value) (v : lua_value)
    (post : list lua_value) (K : kernel) :
  Forall (fun x => luaL_checkint x <> None) pre ->
  luaL_checkint v = None ->
  exists S1,
    lsl_listen (pre ++ v :: post) K =
      Some (Raised (BadArgument (Datatypes.S (length pre))),
            mk_userdata S1 false, K) /\
    fd S1 = -1 /\ polling S1 = sigemptyset /\ pending S1 = sigemptyset.
Proof.
  intros Hpre Hv.
  destruct (listen_args_bad pre v post Hpre Hv 1%nat
              (sfd_preinit (mk_signalfd 0 0 0 0))) as (S1 & E & Hf & Hp & Hq).
  exists S1. unfold lsl_listen. rewrite E. auto.
Qed.

Lemma sig_wf_ext (a b : sigset_t) :
  sig_wf a -> sig_wf b ->
  (forall signo, sig_valid signo = true ->
                 sigismember a signo = sigismember b signo) ->
  a = b.
Proof.
  intros Ha Hb Hext. apply Z.bits_inj'. intros i Hi.
  assert (Hsame : forall x y, sig_wf x -> sig_wf y ->
            (forall signo, sig_valid signo = true ->
                           sigismember x signo = sigismember y signo) ->
            Z.testbit x i = true -> Z.testbit y i = true).
  { intros x y Hx Hy Hxy Hbit. pose proof (Hx _ Hbit) as Hr.
    assert (Hv : sig_valid (i + 1) = true) by (apply sig_valid_iff; lia).
    assert (Hm : sigismember x (i + 1) = 1).
    { apply sigismember_1. split; [exact Hv|].
      replace (i + 1 - 1) with i by lia. exact Hbit. }
    rewrite (Hxy _ Hv) in Hm. apply sigismember_1 in Hm.
    destruct Hm as [_ Hm]. replace (i + 1 - 1) with i in Hm by lia. exact Hm. }
  destruct (Z.testbit a i) eqn:Ea.
  - symmetry. apply (Hsame a b); assumption.
  - destruct (Z.testbit b i) eqn:Eb; [|reflexivity].
    rewrite (Hsame b a Hb Ha) in Ea; [discriminate| |exact Eb].
    intros signo Hv. symmetry. apply Hext. exact Hv.
Qed.

Lemma listen_args_numbers (args : list lua_value) :
  Forall (fun x => luaL_checkint x <> None) args ->
  forall index S, exists S1, listen_args args index S = inl S1.
Proof.
  induction 1 as [|x args Hx _ IH]; intros index S; cbn [listen_args].
  - exists S. reflexivity.
  - destruct (luaL_checkint x); [apply IH|contradiction].
Qed.

(** X12: the order of the arguments of [lsl_listen], their repetition and
    the numbers among them that are no signal of the platform make no
    difference: two lists of numbers with the same valid signal numbers
    give the same outcome, listener and system calls. *)
Theorem lsl_listen_args_as_set (args args1 : list lua_value) (K : kernel) :
  Forall (fun x => luaL_checkint x <> None) args ->
  Forall (fun x => luaL_checkint x <> None) args1 ->
  (forall signo, sig_valid signo = true ->
     (In (Some signo) (map luaL_checkint args) <->
      In (Some signo) (map luaL_checkint args1))) ->
  lsl_listen args K = lsl_listen args1 K.
Proof.
  intros Hn Hn1 Hset.
  destruct (listen_args_numbers args Hn 1%nat (sfd_preinit (mk_signalfd 0 0 0 0)))
    as (S1 & E).
  destruct (listen_args_numbers args1 Hn1 1%nat (sfd_preinit (mk_signalfd 0 0 0 0)))
    as (S2 & E1).
  assert (Heq : S1 = S2).
  { pose proof (listen_args_spec _ _ _ _ E) as (Hf & Hp & Hq & Hw).
    pose proof (listen_args_spec _ _ _ _ E1) as (Hf1 & Hp1 & Hq1 & Hw1).
    pose proof (listen_args_members _ _ _ _ E) as Hm.
    pose proof (listen_args_members _ _ _ _ E1) as Hm1.
    assert (Hd : desired S1 = desired S2).
    { apply sig_wf_ext.
      - apply Hw, sig_wf_empty.
      - apply Hw1, sig_wf_empty.
      - intros signo Hv.
        assert (Hiff : sigismember (desired S1) signo = 1 <->
                       sigismember (desired S2) signo = 1).
        { rewrite Hm, Hm1. cbn [sfd_preinit desired].
          specialize (Hset signo Hv). tauto. }
        unfold sigismember in *. rewrite Hv in *.
        destruct (Z.testbit (desired S1) (signo - 1));
          destruct (Z.testbit (desired S2) (signo - 1)); cbn in *;
          try reflexivity; destruct Hiff as [H1 H2];
          [discriminate (H1 eq_refl)|discriminate (H2 eq_refl)]. }
    destruct S1, S2. cbn in *. congruence. }
  subst S2. unfold lsl_listen. rewrite E, E1. reflexivity.
Qed.

(** *** Signal disposition routines *)

Lemma after_calls_nil (P : process) : after_calls P [] = P.
Proof. unfold after_calls. rewrite app_nil_r. destruct P. reflexivity. Qed.

Lemma after_calls_app (P : process) (l l1 : list sigcall) :
  after_calls (after_calls P l) l1 = after_calls P (l ++ l1).
Proof. unfold after_calls. cbn [p_reply p_log]. rewrite app_assoc. reflexivity. Qed.

Lemma sigsys_after (P : process) (c : sigcall) :
  sigsys P c = (p_reply P (length (p_log P)), after_calls P [c]).
Proof. reflexivity. Qed.

(** Arguments that are numbers and whose [sigaction] succeeds are passed
    over, one call each. *)
Lemma ls_sigaction_prefix (who : string) (h : sighandler)
    (pre : list lua_value) :
  forall rest index P,
    Forall (fun x => luaL_checkint x <> None) pre ->
    (forall i, (i < length pre)%nat ->
               r_ret (p_reply P (length (p_log P) + i)%nat) = 0) ->
    ls_sigaction who h (pre ++ rest) index P =
    ls_sigaction who h rest (index + length pre)%nat
      (after_calls P (sigaction_calls h (int_args pre))).
Proof.
  induction pre as [|v pre IH]; intros rest index P Hnum Hok.
  - cbn [app length int_args flat_map sigaction_calls map].
    rewrite after_calls_nil, Nat.add_0_r. reflexivity.
  - inversion Hnum as [|x l Hv Hpre]; subst.
    cbn [app ls_sigaction int_args flat_map].
    destruct (luaL_checkint v) as [signo|]; [|contradiction].
    rewrite sigsys_after.
    assert (H0 : r_ret (p_reply P (length (p_log P))) = 0).
    { rewrite <- (Nat.add_0_r (length (p_log P))). apply Hok. cbn [length]. lia. }
    rewrite H0. cbn [Z.eqb negb].
    rewrite IH; [|exact Hpre|].
    + rewrite after_calls_app. cbn [length app sigaction_calls map].
      replace (Datatypes.S index + length pre)%nat
        with (index + Datatypes.S (length pre))%nat by lia. reflexivity.
    + intros i Hi. unfold after_calls. cbn [p_reply p_log].
      rewrite length_app. cbn [length].
      replace (length (p_log P) + 1 + i)%nat
        with (length (p_log P) + Datatypes.S i)%nat by lia.
      apply Hok. cbn [length]. lia.
Qed.

Lemma int_args_numbers (args : list lua_value) :
  Forall (fun x => luaL_checkint x <> None) args ->
  map luaL_checkint args = map Some (int_args args).
Proof.
  induction 1 as [|v args Hv _ IH]; [reflexivity|].
  cbn [map int_args flat_map]. destruct (luaL_checkint v); [|contradiction].
  cbn [app map]. rewrite IH. reflexivity.
Qed.

Lemma ls_sigaction_returns (who : string) (h : sighandler)
    (args : list lua_value) :
  forall index P,
    fst (ls_sigaction who h args index P) = Returned tt ->
    Forall (fun x => luaL_checkint x <> None) args /\
    (forall i, (i < length args)%nat ->
               r_ret (p_reply P (length (p_log P) + i)%nat) = 0).
Proof.
  induction args as [|v args IH]; intros index P H.
  - split; [constructor|]. intros i Hi. cbn in Hi. lia.
  - cbn [ls_sigaction] in H. destruct (luaL_checkint v) as [signo|] eqn:Ev;
      [|discriminate].
    rewrite sigsys_after in H.
    destruct (r_ret (p_reply P (length (p_log P))) =? 0) eqn:Er; cbn [negb] in H;
      [|discriminate].
    apply Z.eqb_eq in Er. apply IH in H. destruct H as [Hnum Hok]. split.
    + constructor; [congruence|exact Hnum].
    + intros [|i] Hi; [rewrite Nat.add_0_r; exact Er|].
      specialize (Hok i ltac:(cbn [length] in Hi; lia)).
      unfold after_calls in Hok. cbn [p_reply p_log] in Hok.
      rewrite length_app in Hok. cbn [length] in Hok.
      replace (length (p_log P) + Datatypes.S i)%nat
        with (length (p_log P) + 1 + i)%nat by lia. exact Hok.
Qed.

(** X13: [ls_ignore] and [ls_default] return normally exactly when every
    argument is a number and every [sigaction] succeeds; they have then
    made one [sigaction] for each argument, in the order of the arguments,
    with the handler SIG_IGN or SIG_DFL, an empty mask and no flags. *)
Theorem ls_ignore_default_return (args : list lua_value) (P : process) :
  let ok :=
    Forall (fun x => luaL_checkint x <> None) args /\
    (forall i, (i < length args)%nat ->
               r_ret (p_reply P (length (p_log P) + i)%nat) = 0) in
  (fst (ls_ignore args P) = Returned tt <-> ok) /\
  (fst (ls_default args P) = Returned tt <-> ok) /\
  (ok ->
   ls_ignore args P =
     (Returned tt, after_calls P (sigaction_calls SIG_IGN (int_args args))) /\
   ls_default args P =
     (Returned tt, after_calls P (sigaction_calls SIG_DFL (int_args args))) /\
   map luaL_checkint args = map Some (int_args args)).
Proof.
  intros ok. unfold ls_ignore, ls_default.
  assert (Hrun : forall who h, ok ->
            ls_sigaction who h args 1 P =
            (Returned tt, after_calls P (sigaction_calls h (int_args args)))).
  { intros who h [Hnum Hok].
    rewrite <- (app_nil_r args) at 1.
    rewrite (ls_sigaction_prefix who h args [] 1 P Hnum Hok). reflexivity. }
  split; [|split].
  - split; [apply ls_sigaction_returns|]. intros Hok. rewrite Hrun by exact Hok.
    reflexivity.
  - split; [apply ls_sigaction_returns|]. intros Hok. rewrite Hrun by exact Hok.
    reflexivity.
  - intros Hok. split; [apply Hrun; exact Hok|]. split; [apply Hrun; exact Hok|].
    apply int_args_numbers. exact (proj1 Hok).
Qed.

Lemma int_args_length (args : list lua_value) :
  Forall (fun x => luaL_checkint x <> None) args ->
  length (int_args args) = length args.
Proof.
  intros H. rewrite <- (length_map Some), <- int_args_numbers by exact H.
  apply length_map.
Qed.

Lemma ls_sigaction_bad (who : string) (h : sighandler) (pre : list lua_value)
    (v : lua_value) (post : list lua_value) (P : process) :
  Forall (fun x => luaL_checkint x <> None) pre ->
  (forall i, (i < length pre)%nat ->
             r_ret (p_reply P (length (p_log P) + i)%nat) = 0) ->
  luaL_checkint v = None ->
  ls_sigaction who h (pre ++ v :: post) 1 P =
  (Raised (BadArgument (Datatypes.S (length pre))),
   after_calls P (sigaction_calls h (int_args pre))).
Proof.
  intros Hnum Hok Hv. rewrite (ls_sigaction_prefix who h pre (v :: post) 1 P Hnum Hok).
  cbn [ls_sigaction]. rewrite Hv. reflexivity.
Qed.

Lemma ls_sigaction_fails (who : string) (h : sighandler) (pre : list lua_value)
    (v : lua_value) (post : list lua_value) (P : process) (signo : Z) :
  Forall (fun x => luaL_checkint x <> None) pre ->
  (forall i, (i < length pre)%nat ->
             r_ret (p_reply P (length (p_log P) + i)%nat) = 0) ->
  luaL_checkint v = Some signo ->
  r_ret (p_reply P (length (p_log P) + length pre)%nat) <> 0 ->
  ls_sigaction who h (pre ++ v :: post) 1 P =
  (Raised (ErrorMessage who
             (errno (p_reply P (length (p_log P) + length pre)%nat))),
   after_calls P (sigaction_calls h (int_args pre ++ [signo]))).
Proof.
  intros Hnum Hok Hv Hret.
  rewrite (ls_sigaction_prefix who h pre (v :: post) 1 P Hnum Hok).
  cbn [ls_sigaction]. rewrite Hv. unfold sigsys, after_calls, sigaction_calls.
  cbn [p_reply p_log]. rewrite length_app, length_map, (int_args_length pre Hnum).
  replace (r_ret (p_reply P (length (p_log P) + length pre)%nat) =? 0)
    with false by (symmetry; apply Z.eqb_neq; exact Hret).
  cbn [negb]. rewrite map_app, <- app_assoc. reflexivity.
Qed.

(** X14: [ls_ignore] and [ls_default] do not undo what they did when they
    fail.  With the arguments before the failing one numbers whose
    [sigaction] succeeded, an argument that is no number raises an
    argument error after those calls, and an argument whose [sigaction]
    fails raises the error number of that call after those calls and the
    failed one; the arguments after it are not looked at. *)
Theorem ls_ignore_default_failure (pre : list lua_value) (v : lua_value)
    (post : list lua_value) (P : process) :
  Forall (fun x => luaL_checkint x <> None) pre ->
  (forall i, (i < length pre)%nat ->
             r_ret (p_reply P (length (p_log P) + i)%nat) = 0) ->
  (luaL_checkint v = None ->
   ls_ignore (pre ++ v :: post) P =
     (Raised (BadArgument (Datatypes.S (length pre))),
      after_calls P (sigaction_calls SIG_IGN (int_args pre))) /\
   ls_default (pre ++ v :: post) P =
     (Raised (BadArgument (Datatypes.S (length pre))),
      after_calls P (sigaction_calls SIG_DFL (int_args pre)))) /\
  (forall signo,
     luaL_checkint v = Some signo ->
     r_ret (p_reply P (length (p_log P) + length pre)%nat) <> 0 ->
     ls_ignore (pre ++ v :: post) P =
       (Raised (ErrorMessage "signal.ignore"
                  (errno (p_reply P (length (p_log P) + length pre)%nat))),
        after_calls P (sigaction_calls SIG_IGN (int_args pre ++ [signo]))) /\
     ls_default (pre ++ v :: post) P =
       (Raised (ErrorMessage "signal.default"
                  (errno (p_reply P (length (p_log P) + length pre)%nat))),
        after_calls P (sigaction_calls SIG_DFL (int_args pre ++ [signo])))).
Proof.
  intros Hnum Hok. unfold ls_ignore, ls_default. split.
  - intros Hv. split; apply ls_sigaction_bad; assumption.
  - intros signo Hv Hret. split; apply ls_sigaction_fails; assumption.
Qed.

Lemma sigset_args_members (args : list lua_value) :
  forall index set set1,
    sigset_args args index set = inl set1 ->
    (sig_wf set -> sig_wf set1) /\
    forall signo,
      sigismember set1 signo = 1 <->
      sigismember set signo = 1 \/
      (sig_valid signo = true /\ In (Some signo) (map luaL_checkint args)).
Proof.
  induction args as [|v rest IH]; intros index set set1 H; cbn [sigset_args] in H.
  - injection H as <-. split; [auto|]. intros signo. cbn. tauto.
  - destruct (luaL_checkint v) as [n|] eqn:Ev; [|discriminate].
    apply IH in H. destruct H as [Hw Hm]. split.
    + intros Hs. apply Hw, sig_wf_add, Hs.
    + intros signo. rewrite (Hm signo). cbn [map In]. rewrite Ev.
      rewrite !sigismember_1, testbit_sigaddset, orb_true_iff, andb_true_iff,
        Z.eqb_eq. split.
      * intros [[Hv [[Hn E]|Hb]]|[Hv Hin]]; auto.
        right. split; [exact Hv|]. left. f_equal. lia.
      * intros [[Hv Hb]|[Hv [E|Hin]]]; auto.
        injection E as ->. left. split; [exact Hv|]. left.
        split; [exact Hv|reflexivity].
Qed.

Lemma sigset_args_bad (pre : list lua_value) (v : lua_value)
    (post : list lua_value) :
  Forall (fun x => luaL_checkint x <> None) pre ->
  luaL_checkint v = None ->
  forall index set,
    sigset_args (pre ++ v :: post) index set = inr (index + length pre)%nat.
Proof.
  intros Hpre Hv. induction Hpre as [|x pre Hx _ IH]; intros index set;
    cbn [app sigset_args length].
  - rewrite Hv, Nat.add_0_r. reflexivity.
  - destruct (luaL_checkint x) as [signo|]; [|contradiction].
    rewrite IH. f_equal. lia.
Qed.

Lemma sigset_args_numbers (args : list lua_value) :
  Forall (fun x => luaL_checkint x <> None) args ->
  forall index set, exists set1, sigset_args args index set = inl set1.
Proof.
  induction 1 as [|x args Hx _ IH]; intros index set; cbn [sigset_args].
  - exists set. reflexivity.
  - destruct (luaL_checkint x); [apply IH|contradiction].
Qed.

(** [xsigmask] returns 0 exactly when the call returned 0. *)
Lemma xsigmask_spec (how : Z) (set : sigset_t) (P : process) :
  snd (xsigmask how set P) = after_calls P [SysSigmask how set] /\
  (fst (xsigmask how set P) = 0 <-> r_ret (p_reply P (length (p_log P))) = 0) /\
  fst (xsigmask how set P) =
    (if threaded then r_ret (p_reply P (length (p_log P)))
     else if r_ret (p_reply P (length (p_log P))) =? 0 then 0
          else errno (p_reply P (length (p_log P)))).
Proof.
  unfold xsigmask. rewrite sigsys_after. destruct threaded; cbn [fst snd].
  - repeat split; auto.
  - destruct (r_ret (p_reply P (length (p_log P))) =? 0) eqn:E.
    + apply Z.eqb_eq in E. repeat split; auto.
    + apply Z.eqb_neq in E. repeat split; try reflexivity; try tauto.
      intros H. discriminate H.
Qed.

(** X15: [ls_block] and [ls_unblock] on arguments that are all numbers
    make exactly one call, with SIG_BLOCK or SIG_UNBLOCK and in both cases
    the same set: the arguments that are signals of the platform, the
    other numbers being dropped without an error.  They return normally
    exactly when that call returns 0. *)
Theorem ls_block_unblock_one_call (args : list lua_value) (P : process) :
  Forall (fun x => luaL_checkint x <> None) args ->
  exists set,
    sig_wf set /\
    (forall signo, sigismember set signo = 1 <->
                   sig_valid signo = true /\
                   In (Some signo) (map luaL_checkint args)) /\
    snd (ls_block args P) = after_calls P [SysSigmask SIG_BLOCK set] /\
    snd (ls_unblock args P) = after_calls P [SysSigmask SIG_UNBLOCK set] /\
    (fst (ls_block args P) = Returned tt <->
     r_ret (p_reply P (length (p_log P))) = 0) /\
    (fst (ls_unblock args P) = Returned tt <->
     r_ret (p_reply P (length (p_log P))) = 0).
Proof.
  intros Hnum.
  destruct (sigset_args_numbers args Hnum 1%nat sigemptyset) as (set & E).
  destruct (sigset_args_members _ _ _ _ E) as [Hw Hm].
  exists set. split; [apply Hw, sig_wf_empty|]. split.
  { intros signo. rewrite (Hm signo). unfold sigismember at 1, sigemptyset.
    rewrite Z.bits_0. destruct (sig_valid signo); cbn; intuition congruence. }
  unfold ls_block, ls_unblock. rewrite E.
  assert (Hout : forall how who,
            snd (let (error, P1) := xsigmask how set P in
                 if negb (error =? 0)
                 then (Raised (ErrorMessage who error), P1)
                 else (@Returned unit tt, P1)) =
              after_calls P [SysSigmask how set] /\
            (fst (let (error, P1) := xsigmask how set P in
                  if negb (error =? 0)
                  then (Raised (ErrorMessage who error), P1)
                  else (@Returned unit tt, P1)) = Returned tt <->
             r_ret (p_reply P (length (p_log P))) = 0)).
  { intros how who. destruct (xsigmask_spec how set P) as (Hs & Hz & _).
    destruct (xsigmask how set P) as [error P1]. cbn [fst snd] in Hs, Hz.
    destruct (error =? 0) eqn:Ee; cbn [negb fst snd].
    - apply Z.eqb_eq in Ee. split; [exact Hs|]. split; [tauto|reflexivity].
    - apply Z.eqb_neq in Ee. split; [exact Hs|]. split; [discriminate|tauto]. }
  destruct (Hout SIG_BLOCK "signal.block"%string) as [Hb1 Hb2].
  destruct (Hout SIG_UNBLOCK "signal.unblock"%string) as [Hu1 Hu2].
  auto.
Qed.

(** X16: [ls_block] and [ls_unblock] change nothing when an argument is
    not a number, wherever it stands: they raise an argument error for
    the first such argument and make no call. *)
Theorem ls_block_unblock_bad_argument (pre : list lua_value) (v : lua_value)
    (post : list lua_value) (P : process) :
  Forall (fun x => luaL_checkint x <> None) pre ->
  luaL_checkint v = None ->
  ls_block (pre ++ v :: post) P =
    (Raised (BadArgument (Datatypes.S (length pre))), P) /\
  ls_unblock (pre ++ v :: post) P =
    (Raised (BadArgument (Datatypes.S (length pre))), P).
Proof.
  intros Hpre Hv. unfold ls_block, ls_unblock.
  rewrite (sigset_args_bad pre v post Hpre Hv). split; reflexivity.
Qed.

(** X17: when [ls_block] or [ls_unblock] fails on its call, the error it
    raises carries the return value of [pthread_sigmask] in a build with
    threads, and [errno] of [sigprocmask] otherwise. *)
Theorem ls_block_unblock_error (args : list lua_value) (P : process) :
  Forall (fun x => luaL_checkint x <> None) args ->
  r_ret (p_reply P (length (p_log P))) <> 0 ->
  let code := if threaded then r_ret (p_reply P (length (p_log P)))
              else errno (p_reply P (length (p_log P))) in
  fst (ls_block args P) = Raised (ErrorMessage "signal.block" code) /\
  fst (ls_unblock args P) = Raised (ErrorMessage "signal.unblock" code).
Proof.
  intros Hnum Hret code.
  destruct (sigset_args_numbers args Hnum 1%nat sigemptyset) as (set & E).
  unfold ls_block, ls_unblock. rewrite E.
  assert (Hout : forall how who,
            fst (let (error, P1) := xsigmask how set P in
                 if negb (error =? 0)
                 then (Raised (ErrorMessage who error), P1)
                 else (@Returned unit tt, P1)) =
              Raised (ErrorMessage who code)).
  { intros how who. destruct (xsigmask_spec how set P) as (_ & Hz & Hv).
    destruct (xsigmask how set P) as [error P1]. cbn [fst snd] in Hz, Hv.
    assert (Hne : error <> 0) by tauto.
    replace (error =? 0) with false by (symmetry; apply Z.eqb_neq; exact Hne).
    cbn [negb fst]. f_equal. f_equal. rewrite Hv. unfold code.
    destruct threaded; [reflexivity|].
    replace (r_ret (p_reply P (length (p_log P))) =? 0) with false
      by (symmetry; apply Z.eqb_neq; exact Hret). reflexivity. }
  split; apply Hout.
Qed.

(** *** Lua tables and the stack *)

Lemma lobj_eqb_eq (a b : lobj) : lobj_eqb a b = true <-> a = b.
Proof.
  destruct a, b; cbn [lobj_eqb]; try (split; [discriminate|discriminate]);
    try (split; reflexivity).
  - rewrite Z.eqb_eq. split; congruence.
  - rewrite String.eqb_eq. split; congruence.
  - rewrite String.eqb_eq. split; congruence.
  - rewrite Nat.eqb_eq. split; congruence.
Qed.

Lemma lobj_eqb_refl (a : lobj) : lobj_eqb a a = true.
Proof. apply lobj_eqb_eq. reflexivity. Qed.

Lemma lobj_eqb_neq (a b : lobj) : a <> b -> lobj_eqb a b = false.
Proof.
  intros H. destruct (lobj_eqb a b) eqn:E; [|reflexivity].
  apply lobj_eqb_eq in E. contradiction.
Qed.

Lemma tget_tdel (k k1 : lobj) (t : ltable) :
  tget k (tdel k1 t) = if lobj_eqb k k1 then ONil else tget k t.
Proof.
  unfold tget, tdel. induction t as [|[k2 v2] t IH]; cbn [filter find fst snd].
  - destruct (lobj_eqb k k1); reflexivity.
  - destruct (lobj_eqb k1 k2) eqn:E12; cbn [negb find fst snd].
    + apply lobj_eqb_eq in E12. subst k2. rewrite IH.
      destruct (lobj_eqb k k1); reflexivity.
    + destruct (lobj_eqb k k2) eqn:E2; [|exact IH].
      apply lobj_eqb_eq in E2. subst k2.
      rewrite (lobj_eqb_neq k k1); [reflexivity|].
      intros ->. rewrite lobj_eqb_refl in E12. discriminate.
Qed.

Lemma tget_tset (k k1 v : lobj) (t : ltable) :
  tget k (tset k1 v t) = if lobj_eqb k k1 then v else tget k t.
Proof.
  assert (Hcons : tget k ((k1, v) :: tdel k1 t) =
                  if lobj_eqb k k1 then v else tget k t).
  { pose proof (tget_tdel k k1 t) as Hd. unfold tget in *.
    cbn [find fst snd]. destruct (lobj_eqb k k1); [reflexivity|exact Hd]. }
  destruct v; try exact Hcons. cbn [tset]. apply tget_tdel.
Qed.

Lemma list_set_length {A : Type} (n : nat) (x : A) (l : list A) :
  length (list_set n x l) = length l.
Proof.
  revert n. induction l as [|y l IH]; intros [|n]; cbn [list_set length];
    try reflexivity. rewrite IH. reflexivity.
Qed.

Lemma nth_error_list_set {A : Type} (n m : nat) (x : A) (l : list A) :
  nth_error (list_set n x l) m =
  if Nat.eqb n m then (if Nat.ltb n (length l) then Some x else None)
  else nth_error l m.
Proof.
  revert n m. induction l as [|y l IH]; intros n m.
  - destruct n, m; cbn; try reflexivity. destruct (Nat.eqb n m); reflexivity.
  - destruct n as [|n], m as [|m]; cbn [list_set nth_error Nat.eqb length];
      try reflexivity. rewrite IH.
    change (Nat.ltb (Datatypes.S n) (Datatypes.S (length l)))
      with (Nat.ltb n (length l)). reflexivity.
Qed.

Lemma nth_error_list_set_same {A : Type} (n : nat) (x y : A) (l : list A) :
  nth_error l n = Some y -> nth_error (list_set n x l) n = Some x.
Proof.
  intros H. rewrite nth_error_list_set, Nat.eqb_refl.
  assert (Hlt : (n < length l)%nat) by (apply nth_error_Some; congruence).
  apply Nat.ltb_lt in Hlt. rewrite Hlt. reflexivity.
Qed.

Lemma nth_error_list_set_other {A : Type} (n m : nat) (x : A) (l : list A) :
  n <> m -> nth_error (list_set n x l) m = nth_error l m.
Proof.
  intros H. rewrite nth_error_list_set.
  apply Nat.eqb_neq in H. rewrite H. reflexivity.
Qed.

Lemma list_set_twice {A : Type} (n : nat) (x y : A) (l : list A) :
  list_set n x (list_set n y l) = list_set n x l.
Proof.
  revert n. induction l as [|z l IH]; intros [|n]; cbn [list_set];
    try reflexivity. rewrite IH. reflexivity.
Qed.

Lemma list_set_snoc {A : Type} (x y : A) (l rest : list A) :
  list_set (length l) x (l ++ y :: rest) = l ++ x :: rest.
Proof.
  induction l as [|z l IH]; cbn [length app list_set]; [reflexivity|].
  rewrite IH. reflexivity.
Qed.

Lemma nth_error_snoc {A : Type} (y : A) (l rest : list A) :
  nth_error (l ++ y :: rest) (length l) = Some y.
Proof.
  rewrite nth_error_app2 by lia. rewrite Nat.sub_diag. reflexivity.
Qed.

Lemma index2value_top (st l : list lobj) (hp : list ltable) (rg : ltable)
    (idx : Z) (v : lobj) :
  idx < 0 -> - Z.of_nat (length l) <= idx ->
  nth_error l (Z.to_nat (Z.of_nat (length l) + idx)) = Some v ->
  index2value (mk_lstate (st ++ l) hp rg) idx = Some v.
Proof.
  intros Hneg Hlow Hnth. unfold index2value. cbn [l_stack].
  rewrite length_app, Nat2Z.inj_add.
  replace (0 <? idx) with false by (symmetry; apply Z.ltb_ge; lia).
  replace (idx <? 0) with true by (symmetry; apply Z.ltb_lt; lia).
  replace (- (Z.of_nat (length st) + Z.of_nat (length l)) <=? idx) with true
    by (symmetry; apply Z.leb_le; lia).
  cbn [andb].
  replace (Z.to_nat (Z.of_nat (length st) + Z.of_nat (length l) + idx))
    with (length st + Z.to_nat (Z.of_nat (length l) + idx))%nat by lia.
  rewrite nth_error_app2 by lia.
  replace (length st + Z.to_nat (Z.of_nat (length l) + idx) - length st)%nat
    with (Z.to_nat (Z.of_nat (length l) + idx)) by lia.
  exact Hnth.
Qed.

Lemma push_app (v : lobj) (st l : list lobj) (hp : list ltable) (rg : ltable) :
  push v (mk_lstate (st ++ l) hp rg) = mk_lstate (st ++ l ++ [v]) hp rg.
Proof. unfold push. cbn [l_stack l_heap l_registry]. rewrite <- app_assoc. reflexivity. Qed.

Lemma pop_app (v : lobj) (st l : list lobj) (hp : list ltable) (rg : ltable) :
  pop (mk_lstate (st ++ l ++ [v]) hp rg) = Some (v, mk_lstate (st ++ l) hp rg).
Proof.
  unfold pop. cbn [l_stack l_heap l_registry].
  rewrite app_assoc, rev_app_distr. cbn [rev app]. rewrite rev_involutive.
  reflexivity.
Qed.

(** *** Replacing a method *)

Lemma lsl_interpose_run (pre : list lobj) (name f : lobj)
    (hp : list ltable) (rg : ltable) (mt ix : nat) (mtb methods : ltable) :
  tget (OString LSL_CLASS) rg = OTable mt ->
  nth_error hp mt = Some mtb ->
  tget (OString "__index") mtb = OTable ix ->
  nth_error hp ix = Some methods ->
  name <> ONil ->
  lsl_interpose (mk_lstate (pre ++ [name; f]) hp rg) =
    Some (tget name methods,
          mk_lstate (pre ++ [name; f; OTable mt; OTable ix; tget name methods])
                    (list_set ix (tset name f methods) hp) rg).
Proof.
  intros Hreg Hmt Hidx Hix Hname.
  unfold lsl_interpose, luaL_getmetatable. cbn [l_registry]. rewrite Hreg.
  rewrite push_app. cbn [app].
  unfold lua_getfield.
  rewrite (index2value_top pre [name; f; OTable mt] hp rg (-1) (OTable mt))
    by (cbn; first [lia|reflexivity]).
  unfold heap_get at 1. cbn [l_heap]. rewrite Hmt, Hidx.
  rewrite push_app. cbn [app].
  unfold lua_pushvalue at 1.
  rewrite (index2value_top pre [name; f; OTable mt; OTable ix] hp rg (-4) name)
    by (cbn; first [lia|reflexivity]).
  rewrite push_app. cbn [app].
  unfold lua_gettable.
  rewrite (index2value_top pre [name; f; OTable mt; OTable ix; name] hp rg
             (-2) (OTable ix)) by (cbn; first [lia|reflexivity]).
  rewrite (pop_app name pre [name; f; OTable mt; OTable ix]). cbn [fst snd].
  unfold heap_get. cbn [l_heap]. rewrite Hix.
  rewrite push_app. cbn [app].
  unfold lua_pushvalue.
  rewrite (index2value_top pre
             [name; f; OTable mt; OTable ix; tget name methods] hp rg (-5) name)
    by (cbn; first [lia|reflexivity]).
  rewrite push_app. cbn [app].
  rewrite (index2value_top pre
             [name; f; OTable mt; OTable ix; tget name methods; name] hp rg
             (-5) f) by (cbn; first [lia|reflexivity]).
  rewrite push_app. cbn [app].
  unfold lua_settable.
  rewrite (index2value_top pre
             [name; f; OTable mt; OTable ix; tget name methods; name; f] hp rg
             (-4) (OTable ix)) by (cbn; first [lia|reflexivity]).
  rewrite (pop_app f pre [name; f; OTable mt; OTable ix; tget name methods; name]).
  cbn [fst snd].
  rewrite (pop_app name pre [name; f; OTable mt; OTable ix; tget name methods]).
  cbn [fst snd].
  assert (Hset : heap_set (OTable ix) name f
                   (mk_lstate (pre ++ [name; f; OTable mt; OTable ix;
                                       tget name methods]) hp rg) =
                 Some (mk_lstate (pre ++ [name; f; OTable mt; OTable ix;
                                          tget name methods])
                         (list_set ix (tset name f methods) hp) rg)).
  { unfold heap_set. cbn [l_heap l_stack l_registry]. rewrite Hix. reflexivity. }
  destruct name; try contradiction; rewrite Hset;
    match goal with
    | |- context [index2value (mk_lstate (pre ++ ?l) ?h ?r) (-1)] =>
        rewrite (index2value_top pre l h r (-1) (nth 4 l ONil))
          by (cbn; first [lia|reflexivity])
    end; reflexivity.
Qed.

(** X18: [lsl_interpose], on a stack that ends in a method name that is
    not nil and a value, takes these last two values whatever lies below
    them: it returns the method the name had in the [__index] table of the
    listener metatable, stores the value under the name in that table
    (nil removes the method) and changes no other table and no other
    method. *)
Theorem lsl_interpose_swaps (pre : list lobj) (name f : lobj)
    (hp : list ltable) (rg : ltable) (mt ix : nat) (mtb methods : ltable) :
  tget (OString LSL_CLASS) rg = OTable mt ->
  nth_error hp mt = Some mtb ->
  tget (OString "__index") mtb = OTable ix ->
  nth_error hp ix = Some methods ->
  name <> ONil ->
  exists hp1,
    lsl_interpose (mk_lstate (pre ++ [name; f]) hp rg) =
      Some (tget name methods,
            mk_lstate (pre ++ [name; f; OTable mt; OTable ix; tget name methods])
                      hp1 rg) /\
    nth_error hp1 ix = Some (tset name f methods) /\
    tget name (tset name f methods) = f /\
    (forall k, k <> name -> tget k (tset name f methods) = tget k methods) /\
    (forall t, t <> ix -> nth_error hp1 t = nth_error hp t).
Proof.
  intros Hreg Hmt Hidx Hix Hname.
  exists (list_set ix (tset name f methods) hp). split; [|split; [|split; [|split]]].
  - eapply lsl_interpose_run; eassumption.
  - apply (nth_error_list_set_same _ _ _ _ Hix).
  - rewrite tget_tset, lobj_eqb_refl. reflexivity.
  - intros k Hk. rewrite tget_tset, (lobj_eqb_neq _ _ Hk). reflexivity.
  - intros t Ht. apply nth_error_list_set_other. congruence.
Qed.

(** X19: interposing a value and then interposing back the method that
    the first call returned gives back the value and leaves every method
    of the table as it was before the two calls. *)
Theorem lsl_interpose_round_trip (pre pre1 : list lobj) (name f : lobj)
    (hp : list ltable) (rg : ltable) (mt ix : nat) (mtb methods : ltable) :
  tget (OString LSL_CLASS) rg = OTable mt ->
  nth_error hp mt = Some mtb ->
  tget (OString "__index") mtb = OTable ix ->
  nth_error hp ix = Some methods ->
  name <> ONil -> ix <> mt ->
  exists old L1 L2 methods2,
    lsl_interpose (mk_lstate (pre ++ [name; f]) hp rg) = Some (old, L1) /\
    lsl_interpose (mk_lstate (pre1 ++ [name; old]) (l_heap L1) (l_registry L1)) =
      Some (f, L2) /\
    nth_error (l_heap L2) ix = Some methods2 /\
    (forall k, tget k methods2 = tget k methods) /\
    (forall t, t <> ix -> nth_error (l_heap L2) t = nth_error hp t).
Proof.
  intros Hreg Hmt Hidx Hix Hname Hne.
  pose proof (lsl_interpose_run pre name f hp rg mt ix mtb methods
                Hreg Hmt Hidx Hix Hname) as H1.
  assert (Hmt1 : nth_error (list_set ix (tset name f methods) hp) mt = Some mtb)
    by (rewrite nth_error_list_set_other by exact Hne; exact Hmt).
  pose proof (nth_error_list_set_same ix (tset name f methods) _ _ Hix) as Hix1.
  pose proof (lsl_interpose_run pre1 name (tget name methods) _ rg mt ix mtb _
                Hreg Hmt1 Hidx Hix1 Hname) as H2.
  rewrite list_set_twice in H2.
  assert (Hf : tget name (tset name f methods) = f)
    by (rewrite tget_tset, lobj_eqb_refl; reflexivity).
  rewrite Hf in H2.
  eexists. eexists. eexists. eexists. split; [exact H1|].
  cbn [l_heap l_registry]. split; [exact H2|]. cbn [l_heap]. split; [|split].
  - apply (nth_error_list_set_same _ _ _ _ Hix).
  - intros k. rewrite !tget_tset. destruct (lobj_eqb k name) eqn:E; [|reflexivity].
    apply lobj_eqb_eq in E. subst k. reflexivity.
  - intros t Ht. apply nth_error_list_set_other. congruence.
Qed.

(** *** Opening the module *)

Lemma list_set_same {A : Type} (n : nat) (x : A) (l : list A) :
  nth_error l n = Some x -> list_set n x l = l.
Proof.
  revert n. induction l as [|y l IH]; intros [|n] H; cbn [list_set nth_error] in *;
    try reflexivity.
  - injection H as ->. reflexivity.
  - rewrite IH by exact H. reflexivity.
Qed.

Lemma luaL_setfuncs_run (l : luaL_Reg) :
  forall (st : list lobj) (hp : list ltable) (rg : ltable) (t : nat) (tb : ltable),
    nth_error hp t = Some tb ->
    luaL_setfuncs (mk_lstate (st ++ [OTable t]) hp rg) l =
    Some (mk_lstate (st ++ [OTable t]) (list_set t (reg_entries l tb) hp) rg).
Proof.
  induction l as [|[name f] l IH]; intros st hp rg t tb Ht.
  - cbn [luaL_setfuncs reg_entries fold_left]. rewrite list_set_same by exact Ht.
    reflexivity.
  - cbn [luaL_setfuncs].
    rewrite (index2value_top st [OTable t] hp rg (-1) (OTable t))
      by (cbn; first [lia|reflexivity]).
    unfold heap_set. cbn [l_heap l_stack l_registry]. rewrite Ht.
    rewrite (IH st _ rg t (tset (OString name) (OFunction f) tb))
      by (apply (nth_error_list_set_same _ _ _ _ Ht)).
    rewrite list_set_twice. reflexivity.
Qed.

Lemma luaL_newlib_run (l : luaL_Reg) (st : list lobj) (hp : list ltable)
    (rg : ltable) :
  luaL_newlib (mk_lstate st hp rg) l =
  Some (mk_lstate (st ++ [OTable (length hp)]) (hp ++ [reg_entries l []]) rg).
Proof.
  unfold luaL_newlib. cbn [l_stack l_heap l_registry].
  rewrite (luaL_setfuncs_run l st (hp ++ [[]]) rg (length hp) [])
    by apply nth_error_snoc.
  rewrite list_set_snoc. reflexivity.
Qed.

Lemma open_signal_run (st : list lobj) (hp : list ltable) (rg : ltable)
    (m : nat) (tb : ltable) (e : string * Z) :
  nth_error hp m = Some tb ->
  open_signal (mk_lstate (st ++ [OTable m]) hp rg) e =
  Some (mk_lstate (st ++ [OTable m])
          (list_set m (tset (ONumber (snd e)) (OString (fst e))
                         (tset (OString (fst e)) (ONumber (snd e)) tb)) hp) rg).
Proof.
  intros Hm. unfold open_signal, lua_pushstring, lua_pushinteger.
  rewrite !push_app. cbn [app]. unfold lua_settable at 1.
  rewrite (index2value_top st [OTable m; OString (fst e); ONumber (snd e)] hp rg
             (-3) (OTable m)) by (cbn; first [lia|reflexivity]).
  rewrite (pop_app (ONumber (snd e)) st [OTable m; OString (fst e)]). cbn [fst snd].
  rewrite (pop_app (OString (fst e)) st [OTable m]). cbn [fst snd].
  unfold heap_set at 1. cbn [l_heap l_stack l_registry]. rewrite Hm.
  rewrite !push_app. cbn [app]. unfold lua_settable.
  rewrite (index2value_top st [OTable m; ONumber (snd e); OString (fst e)] _ rg
             (-3) (OTable m)) by (cbn; first [lia|reflexivity]).
  rewrite (pop_app (OString (fst e)) st [OTable m; ONumber (snd e)]). cbn [fst snd].
  rewrite (pop_app (ONumber (snd e)) st [OTable m]). cbn [fst snd].
  unfold heap_set. cbn [l_heap l_stack l_registry].
  rewrite (nth_error_list_set_same _ _ _ _ Hm), list_set_twice. reflexivity.
Qed.

Lemma open_signals_run (l : list (string * Z)) :
  forall (st : list lobj) (hp : list ltable) (rg : ltable) (m : nat) (tb : ltable),
    nth_error hp m = Some tb ->
    open_signals (mk_lstate (st ++ [OTable m]) hp rg) l =
    Some (mk_lstate (st ++ [OTable m]) (list_set m (sig_entries l tb) hp) rg).
Proof.
  induction l as [|e l IH]; intros st hp rg m tb Hm.
  - cbn [open_signals sig_entries fold_left]. rewrite list_set_same by exact Hm.
    reflexivity.
  - cbn [open_signals]. rewrite (open_signal_run st hp rg m tb e Hm).
    rewrite (IH st _ rg m _ (nth_error_list_set_same _ _ _ _ Hm)).
    rewrite list_set_twice. reflexivity.
Qed.

Lemma reg_entries_other (l : luaL_Reg) (k : lobj) :
  forall tb,
    (forall e, In e l -> k <> OString (fst e)) ->
    tget k (reg_entries l tb) = tget k tb.
Proof.
  induction l as [|e l IH]; intros tb Hk; [reflexivity|].
  cbn [reg_entries fold_left]. fold (reg_entries l (tset (OString (fst e))
                                                      (OFunction (snd e)) tb)).
  rewrite IH by (intros e1 He1; apply Hk; right; exact He1).
  rewrite tget_tset, lobj_eqb_neq by (apply Hk; left; reflexivity). reflexivity.
Qed.

Lemma reg_entries_lookup (l : luaL_Reg) (n f : string) :
  forall tb,
    NoDup (map fst l) -> In (n, f) l ->
    tget (OString n) (reg_entries l tb) = OFunction f.
Proof.
  induction l as [|e l IH]; intros tb Hnd Hin; [destruct Hin|].
  cbn [reg_entries fold_left]. fold (reg_entries l (tset (OString (fst e))
                                                      (OFunction (snd e)) tb)).
  cbn [map] in Hnd. inversion Hnd as [|x xs Hnotin Hnd1]; subst.
  destruct Hin as [->|Hin]; [|apply IH; assumption].
  cbn [fst snd] in *. rewrite reg_entries_other.
  - rewrite tget_tset, lobj_eqb_refl. reflexivity.
  - intros e1 He1 Heq. injection Heq as Heq. apply Hnotin. rewrite Heq.
    apply in_map. exact He1.
Qed.

Lemma sig_entries_other (l : list (string * Z)) (k : lobj) :
  forall tb,
    (forall e, In e l -> k <> OString (fst e) /\ k <> ONumber (snd e)) ->
    tget k (sig_entries l tb) = tget k tb.
Proof.
  induction l as [|e l IH]; intros tb Hk; [reflexivity|].
  cbn [sig_entries fold_left].
  fold (sig_entries l (tset (ONumber (snd e)) (OString (fst e))
                         (tset (OString (fst e)) (ONumber (snd e)) tb))).
  rewrite IH by (intros e1 He1; apply Hk; right; exact He1).
  destruct (Hk e (or_introl eq_refl)) as [H1 H2].
  rewrite !tget_tset, (lobj_eqb_neq _ _ H1), (lobj_eqb_neq _ _ H2). reflexivity.
Qed.

Lemma sig_entries_name (l : list (string * Z)) (name : string) (value : Z) :
  forall tb,
    NoDup (map fst l) -> In (name, value) l ->
    tget (OString name) (sig_entries l tb) = ONumber value.
Proof.
  induction l as [|e l IH]; intros tb Hnd Hin; [destruct Hin|].
  cbn [sig_entries fold_left].
  fold (sig_entries l (tset (ONumber (snd e)) (OString (fst e))
                         (tset (OString (fst e)) (ONumber (snd e)) tb))).
  cbn [map] in Hnd. inversion Hnd as [|x xs Hnotin Hnd1]; subst.
  destruct Hin as [->|Hin]; [|apply IH; assumption].
  cbn [fst snd] in *. rewrite sig_entries_other.
  - rewrite !tget_tset. cbn [lobj_eqb]. rewrite String.eqb_refl. reflexivity.
  - intros e1 He1. split; [|discriminate]. intros Heq. injection Heq as Heq.
    apply Hnotin. rewrite Heq. apply in_map. exact He1.
Qed.

Lemma sig_entries_value (l : list (string * Z)) (name : string) (value : Z) :
  forall tb,
    NoDup (map snd l) -> In (name, value) l ->
    tget (ONumber value) (sig_entries l tb) = OString name.
Proof.
  induction l as [|e l IH]; intros tb Hnd Hin; [destruct Hin|].
  cbn [sig_entries fold_left].
  fold (sig_entries l (tset (ONumber (snd e)) (OString (fst e))
                         (tset (OString (fst e)) (ONumber (snd e)) tb))).
  cbn [map] in Hnd. inversion Hnd as [|x xs Hnotin Hnd1]; subst.
  destruct Hin as [->|Hin]; [|apply IH; assumption].
  cbn [fst snd] in *. rewrite sig_entries_other.
  - rewrite tget_tset, lobj_eqb_refl. reflexivity.
  - intros e1 He1. split; [discriminate|]. intros Heq. injection Heq as Heq.
    apply Hnotin. rewrite Heq. apply in_map. exact He1.
Qed.

Lemma lua_setfield_run (st : list lobj) (hp : list ltable) (rg : ltable)
    (t : nat) (tb : ltable) (v : lobj) (k : string) :
  nth_error hp t = Some tb ->
  lua_setfield (mk_lstate (st ++ [OTable t; v]) hp rg) (-2) k =
  Some (mk_lstate (st ++ [OTable t]) (list_set t (tset (OString k) v tb) hp) rg).
Proof.
  intros Ht. unfold lua_setfield.
  rewrite (index2value_top st [OTable t; v] hp rg (-2) (OTable t))
    by (cbn; first [lia|reflexivity]).
  rewrite (pop_app v st [OTable t]). cbn [fst snd].
  unfold heap_set. cbn [l_heap l_stack l_registry]. rewrite Ht. reflexivity.
Qed.

Lemma module_run (st : list lobj) (hp : list ltable) (rg : ltable) :
  (L3 <- luaL_newlib (mk_lstate st hp rg) ls_globals ;;
   L4 <- open_signals L3 siglist ;;
   r <- index2value L4 (-1) ;;
   Some (r, L4)) =
  Some (OTable (length hp),
        mk_lstate (st ++ [OTable (length hp)])
          (hp ++ [sig_entries siglist (reg_entries ls_globals [])]) rg).
Proof.
  rewrite luaL_newlib_run.
  rewrite (open_signals_run siglist st _ rg (length hp) _ (nth_error_snoc _ hp [])).
  rewrite list_set_snoc.
  rewrite (index2value_top st [OTable (length hp)] _ rg (-1) (OTable (length hp)))
    by (cbn; first [lia|reflexivity]).
  reflexivity.
Qed.

Lemma luaopen_first_run (st : list lobj) (hp : list ltable) (rg : ltable) :
  tget (OString LSL_CLASS) rg = ONil ->
  luaopen__cqueues_signal (mk_lstate st hp rg) =
  Some (OTable (2 + length hp),
        mk_lstate (st ++ [OTable (length hp); OTable (2 + length hp)])
          (hp ++ [tset (OString "__index") (OTable (1 + length hp))
                    (reg_entries lsl_metatable []);
                  reg_entries lsl_methods [];
                  sig_entries siglist (reg_entries ls_globals [])])
          (tset (OString LSL_CLASS) (OTable (length hp)) rg)).
Proof.
  intros Hreg. unfold luaopen__cqueues_signal, luaL_newmetatable.
  cbn [l_stack l_heap l_registry]. rewrite Hreg.
  rewrite (luaL_setfuncs_run lsl_metatable st (hp ++ [[]]) _ (length hp) []
             (nth_error_snoc _ hp [])).
  rewrite list_set_snoc, luaL_newlib_run.
  rewrite <- (app_assoc st [OTable (length hp)]). cbn [app].
  rewrite (lua_setfield_run st _ _ (length hp) (reg_entries lsl_metatable []))
    by (rewrite <- app_assoc; apply nth_error_snoc).
  rewrite <- app_assoc. cbn [app]. rewrite list_set_snoc.
  rewrite module_run. rewrite !length_app. cbn [length].
  rewrite <- !app_assoc. cbn [app].
  replace (length hp + 1)%nat with (S (length hp)) by lia.
  replace (length hp + 2)%nat with (S (S (length hp))) by lia.
  reflexivity.
Qed.

Lemma luaopen_again_run (st : list lobj) (hp : list ltable) (rg : ltable) :
  tget (OString LSL_CLASS) rg <> ONil ->
  luaopen__cqueues_signal (mk_lstate st hp rg) =
  Some (OTable (length hp),
        mk_lstate (st ++ [tget (OString LSL_CLASS) rg; OTable (length hp)])
          (hp ++ [sig_entries siglist (reg_entries ls_globals [])]) rg).
Proof.
  intros Hreg. unfold luaopen__cqueues_signal, luaL_newmetatable.
  cbn [l_stack l_heap l_registry].
  destruct (tget (OString LSL_CLASS) rg) eqn:E; [congruence| | | |];
    unfold push; cbn [l_stack l_heap l_registry];
    rewrite module_run, <- app_assoc; reflexivity.
Qed.

Lemma siglist_names : NoDup (map fst siglist).
Proof.
  cbn [map fst siglist].
  repeat (constructor; [cbn [In]; intuition discriminate|]). constructor.
Qed.

Lemma module_entries (name : string) (value : Z) (n f : string) :
  let module := sig_entries siglist (reg_entries ls_globals []) in
  (In (name, value) siglist -> tget (OString name) module = ONumber value) /\
  (NoDup (map snd siglist) -> In (name, value) siglist ->
   tget (ONumber value) module = OString name) /\
  (In (n, f) ls_globals -> tget (OString n) module = OFunction f).
Proof.
  cbv zeta. split; [|split].
  - apply sig_entries_name, siglist_names.
  - apply sig_entries_value.
  - intros Hin. rewrite sig_entries_other.
    + apply reg_entries_lookup; [|exact Hin]. cbn [map fst ls_globals].
      repeat (constructor; [cbn [In]; intuition discriminate|]). constructor.
    + intros e He. split; [|discriminate].
      cbn [In ls_globals siglist] in Hin, He.
      intuition (subst; try discriminate;
                 match goal with
                 | H : _ = (n, f) |- _ => injection H as <- <-
                 end; cbn [fst]; discriminate).
Qed.

(** X20: opening the module on a state where the listener class is not
    yet registered returns a new table in which each of the seven signal
    names gives its number and each of the eight module functions is under
    its name; when the seven numbers are distinct each number gives back
    its name.  The class is registered with a metatable that has [__gc]
    and whose [__index] is a separate table holding the four listener
    methods, and no table that was there before is changed. *)
Theorem luaopen_registers_class (st : list lobj) (hp : list ltable) (rg : ltable) :
  tget (OString LSL_CLASS) rg = ONil ->
  exists m L1 module mt ix mtb methods,
    luaopen__cqueues_signal (mk_lstate st hp rg) = Some (OTable m, L1) /\
    nth_error (l_heap L1) m = Some module /\
    (forall name value, In (name, value) siglist ->
       tget (OString name) module = ONumber value) /\
    (NoDup (map snd siglist) ->
     forall name value, In (name, value) siglist ->
       tget (ONumber value) module = OString name) /\
    (forall n f, In (n, f) ls_globals -> tget (OString n) module = OFunction f) /\
    tget (OString LSL_CLASS) (l_registry L1) = OTable mt /\
    nth_error (l_heap L1) mt = Some mtb /\
    tget (OString "__gc") mtb = OFunction "lsl__gc" /\
    tget (OString "__index") mtb = OTable ix /\
    nth_error (l_heap L1) ix = Some methods /\
    ix <> mt /\ m <> mt /\ m <> ix /\
    (forall n f, In (n, f) lsl_methods -> tget (OString n) methods = OFunction f) /\
    (forall t, (t < length hp)%nat -> nth_error (l_heap L1) t = nth_error hp t).
Proof.
  intros Hreg.
  exists (2 + length hp)%nat. eexists.
  exists (sig_entries siglist (reg_entries ls_globals [])).
  exists (length hp), (1 + length hp)%nat.
  exists (tset (OString "__index") (OTable (1 + length hp))
            (reg_entries lsl_metatable [])).
  exists (reg_entries lsl_methods []).
  split; [apply luaopen_first_run; exact Hreg|].
  cbn [l_heap l_registry].
  split.
  { rewrite nth_error_app2 by lia.
    replace (2 + length hp - length hp)%nat with 2%nat by lia. reflexivity. }
  split; [intros name value; apply (module_entries name value EmptyString EmptyString)|].
  split; [intros Hnd name value;
          apply (module_entries name value EmptyString EmptyString); exact Hnd|].
  split; [intros n f; apply (module_entries EmptyString 0 n f)|].
  split; [rewrite tget_tset, lobj_eqb_refl; reflexivity|].
  split; [apply nth_error_snoc|].
  split; [reflexivity|].
  split; [rewrite tget_tset, lobj_eqb_refl; reflexivity|].
  split.
  { rewrite nth_error_app2 by lia.
    replace (1 + length hp - length hp)%nat with 1%nat by lia. reflexivity. }
  split; [lia|]. split; [lia|]. split; [lia|].
  split.
  { intros n f Hin. apply reg_entries_lookup; [|exact Hin].
    cbn [map fst lsl_methods].
    repeat (constructor; [cbn [In]; intuition discriminate|]). constructor. }
  intros t Ht. apply nth_error_app1. exact Ht.
Qed.

(** X21: opening the module when the listener class is already
    registered leaves the registry and every existing table as they are,
    so the metatable and the methods, interposed ones included, are kept;
    it returns a new table with the signal names, their numbers and the
    module functions. *)
Theorem luaopen_again_keeps_class (st : list lobj) (hp : list ltable)
    (rg : ltable) :
  tget (OString LSL_CLASS) rg <> ONil ->
  exists L1 module,
    luaopen__cqueues_signal (mk_lstate st hp rg) = Some (OTable (length hp), L1) /\
    l_registry L1 = rg /\
    (forall t, (t < length hp)%nat -> nth_error (l_heap L1) t = nth_error hp t) /\
    nth_error (l_heap L1) (length hp) = Some module /\
    (forall name value, In (name, value) siglist ->
       tget (OString name) module = ONumber value) /\
    (NoDup (map snd siglist) ->
     forall name value, In (name, value) siglist ->
       tget (ONumber value) module = OString name) /\
    (forall n f, In (n, f) ls_globals -> tget (OString n) module = OFunction f).
Proof.
  intros Hreg. eexists. exists (sig_entries siglist (reg_entries ls_globals [])).
  split; [apply luaopen_again_run; exact Hreg|].
  cbn [l_heap l_registry].
  split; [reflexivity|].
  split; [intros t Ht; apply nth_error_app1; exact Ht|].
  split; [apply nth_error_snoc|].
  split; [intros name value; apply (module_entries name value EmptyString EmptyString)|].
  split; [intros Hnd name value;
          apply (module_entries name value EmptyString EmptyString); exact Hnd|].
  intros n f; apply (module_entries EmptyString 0 n f).
Qed.

(** X22: on a module opened for the first time, [lsl_interpose] of one
    of the four listener methods returns the C function registered under
    that name, leaves the value in its place, and changes neither the
    registry nor the module table that the opening returned. *)
Theorem luaopen_then_interpose (st pre : list lobj) (hp : list ltable)
    (rg : ltable) (n old : string) (f : lobj) :
  tget (OString LSL_CLASS) rg = ONil ->
  In (n, old) lsl_methods ->
  exists m L1 L2 ix methods,
    luaopen__cqueues_signal (mk_lstate st hp rg) = Some (OTable m, L1) /\
    lsl_interpose (mk_lstate (pre ++ [OString n; f]) (l_heap L1) (l_registry L1)) =
      Some (OFunction old, L2) /\
    l_registry L2 = l_registry L1 /\
    nth_error (l_heap L2) m = nth_error (l_heap L1) m /\
    nth_error (l_heap L2) ix = Some methods /\
    tget (OString n) methods = f /\
    (forall k g, In (k, g) lsl_methods -> k <> n ->
       tget (OString k) methods = OFunction g).
Proof.
  intros Hreg Hin.
  assert (Hnd : NoDup (map fst lsl_methods)).
  { cbn [map fst lsl_methods].
    repeat (constructor; [cbn [In]; intuition discriminate|]). constructor. }
  exists (2 + length hp)%nat. do 2 eexists.
  exists (1 + length hp)%nat.
  exists (tset (OString n) f (reg_entries lsl_methods [])).
  split; [apply luaopen_first_run; exact Hreg|].
  cbn [l_heap l_registry].
  split.
  { rewrite <- (reg_entries_lookup lsl_methods n old [] Hnd Hin).
    eapply (lsl_interpose_run pre (OString n) f _ _ (length hp) (1 + length hp)).
    - rewrite tget_tset, lobj_eqb_refl. reflexivity.
    - apply nth_error_snoc.
    - rewrite tget_tset, lobj_eqb_refl. reflexivity.
    - rewrite nth_error_app2 by lia.
      replace (1 + length hp - length hp)%nat with 1%nat by lia. reflexivity.
    - discriminate. }
  cbn [l_heap l_registry].
  split; [reflexivity|].
  split; [apply nth_error_list_set_other; lia|].
  split.
  { eapply nth_error_list_set_same. rewrite nth_error_app2 by lia.
    replace (1 + length hp - length hp)%nat with 1%nat by lia. reflexivity. }
  split; [rewrite tget_tset, lobj_eqb_refl; reflexivity|].
  intros k g Hk Hne. rewrite tget_tset, lobj_eqb_neq by congruence.
  apply reg_entries_lookup; assumption.
Qed.

End Platform.

(** * Concrete runs

    The runs below are on a platform whose [sigset_t] holds the signals
    1..32 (macOS, OpenBSD). *)

Ltac run := vm_compute; reflexivity.

(** C1, as stated, fails: [signal.listen(32)] returns a listener whose
    [desired] holds signal 32, which the scan of [sfd_diff] never reaches,
    so that [polling] stays empty. *)
Lemma lsl_listen_signal_32_unarmed :
  exists u K1,
    lsl_listen 32 [Lnumber 32] (boot [reply_ret 3]) = Some (Returned tt, u, K1) /\
    k_log K1 = [SysKqueue] /\
    sigismember 32 (desired (ud_S u)) 32 = 1 /\
    polling (ud_S u) = sigemptyset /\
    polling (ud_S u) <> desired (ud_S u).
Proof.
  eexists. eexists. split; [run|].
  split; [reflexivity|]. split; [reflexivity|]. split; [reflexivity|].
  cbn. discriminate.
Qed.

(** [signal.listen(1, 15)] with every call succeeding. *)
Lemma lsl_listen_arms_desired_witness :
  exists u K1,
    lsl_listen 32 [Lnumber 1; Lnumber 15] (boot [reply_ret 3]) =
      Some (Returned tt, u, K1) /\
    polling (ud_S u) = desired (ud_S u) /\
    sigismember 32 (polling (ud_S u)) 15 = 1.
Proof.
  do 2 eexists.
  eassert (H : lsl_listen 32 [Lnumber 1; Lnumber 15] (boot [reply_ret 3]) =
               Some (Returned tt, _, _)) by run.
  destruct (lsl_listen_arms_desired 32 _ _ _ _ H) as (_ & Hmem & Heq).
  split; [exact H|]. split.
  - apply Heq. apply small_upto31. cbn. lia.
  - apply Hmem. split; [reflexivity|lia].
Defined.

(** C2, as stated, fails: when arming signal 1 fails, [lsl_listen] raises
    with the queue still open and the sets still filled; no [close] has
    been made. *)
Lemma lsl_listen_failure_descriptor_open :
  exists u K1,
    lsl_listen 32 [Lnumber 1] (boot [reply_ret 3; reply_fail 22]) =
      Some (Raised (ErrorMessage "signal.listen" 22), u, K1) /\
    k_log K1 = [SysKqueue; SysKeventChange 3 1 EVFILT_SIGNAL EV_ADD] /\
    fd (ud_S u) = 3 /\ desired (ud_S u) = 1 /\ k_open K1 = [3].
Proof. eexists. eexists. split; [run|]. repeat split. Qed.

(** [signal.listen(1)] when arming signal 1 fails, then the finaliser. *)
Lemma lsl_listen_failure_left_to_gc_witness :
  exists u K1,
    lsl_listen 32 [Lnumber 1] (boot [reply_ret 3; reply_fail 22]) =
      Some (Raised (ErrorMessage "signal.listen" 22), u, K1) /\
    ud_class u = true /\
    k_log (snd (lsl__gc u K1)) = k_log K1 ++ [SysClose 3] /\
    ~ In 3 (k_open (snd (lsl__gc u K1))).
Proof.
  eexists. eexists. split; [run|].
  eassert (H : lsl_listen 32 [Lnumber 1] (boot [reply_ret 3; reply_fail 22]) =
               Some (Raised (ErrorMessage "signal.listen" 22), _, _)) by run.
  destruct (lsl_listen_failure_left_to_gc 32 _ _ _ _ _ _ H)
    as (Hc & _ & _ & _ & Hl & Ho).
  split; [exact Hc|]. split; [exact Hl|exact Ho].
Defined.

(** C3, as stated, fails: a set that holds signal 32 and the empty set
    differ, and [sfd_diff] returns 0 on them. *)
Lemma sfd_diff_blind_to_signal_32 :
  sfd_diff 32 (sigaddset 32 sigemptyset 32) sigemptyset = 0 /\
  sigismember 32 (sigaddset 32 sigemptyset 32) 32 = 1 /\
  sigismember 32 sigemptyset 32 = 0 /\
  sigaddset 32 sigemptyset 32 <> sigemptyset.
Proof. repeat split. cbn. discriminate. Qed.

(** The sets {2, 3} and {2}: the scan stops at signal 3. *)
Lemma sfd_diff_lowest_scanned_witness :
  1 <= sfd_diff 32 6 2 <= 31 /\
  sigismember 32 6 (sfd_diff 32 6 2) <> sigismember 32 2 (sfd_diff 32 6 2) /\
  forall t, 1 <= t < sfd_diff 32 6 2 -> sigismember 32 6 t = sigismember 32 2 t.
Proof.
  destruct (proj2 (sfd_diff_lowest_scanned 32 6 2)) as [H0|H]; [|exact H].
  vm_compute in H0. discriminate H0.
Defined.

(** Signal 2 reported by two drains in a row. *)
Lemma sfd_query_coalesces_witness :
  exists e1 S1 K1 e2 S2 K2,
    sfd_query 32 1 (mk_signalfd 3 6 6 0)
      (boot [reply_signal 2; reply_ret 0; reply_signal 2; reply_ret 0]) =
      Some (e1, S1, K1) /\
    sfd_query 32 1 S1 K1 = Some (e2, S2, K2) /\
    pending S1 = sigaddset 32 sigemptyset 2 /\ pending S2 = pending S1.
Proof.
  do 6 eexists.
  eassert (H1 : sfd_query 32 1 (mk_signalfd 3 6 6 0)
                  (boot [reply_signal 2; reply_ret 0; reply_signal 2; reply_ret 0]) =
                Some (_, _, _)) by run.
  match type of H1 with
  | _ = Some (_, ?S1, ?K1) =>
      eassert (H2 : sfd_query 32 1 S1 K1 = Some (_, _, _)) by run
  end.
  split; [exact H1|]. split; [exact H2|].
  refine (sfd_query_coalesces 32 1 _ _ 2 _ _ _ _ _ _ _ H1 _ H2); repeat split.
Defined.

(** C6, as stated, fails: on the listener that [signal.listen(32)]
    returned, [sfd_update] returns 0 with [polling] empty and signal 32 in
    [desired]. *)
Lemma sfd_update_signal_32_unsettled :
  exists u K1,
    lsl_listen 32 [Lnumber 32] (boot [reply_ret 3]) = Some (Returned tt, u, K1) /\
    reachable 32 (ud_S u) K1 /\
    sfd_update 32 (ud_S u) K1 = Some (0, ud_S u, K1) /\
    polling (ud_S u) <> desired (ud_S u).
Proof.
  eexists. eexists. split; [run|]. split; [|split; [run|cbn; discriminate]].
  eapply (reach_listen 32 [Lnumber 32] (boot [reply_ret 3])); [run|reflexivity].
Qed.

(** The listener of [signal.listen(1, 15)], and a reconciliation that arms
    signals 1 and 3 and disarms signal 2. *)
Lemma polling_subset_and_settled_witness :
  exists u K1 S2 K2,
    lsl_listen 32 [Lnumber 1; Lnumber 15] (boot [reply_ret 3]) =
      Some (Returned tt, u, K1) /\
    sig_subset 32 (polling (ud_S u)) (desired (ud_S u)) /\
    sfd_update 32 (mk_signalfd 3 5 2 0) (boot []) = Some (0, S2, K2) /\
    sig_agree31 32 (polling S2) (desired S2).
Proof.
  do 4 eexists.
  eassert (H1 : lsl_listen 32 [Lnumber 1; Lnumber 15] (boot [reply_ret 3]) =
                Some (Returned tt, _, _)) by run.
  eassert (H2 : sfd_update 32 (mk_signalfd 3 5 2 0) (boot []) = Some (0, _, _)) by run.
  split; [exact H1|]. split; [|split; [exact H2|]].
  - apply (proj1 (polling_subset_and_settled 32) _ _
             (reach_listen 32 _ _ _ _ H1 eq_refl)).
  - apply (proj2 (polling_subset_and_settled 32) _ _ _ _ H2).
Defined.

(** The same reconciliation, run twice. *)
Lemma sfd_update_idempotent_witness :
  exists S1 K1,
    sfd_update 32 (mk_signalfd 3 5 2 0) (boot []) = Some (0, S1, K1) /\
    polling S1 = 5 /\
    sfd_update 32 S1 K1 = Some (0, S1, K1).
Proof.
  do 2 eexists.
  eassert (H : sfd_update 32 (mk_signalfd 3 5 2 0) (boot []) = Some (0, _, _)) by run.
  split; [exact H|]. split; [reflexivity|].
  apply (sfd_update_idempotent 32 _ _ _ _ H).
Defined.

(** A drain that takes in signal 2, then [lsl_timeout]. *)
Lemma lsl_timeout_after_drain_witness :
  exists u K1 e S1 K2,
    lsl_listen 32 [Lnumber 1; Lnumber 2]
      (boot [reply_ret 3; reply_ret 0; reply_ret 0; reply_signal 2]) =
      Some (Returned tt, u, K1) /\
    sfd_query 32 1 (ud_S u) K1 = Some (e, S1, K2) /\
    pending S1 = sigaddset 32 sigemptyset 2 /\
    lsl_timeout 32 S1 = Lnumber 0.
Proof.
  do 5 eexists.
  eassert (H1 : lsl_listen 32 [Lnumber 1; Lnumber 2]
                  (boot [reply_ret 3; reply_ret 0; reply_ret 0; reply_signal 2]) =
                Some (Returned tt, _, _)) by run.
  match type of H1 with
  | _ = Some (_, ?u, ?K1) =>
      eassert (H2 : sfd_query 32 1 (ud_S u) K1 = Some (_, _, _)) by run
  end.
  split; [exact H1|]. split; [exact H2|]. split; [reflexivity|].
  apply (lsl_timeout_after_drain 32 _ _ _ _ _ _
           (reach_listen 32 _ _ _ _ H1 eq_refl) H2 eq_refl).
  cbn. discriminate.
Defined.

(** Two interrupted polls, then a poll that fails with error 9. *)
Lemma sfd_query_interrupted_retried_witness :
  sfd_query 32 (2 + 1) (mk_signalfd 3 1 1 0)
    (boot [reply_fail 4; reply_fail 4; reply_fail 9]) =
    Some (9, mk_signalfd 3 1 1 0,
          polls 3 3 (boot [reply_fail 4; reply_fail 4; reply_fail 9])) /\
  9 <> EINTR.
Proof.
  assert (Hint : forall i, (i < 2)%nat ->
            interrupted (k_reply (boot [reply_fail 4; reply_fail 4; reply_fail 9])
              (length (k_log (boot [reply_fail 4; reply_fail 4; reply_fail 9])) + i)%nat)
            = true).
  { intros i Hi. destruct i as [|[|i]]; [reflexivity|reflexivity|lia]. }
  pose proof (sfd_query_interrupted_retried 32 2 0 (mk_signalfd 3 1 1 0)
                (boot [reply_fail 4; reply_fail 4; reply_fail 9]) Hint eq_refl) as H.
  cbv zeta in H. destruct H as (Heq & Hne & _).
  split; [exact Heq|]. apply Hne. reflexivity.
Defined.

(** C10, as stated, fails: on the listener that [signal.listen(32)]
    returned, a drain whose poll reports nothing returns 0 with [polling]
    empty and signal 32 in [desired]. *)
Lemma sfd_query_signal_32_unsettled :
  exists u K1 S2 K2,
    lsl_listen 32 [Lnumber 32] (boot [reply_ret 3]) = Some (Returned tt, u, K1) /\
    r_ret (next_reply K1) = 0 /\
    sfd_query 32 1 (ud_S u) K1 = Some (0, S2, K2) /\
    k_honest K2 = true /\
    sigismember 32 (desired S2) 32 = 1 /\
    polling S2 = sigemptyset /\
    polling S2 <> desired S2.
Proof.
  do 4 eexists. split; [run|]. split; [reflexivity|]. split; [run|].
  repeat split. cbn. discriminate.
Qed.

(** A drain that takes in signal 2 and arms it again. *)
Lemma sfd_query_settles_witness :
  exists u K1 S2 K2,
    lsl_listen 32 [Lnumber 1; Lnumber 2]
      (boot [reply_ret 3; reply_ret 0; reply_ret 0; reply_signal 2]) =
      Some (Returned tt, u, K1) /\
    sfd_query 32 1 (ud_S u) K1 = Some (0, S2, K2) /\
    pending S2 = sigaddset 32 sigemptyset 2 /\
    polling S2 = desired S2.
Proof.
  do 4 eexists.
  eassert (H1 : lsl_listen 32 [Lnumber 1; Lnumber 2]
                  (boot [reply_ret 3; reply_ret 0; reply_ret 0; reply_signal 2]) =
                Some (Returned tt, _, _)) by run.
  match type of H1 with
  | _ = Some (_, ?u, ?K1) =>
      eassert (H2 : sfd_query 32 1 (ud_S u) K1 = Some (0, _, _)) by run
  end.
  split; [exact H1|]. split; [exact H2|]. split; [reflexivity|].
  apply (proj2 (sfd_query_settles 32 _ _ _ _ _ H2)
           (reach_listen 32 _ _ _ _ H1 eq_refl) eq_refl).
  apply small_upto31. cbn. lia.
Defined.

(** Signals 2 and 1 are taken in by two [lsl_wait] whose re-arming fails,
    so both stay pending; the next three [lsl_wait] return 1, 2, nothing. *)
Lemma lsl_wait_drains_in_order_witness :
  exists S K S1 K1,
    reachable 32 S K /\ quiet K /\
    sig_elements 32 (pending S) = [1; 2] /\
    lsl_wait_seq 32 (2 + 1) 1 S K =
      Some ([Returned (Some 1); Returned (Some 2); Returned None], S1, K1) /\
    pending S1 = sigemptyset.
Proof.
  eassert (H0 : lsl_listen 32 [Lnumber 1; Lnumber 2]
                  (boot [reply_ret 3; reply_ret 0; reply_ret 0;
                         reply_signal 2; reply_fail 22;
                         reply_signal 1; reply_fail 22]) =
                Some (Returned tt, _, _)) by run.
  pose proof (reach_listen 32 _ _ _ _ H0 eq_refl) as R0.
  match type of R0 with
  | reachable _ ?S ?K =>
      eassert (H1 : lsl_wait 32 1 S K = Some (_, _, _)) by run
  end.
  pose proof (reach_wait 32 _ _ _ _ _ _ R0 H1 eq_refl) as R1.
  match type of R1 with
  | reachable _ ?S ?K =>
      eassert (H2 : lsl_wait 32 1 S K = Some (_, _, _)) by run
  end.
  pose proof (reach_wait 32 _ _ _ _ _ _ R1 H2 eq_refl) as R2.
  match type of R2 with
  | reachable _ _ ?K =>
      assert (Hq : quiet K)
        by (intros n Hn; cbn in Hn;
            do 7 (destruct n as [|n]; [lia|]); destruct n; reflexivity)
  end.
  destruct (proj2 (lsl_wait_drains_in_order 32 0 1 _ _ R2) Hq)
    as (_ & _ & S1 & K1 & Hs & Hp).
  eexists. eexists. exists S1, K1.
  split; [exact R2|]. split; [exact Hq|].
  split; [reflexivity|]. split; [exact Hs|exact Hp].
Defined.

(** ** Runs for the further properties *)

(** Arming signals 1 and 3 and disarming signal 2. *)
Lemma sfd_update_calls_witness :
  exists S1 K1,
    sfd_update 32 (mk_signalfd 3 5 2 0) (boot []) = Some (0, S1, K1) /\
    k_log K1 = k_log (boot []) ++
               map (change_call 32 (mk_signalfd 3 5 2 0)) (sig_diffs 32 5 2) /\
    sig_diffs 32 5 2 = [1; 2; 3].
Proof.
  do 2 eexists.
  eassert (H : sfd_update 32 (mk_signalfd 3 5 2 0) (boot []) = Some (0, _, _)) by run.
  split; [exact H|]. split; [|run].
  exact (proj1 (sfd_update_calls 32 _ _ _ _ H)).
Defined.

(** The same reconciliation when the second call, disarming signal 2,
    fails with error 22. *)
Lemma sfd_update_stops_at_failure_witness :
  exists S1 K1,
    sfd_update 32 (mk_signalfd 3 5 2 0) (boot [reply_ret 0; reply_fail 22]) =
      Some (22, S1, K1) /\
    22 <> 0 /\
    exists done m rest,
      sig_diffs 32 5 2 = done ++ m :: rest /\
      sfd_diff 32 (desired S1) (polling S1) = m /\
      length (k_log K1) = length (done ++ [m]).
Proof.
  do 2 eexists.
  eassert (H : sfd_update 32 (mk_signalfd 3 5 2 0)
                 (boot [reply_ret 0; reply_fail 22]) = Some (22, _, _)) by run.
  split; [exact H|]. split; [discriminate|].
  destruct (sfd_update_stops_at_failure 32 _ _ _ _ _ H ltac:(discriminate))
    as (done & m & rest & H1 & _ & H3 & H4 & _).
  exists done, m, rest. split; [exact H1|]. split; [exact H3|].
  rewrite H4. cbn [k_log boot app]. apply length_map.
Defined.

(** [signal.listen(1, 2)], then a [lsl_wait] whose poll reports signal 2. *)
Lemma lsl_wait_only_polls_and_arms_witness :
  exists S K r S2 K2,
    reachable 32 S K /\
    lsl_wait 32 1 S K = Some (r, S2, K2) /\
    k_open K2 = k_open K.
Proof.
  eassert (H0 : lsl_listen 32 [Lnumber 1; Lnumber 2]
                  (boot [reply_ret 3; reply_ret 0; reply_ret 0; reply_signal 2]) =
                Some (Returned tt, _, _)) by run.
  pose proof (reach_listen 32 _ _ _ _ H0 eq_refl) as R0.
  match type of R0 with
  | reachable _ ?S ?K =>
      eassert (H1 : lsl_wait 32 1 S K = Some (_, _, _)) by run
  end.
  destruct (lsl_wait_only_polls_and_arms 32 _ _ _ _ _ _ R0 H1)
    as (m & armed & _ & _ & Ho).
  do 5 eexists. split; [exact R0|]. split; [exact H1|exact Ho].
Defined.

(** A settled listener for signals 2 and 3 whose poll reports signal 2. *)
Lemma sfd_query_rearms_delivered_witness :
  exists K1,
    sfd_query 32 1 (mk_signalfd 3 6 6 0) (boot [reply_signal 2; reply_ret 0]) =
      Some (0, mk_signalfd 3 6 6 (sigaddset 32 0 2), K1) /\
    k_log K1 = [SysKeventPoll 3; SysKeventChange 3 2 EVFILT_SIGNAL EV_ADD].
Proof.
  destruct (sfd_query_rearms_delivered 32 0 (mk_signalfd 3 6 6 0)
              (boot [reply_signal 2; reply_ret 0]) 2) as (K1 & H1 & H2 & _).
  - run.
  - lia.
  - reflexivity.
  - repeat split.
  - reflexivity.
  - exists K1. split; [exact H1|exact H2].
Defined.

(** The same drain: signal 1, pending before it, is pending after it. *)
Lemma sfd_query_takes_in_one_witness :
  exists e S1 K1,
    sfd_query 32 1 (mk_signalfd 3 7 7 1) (boot [reply_signal 2; reply_ret 0]) =
      Some (e, S1, K1) /\
    sig_subset 32 1 (pending S1).
Proof.
  do 3 eexists.
  eassert (H : sfd_query 32 1 (mk_signalfd 3 7 7 1)
                 (boot [reply_signal 2; reply_ret 0]) = Some (_, _, _)) by run.
  split; [exact H|].
  exact (proj2 (sfd_query_takes_in_one 32 _ _ _ _ _ _ H)).
Defined.

(** Signals 1 and 2 pending: [lsl_wait] returns 1 and keeps 2. *)
Lemma lsl_wait_keeps_pending_witness :
  exists r S2 K2,
    lsl_wait 32 1 (mk_signalfd 3 6 6 3) (boot []) = Some (r, S2, K2) /\
    sigismember 32 3 2 = 1 /\
    (r = Returned (Some 2) \/ sigismember 32 (pending S2) 2 = 1).
Proof.
  do 3 eexists.
  eassert (H : lsl_wait 32 1 (mk_signalfd 3 6 6 3) (boot []) = Some (_, _, _)) by run.
  split; [exact H|]. split; [reflexivity|].
  exact (lsl_wait_keeps_pending 32 _ _ _ _ _ _ 2 H eq_refl).
Defined.


(** The descriptor of the listener of [signal.listen(1, 2)]. *)
Lemma lsl_pollfd_open_and_stable_witness :
  exists S K,
    reachable 32 S K /\ lsl_pollfd S <> Lnumber (-1) /\
    forall d, lsl_pollfd S = Lnumber d -> In d (k_open K).
Proof.
  eassert (H0 : lsl_listen 32 [Lnumber 1; Lnumber 2] (boot [reply_ret 3]) =
                Some (Returned tt, _, _)) by run.
  pose proof (reach_listen 32 _ _ _ _ H0 eq_refl) as R0.
  destruct (lsl_pollfd_open_and_stable 32 _ _ R0) as (H1 & H2 & _).
  do 2 eexists. split; [exact R0|]. split; [exact H1|exact H2].
Defined.

(** [signal.listen(1, 2)], two [lsl_wait], then the finaliser. *)
Lemma lsl__gc_releases_witness :
  exists u K1 rs S2 K2,
    lsl_listen 32 [Lnumber 1; Lnumber 2]
      (boot [reply_ret 3; reply_ret 0; reply_ret 0; reply_signal 2]) =
      Some (Returned tt, u, K1) /\
    ~ In (fd (ud_S u))
         (k_open (boot [reply_ret 3; reply_ret 0; reply_ret 0; reply_signal 2])) /\
    lsl_wait_seq 32 2 1 (ud_S u) K1 = Some (rs, S2, K2) /\
    k_open (snd (lsl__gc (mk_userdata S2 true) K2)) = [].
Proof.
  do 5 eexists.
  eassert (H1 : lsl_listen 32 [Lnumber 1; Lnumber 2]
                  (boot [reply_ret 3; reply_ret 0; reply_ret 0; reply_signal 2]) =
                Some (Returned tt, _, _)) by run.
  match type of H1 with
  | _ = Some (_, ?u, ?K1) =>
      eassert (H2 : lsl_wait_seq 32 2 1 (ud_S u) K1 = Some (_, _, _)) by run
  end.
  assert (Hfresh : ~ In 3 (@nil Z)) by (intros Hin; destruct Hin).
  split; [exact H1|]. split; [exact Hfresh|]. split; [exact H2|].
  exact (proj1 (proj2 (lsl__gc_releases 32 _ _ _ _ _ _ _ _ _ H1 Hfresh H2))).
Defined.

(** Signal 2 pending and a kernel that reports nothing. *)
Lemma lsl_timeout_tells_wait_witness :
  quiet (boot []) /\
  exists r S2 K2,
    lsl_wait 32 1 (mk_signalfd 3 6 6 2) (boot []) = Some (Returned r, S2, K2) /\
    (lsl_timeout 32 (mk_signalfd 3 6 6 2) = Lnumber 0 <-> exists m, r = Some m).
Proof.
  assert (Hq : quiet (boot [])) by (intros n _; destruct n; reflexivity).
  split; [exact Hq|].
  destruct (lsl_timeout_tells_wait 32 0 (mk_signalfd 3 6 6 2) (boot []) Hq)
    as (r & S2 & K2 & H1 & _ & H3).
  exists r, S2, K2. split; [exact H1|exact H3].
Defined.

(** [signal.listen(1, nil, 2)]. *)
Lemma lsl_listen_bad_argument_witness :
  exists S1,
    lsl_listen 32 ([Lnumber 1] ++ Lnil :: [Lnumber 2]) (boot []) =
      Some (Raised (BadArgument 2), mk_userdata S1 false, boot []) /\
    fd S1 = -1.
Proof.
  destruct (lsl_listen_bad_argument 32 [Lnumber 1] Lnil [Lnumber 2] (boot []))
    as (S1 & H1 & H2 & _).
  - constructor; [cbn; discriminate|constructor].
  - reflexivity.
  - exists S1. split; [exact H1|exact H2].
Defined.

(** [signal.listen(2, 1, 2, 99)] and [signal.listen(1, 2)]. *)
Lemma lsl_listen_args_as_set_witness :
  lsl_listen 32 [Lnumber 2; Lnumber 1; Lnumber 2; Lnumber 99] (boot [reply_ret 3]) =
  lsl_listen 32 [Lnumber 1; Lnumber 2] (boot [reply_ret 3]).
Proof.
  apply (lsl_listen_args_as_set 32).
  - repeat (constructor; [cbn; discriminate|]). constructor.
  - repeat (constructor; [cbn; discriminate|]). constructor.
  - intros signo Hv. apply (sig_valid_iff 32) in Hv. vm_compute.
    split; intros H; repeat (destruct H as [H|H]); try contradiction;
      try (injection H as <-); try lia; auto.
Defined.

(** [signal.ignore(1, 13)] with both calls succeeding. *)
Lemma ls_ignore_default_return_witness :
  ls_ignore [Lnumber 1; Lnumber 13] (proc []) =
    (Returned tt, after_calls (proc []) (sigaction_calls SIG_IGN [1; 13])) /\
  ls_default [Lnumber 1; Lnumber 13] (proc []) =
    (Returned tt, after_calls (proc []) (sigaction_calls SIG_DFL [1; 13])).
Proof.
  pose proof (ls_ignore_default_return [Lnumber 1; Lnumber 13] (proc [])) as H.
  cbv zeta in H. destruct H as (_ & _ & H). destruct H as (H1 & H2 & _).
  - split.
    + repeat (constructor; [cbn; discriminate|]). constructor.
    + intros i _. destruct i; reflexivity.
  - split; [exact H1|exact H2].
Defined.

(** [signal.ignore(1, 9, 2)] when the call for signal 9 fails with error
    22. *)
Lemma ls_ignore_default_failure_witness :
  ls_ignore ([Lnumber 1] ++ Lnumber 9 :: [Lnumber 2])
    (proc [reply_ret 0; reply_fail 22]) =
    (Raised (ErrorMessage "signal.ignore" 22),
     after_calls (proc [reply_ret 0; reply_fail 22])
       (sigaction_calls SIG_IGN [1; 9])).
Proof.
  destruct (ls_ignore_default_failure [Lnumber 1] (Lnumber 9) [Lnumber 2]
              (proc [reply_ret 0; reply_fail 22])) as [_ H].
  - constructor; [cbn; discriminate|constructor].
  - intros i Hi. cbn [length] in Hi. destruct i; [reflexivity|lia].
  - destruct (H 9 eq_refl) as [H1 _]; [vm_compute; discriminate|exact H1].
Defined.

(** [signal.block(2, 99, 1)] in a build with threads. *)
Lemma ls_block_unblock_one_call_witness :
  exists set,
    sigismember 32 set 2 = 1 /\ sigismember 32 set 99 <> 1 /\
    snd (ls_block 32 true [Lnumber 2; Lnumber 99; Lnumber 1] (proc [])) =
      after_calls (proc []) [SysSigmask SIG_BLOCK set] /\
    snd (ls_unblock 32 true [Lnumber 2; Lnumber 99; Lnumber 1] (proc [])) =
      after_calls (proc []) [SysSigmask SIG_UNBLOCK set].
Proof.
  destruct (ls_block_unblock_one_call 32 true
              [Lnumber 2; Lnumber 99; Lnumber 1] (proc []))
    as (set & _ & Hm & Hb & Hu & _).
  - repeat (constructor; [cbn; discriminate|]). constructor.
  - exists set. split; [|split; [|split; [exact Hb|exact Hu]]].
    + apply Hm. split; [reflexivity|]. vm_compute. auto.
    + intros H. apply Hm in H. destruct H as [H _]. vm_compute in H. discriminate H.
Defined.

(** [signal.block(1, nil)] and [signal.unblock(1, nil)]. *)
Lemma ls_block_unblock_bad_argument_witness :
  ls_block 32 false ([Lnumber 1] ++ [Lnil]) (proc []) =
    (Raised (BadArgument 2), proc []) /\
  ls_unblock 32 false ([Lnumber 1] ++ [Lnil]) (proc []) =
    (Raised (BadArgument 2), proc []).
Proof.
  apply (ls_block_unblock_bad_argument 32 false [Lnumber 1] Lnil [] (proc [])).
  - constructor; [cbn; discriminate|constructor].
  - reflexivity.
Defined.

(** [signal.block(1)] when [sigprocmask] fails with error 22, and when
    [pthread_sigmask] returns 22. *)
Lemma ls_block_unblock_error_witness :
  fst (ls_block 32 false [Lnumber 1] (proc [reply_fail 22])) =
    Raised (ErrorMessage "signal.block" 22) /\
  fst (ls_block 32 true [Lnumber 1] (proc [reply_ret 22])) =
    Raised (ErrorMessage "signal.block" 22).
Proof.
  split.
  - refine (proj1 (ls_block_unblock_error 32 false [Lnumber 1]
                     (proc [reply_fail 22]) _ _)).
    + constructor; [cbn; discriminate|constructor].
    + vm_compute. discriminate.
  - refine (proj1 (ls_block_unblock_error 32 true [Lnumber 1]
                     (proc [reply_ret 22]) _ _)).
    + constructor; [cbn; discriminate|constructor].
    + vm_compute. discriminate.
Defined.

(** [signal.interpose("wait", mywait)]. *)
Lemma lsl_interpose_swaps_witness :
  exists hp1,
    lsl_interpose
      (mk_lstate ([] ++ [OString "wait"; OFunction "mywait"])
         opened_heap opened_registry) =
      Some (OFunction "lsl_wait",
            mk_lstate [OString "wait"; OFunction "mywait"; OTable 0; OTable 1;
                       OFunction "lsl_wait"] hp1 opened_registry) /\
    nth_error hp1 1 = Some [(OString "wait", OFunction "mywait")].
Proof.
  destruct (lsl_interpose_swaps [] (OString "wait") (OFunction "mywait")
              opened_heap opened_registry 0 1
              [(OString "__index", OTable 1)]
              [(OString "wait", OFunction "lsl_wait")]
              eq_refl eq_refl eq_refl eq_refl ltac:(discriminate))
    as (hp1 & H1 & H2 & _).
  exists hp1. split; [exact H1|exact H2].
Defined.

(** [signal.interpose("wait", mywait)], then interposing what it
    returned. *)
Lemma lsl_interpose_round_trip_witness :
  exists old L1 L2 methods2,
    lsl_interpose
      (mk_lstate ([] ++ [OString "wait"; OFunction "mywait"])
         opened_heap opened_registry) = Some (old, L1) /\
    lsl_interpose
      (mk_lstate ([] ++ [OString "wait"; old]) (l_heap L1) (l_registry L1)) =
      Some (OFunction "mywait", L2) /\
    nth_error (l_heap L2) 1 = Some methods2 /\
    tget (OString "wait") methods2 = OFunction "lsl_wait".
Proof.
  destruct (lsl_interpose_round_trip [] [] (OString "wait") (OFunction "mywait")
              opened_heap opened_registry 0 1
              [(OString "__index", OTable 1)]
              [(OString "wait", OFunction "lsl_wait")]
              eq_refl eq_refl eq_refl eq_refl ltac:(discriminate)
              ltac:(discriminate))
    as (old & L1 & L2 & methods2 & H1 & H2 & H3 & H4 & _).
  exists old, L1, L2, methods2.
  split; [exact H1|]. split; [exact H2|]. split; [exact H3|].
  rewrite H4. reflexivity.
Defined.

(** Opening the module on an empty state, with the signal numbers of the
    BSD family. *)
Lemma luaopen_registers_class_witness :
  exists m L1 module,
    luaopen__cqueues_signal 14 20 1 2 13 3 15 (mk_lstate [] [] []) =
      Some (OTable m, L1) /\
    nth_error (l_heap L1) m = Some module /\
    tget (OString "SIGINT") module = ONumber 2 /\
    tget (ONumber 15) module = OString "SIGTERM".
Proof.
  destruct (luaopen_registers_class 14 20 1 2 13 3 15 [] [] [] eq_refl)
    as (m & L1 & module & mt & ix & mtb & methods & H1 & H2 & H3 & H4 & _).
  exists m, L1, module. split; [exact H1|]. split; [exact H2|]. split.
  - apply H3. cbn [siglist In]. repeat first [left; reflexivity | right].
  - apply H4.
    + cbn [map snd siglist].
      repeat (constructor; [cbn [In]; intuition discriminate|]). constructor.
    + cbn [siglist In]. repeat first [left; reflexivity | right].
Defined.

(** Opening the module on a state that has the listener class. *)
Lemma luaopen_again_keeps_class_witness :
  exists L1,
    luaopen__cqueues_signal 14 20 1 2 13 3 15
      (mk_lstate [] opened_heap opened_registry) = Some (OTable 2, L1) /\
    l_registry L1 = opened_registry /\
    nth_error (l_heap L1) 1 = Some [(OString "wait", OFunction "lsl_wait")].
Proof.
  destruct (luaopen_again_keeps_class 14 20 1 2 13 3 15 [] opened_heap
              opened_registry) as (L1 & module & H1 & H2 & H3 & _).
  - cbn. discriminate.
  - exists L1. split; [exact H1|]. split; [exact H2|].
    rewrite H3 by (cbn; lia). reflexivity.
Defined.

(** Opening the module on an empty state, then
    [signal.interpose("wait", mywait)]. *)
Lemma luaopen_then_interpose_witness :
  exists m L1 L2,
    luaopen__cqueues_signal 14 20 1 2 13 3 15 (mk_lstate [] [] []) =
      Some (OTable m, L1) /\
    lsl_interpose
      (mk_lstate ([] ++ [OString "wait"; OFunction "mywait"])
         (l_heap L1) (l_registry L1)) = Some (OFunction "lsl_wait", L2).
Proof.
  destruct (luaopen_then_interpose 14 20 1 2 13 3 15 [] [] [] []
              "wait" "lsl_wait" (OFunction "mywait") eq_refl
              (or_introl eq_refl))
    as (m & L1 & L2 & ix & methods & H1 & H2 & _).
  exists m, L1, L2. split; [exact H1|exact H2].
Defined.
